(** * HARHN: the forward computation of models/HARHN.py

    A shallow embedding of the recurrent highway cell (RHNCell), its
    highway-state gate (HSGLayer), the encoder (RHN), the convolution
    block (ConvBlock) and the attention decoder (HARHN), together with the
    properties of them that the design document states.

    Tensors carry a shape and an entry for every index.  Entries are real
    numbers: the development is about the mathematical function that the
    floating-point program approximates.  A call that PyTorch rejects
    (shape mismatch, index out of range, empty [torch.stack]) is [None].

    The functions around the network are embedded in modules of their
    own: [prepare_batches] of the same file ([Batches]), [make_model] of
    run_model.py ([RunModel]) and the naming and creation of result
    directories of utils.py ([Utils]). *)

From Stdlib Require Import List ZArith Reals Lra Lia Bool Arith Psatz.
From Stdlib Require Import FunctionalExtensionality.
From Stdlib Require Strings.String Strings.Ascii.
From Stdlib Require DecimalString DecimalNat DecimalFacts.
Import ListNotations.

(** ** Failure of a call, and Python's [for] loops *)

Definition bind {A B : Type} (m : option A) (f : A -> option B) : option B :=
  match m with
  | Some a => f a
  | None => None
  end.

Notation "x <- m ;; k" := (bind m (fun x => k))
  (at level 61, m at next level, right associativity).
Notation "' p <- m ;; k" := (bind m (fun x => match x with p => k end))
  (at level 61, p pattern, m at next level, right associativity).

(** [for a in l: st = body a st]. *)
Fixpoint for_each {S A : Type} (l : list A) (st : S)
    (body : A -> S -> option S) : option S :=
  match l with
  | [] => Some st
  | a :: l' => st' <- body a st ;; for_each l' st' body
  end.

(** [range(n)] for a Python integer [n]: empty when [n <= 0]. *)
Definition range (n : Z) : list nat := seq 0 (Z.to_nat n).

(** [l.pop()] as used on [preds]: the list without its last element;
    IndexError on the empty list. *)
Definition pop {A : Type} (l : list A) : option (list A) :=
  match l with
  | [] => None
  | _ => Some (removelast l)
  end.

(** ** Tensors *)

Module Torch.

Record tensor : Type := mkT { shape : list nat; item : list nat -> R }.

Definition sigmoid (v : R) : R := (1 / (1 + exp (- v)))%R.

(** [sum_{i < n} f i] *)
Fixpoint rsum (n : nat) (f : nat -> R) : R :=
  match n with
  | 0 => 0%R
  | S k => (rsum k f + f k)%R
  end.

(** The maximum of [f lo, ..., f (lo + len)]. *)
Fixpoint rmax_from (lo len : nat) (f : nat -> R) : R :=
  match len with
  | 0 => f lo
  | S k => Rmax (f lo) (rmax_from (S lo) k f)
  end.

Fixpoint shape_eqb (a b : list nat) : bool :=
  match a, b with
  | [], [] => true
  | x :: a', y :: b' => (x =? y) && shape_eqb a' b'
  | _, _ => false
  end.

Definition numel (sh : list nat) : nat := fold_right Nat.mul 1 sh.

(** [torch.zeros] at a shape and [torch.Tensor([v] * n)]. *)
Definition zeros (sh : list nat) : tensor := mkT sh (fun _ => 0%R).
Definition full (sh : list nat) (v : R) : tensor := mkT sh (fun _ => v).

(** Pointwise functions: [torch.tanh], [torch.sigmoid], [1 - t], ReLU. *)
Definition map_t (f : R -> R) (t : tensor) : tensor :=
  mkT (shape t) (fun idx => f (item t idx)).

Definition tanh_t : tensor -> tensor := map_t tanh.
Definition sigmoid_t : tensor -> tensor := map_t sigmoid.
Definition one_minus : tensor -> tensor := map_t (fun v => (1 - v)%R).
Definition relu_t : tensor -> tensor := map_t (Rmax 0).

(** *** Broadcasting binary operations

    Shapes are aligned at their last dimension; two aligned dimensions
    must be equal, or one of them is 1. *)
Fixpoint broadcast_rev (a b : list nat) : option (list nat) :=
  match a, b with
  | [], _ => Some b
  | _, [] => Some a
  | x :: a', y :: b' =>
      r <- broadcast_rev a' b' ;;
      if x =? y then Some (x :: r)
      else if x =? 1 then Some (y :: r)
      else if y =? 1 then Some (x :: r)
      else None
  end.

Definition broadcast_shapes (a b : list nat) : option (list nat) :=
  r <- broadcast_rev (rev a) (rev b) ;; Some (rev r).

Fixpoint clamp_ones (sh idx : list nat) : list nat :=
  match sh, idx with
  | d :: sh', i :: idx' => (if d =? 1 then 0 else i) :: clamp_ones sh' idx'
  | _, _ => []
  end.

(** The index into an operand of shape [sh] that the index [idx] of the
    broadcast result reads. *)
Definition bidx (sh idx : list nat) : list nat :=
  clamp_ones sh (skipn (length idx - length sh) idx).

Definition binop (f : R -> R -> R) (a b : tensor) : option tensor :=
  sh <- broadcast_shapes (shape a) (shape b) ;;
  Some (mkT sh (fun idx =>
    f (item a (bidx (shape a) idx)) (item b (bidx (shape b) idx)))).

Definition add : tensor -> tensor -> option tensor := binop Rplus.
Definition mul : tensor -> tensor -> option tensor := binop Rmult.

(** *** Indexing and reshaping *)

(** [t.shape[i]] *)
Definition size (t : tensor) (i : nat) : option nat := nth_error (shape t) i.

(** [t[i]]: indexing the first dimension. *)
Definition select0 (t : tensor) (i : nat) : option tensor :=
  match shape t with
  | d :: sh =>
      if i <? d then Some (mkT sh (fun idx => item t (i :: idx))) else None
  | [] => None
  end.

(** [t[:, i, :]] *)
Definition select1 (t : tensor) (i : nat) : option tensor :=
  match shape t with
  | d0 :: d1 :: d2 :: sh =>
      if i <? d1
      then Some (mkT (d0 :: d2 :: sh) (fun idx =>
             match idx with
             | i0 :: r => item t (i0 :: i :: r)
             | [] => item t []
             end))
      else None
  | _ => None
  end.

(** [t[..., k]] *)
Definition select_last (t : tensor) (k : nat) : option tensor :=
  match shape t with
  | [] => None
  | _ =>
      if k <? last (shape t) 0
      then Some (mkT (removelast (shape t)) (fun idx => item t (idx ++ [k])))
      else None
  end.

(** [torch.stack(ts)]: a new first dimension; the list is non-empty and
    its tensors have one shape. *)
Definition stack (ts : list tensor) : option tensor :=
  match ts with
  | [] => None
  | t0 :: _ =>
      if forallb (fun t => shape_eqb (shape t) (shape t0)) ts
      then Some (mkT (length ts :: shape t0) (fun idx =>
             match idx with
             | i :: r => item (nth i ts t0) r
             | [] => item t0 []
             end))
      else None
  end.

Fixpoint index_of (j : nat) (dims : list nat) : nat :=
  match dims with
  | [] => 0
  | d :: dims' => if d =? j then 0 else S (index_of j dims')
  end.

(** [t.permute(dims)]: dimension [i] of the result is dimension
    [dims[i]] of [t]. *)
Definition permute (t : tensor) (dims : list nat) : option tensor :=
  let n := length (shape t) in
  if (length dims =? n)
     && forallb (fun j => existsb (Nat.eqb j) dims) (seq 0 n)
  then Some (mkT (map (fun d => nth d (shape t) 0) dims) (fun idx =>
         item t (map (fun j => nth (index_of j dims) idx 0) (seq 0 n))))
  else None.

(** [t.unsqueeze(1)] *)
Definition unsqueeze1 (t : tensor) : option tensor :=
  match shape t with
  | d0 :: sh =>
      Some (mkT (d0 :: 1 :: sh) (fun idx =>
        match idx with
        | i0 :: _ :: r => item t (i0 :: r)
        | _ => item t idx
        end))
  | [] => None
  end.

(** [t.repeat(reps)], with one repetition count per dimension of [t]. *)
Definition repeat (t : tensor) (reps : list nat) : option tensor :=
  if length reps =? length (shape t)
  then Some (mkT (map (fun p => fst p * snd p) (combine (shape t) reps))
         (fun idx => item t
            (map (fun p => snd p mod fst p) (combine (shape t) idx))))
  else None.

(** The index [idx] with its position 1 set to [j]. *)
Definition set1 (idx : list nat) (j : nat) : list nat :=
  match idx with
  | i0 :: _ :: r => i0 :: j :: r
  | _ => idx
  end.

(** [torch.softmax(t, 1)] *)
Definition softmax1 (t : tensor) : option tensor :=
  match shape t with
  | _ :: n :: _ =>
      Some (mkT (shape t) (fun idx =>
        (exp (item t idx) / rsum n (fun j => exp (item t (set1 idx j))))%R))
  | _ => None
  end.

(** [torch.sum(t, dim=1)] *)
Definition sum1 (t : tensor) : option tensor :=
  match shape t with
  | d0 :: n :: sh =>
      Some (mkT (d0 :: sh) (fun idx =>
        match idx with
        | i0 :: r => rsum n (fun j => item t (i0 :: j :: r))
        | [] => 0%R
        end))
  | _ => None
  end.

(** [torch.cat(ts, dim=1)] of matrices with one number of rows. *)
Fixpoint cat1_item (ts : list tensor) (i j : nat) : R :=
  match ts with
  | [] => 0%R
  | t :: ts' =>
      let w := nth 1 (shape t) 0 in
      if j <? w then item t [i; j] else cat1_item ts' i (j - w)
  end.

Definition cat1 (ts : list tensor) : option tensor :=
  match ts with
  | [] => None
  | t0 :: _ =>
      match shape t0 with
      | [rows; _] =>
          if forallb (fun t => match shape t with
                               | [r; _] => r =? rows
                               | _ => false
                               end) ts
          then
            let cols := fold_right (fun t n => nth 1 (shape t) 0 + n) 0 ts in
            Some (mkT [rows; cols]
                    (fun idx => cat1_item ts (nth 0 idx 0) (nth 1 idx 0)))
          else None
      | _ => None
      end
  end.

(** *** Library layers

    [nn.Linear]: [y = x W^T + b] on the last dimension of [x]. *)
Record Linear : Type := mkLinear { weight : tensor; bias : option tensor }.

Definition Linear_forward (L : Linear) (x : tensor) : option tensor :=
  match shape (weight L), shape x with
  | [out_f; in_f], _ :: _ =>
      if (last (shape x) 0 =? in_f)
         && match bias L with
            | Some b => shape_eqb (shape b) [out_f]
            | None => true
            end
      then Some (mkT (removelast (shape x) ++ [out_f]) (fun idx =>
             let j := last idx 0 in
             let xw := rsum in_f (fun i =>
               (item x (removelast idx ++ [i]) * item (weight L) [j; i])%R) in
             match bias L with
             | Some b => (xw + item b [j])%R
             | None => xw
             end))
      else None
  | _, _ => None
  end.

(** [nn.BatchNorm1d] on a (batch, channels) input.  In training mode the
    statistics are those of the batch, which must have more than one
    row; in evaluation mode they are the running ones. *)
Record BatchNorm1d : Type := mkBN {
  bn_weight : tensor;
  bn_bias : tensor;
  running_mean : tensor;
  running_var : tensor;
  eps : R;
  training : bool
}.

Definition BatchNorm1d_forward (m : BatchNorm1d) (x : tensor) : option tensor :=
  match shape x with
  | [n; c] =>
      if shape_eqb (shape (bn_weight m)) [c]
         && shape_eqb (shape (bn_bias m)) [c]
         && shape_eqb (shape (running_mean m)) [c]
         && shape_eqb (shape (running_var m)) [c]
         && negb (training m && (n =? 1))
      then Some (mkT [n; c] (fun idx =>
             let ch := nth 1 idx 0 in
             let mean :=
               if training m
               then (rsum n (fun b => item x [b; ch]) / INR n)%R
               else item (running_mean m) [ch] in
             let var :=
               if training m
               then (rsum n (fun b => (item x [b; ch] - mean) ^ 2) / INR n)%R
               else item (running_var m) [ch] in
             ((item x idx - mean) / sqrt (var + eps m)
              * item (bn_weight m) [ch] + item (bn_bias m) [ch])%R))
      else None
  | _ => None
  end.

(** [nn.Conv1d] with stride 1 and dilation 1 on a (batch, channels,
    length) input, zero-padded by [padding] on both sides. *)
Record Conv1d : Type := mkConv {
  conv_weight : tensor;
  conv_bias : tensor;
  padding : Z
}.

Definition Conv1d_forward (m : Conv1d) (x : tensor) : option tensor :=
  match shape (conv_weight m), shape x with
  | [c_out; c_in; k], [n; c; len] =>
      let p := Z.to_nat (padding m) in
      if (0 <=? padding m)%Z && (c =? c_in) && (1 <=? k)
         && (k <=? len + 2 * p)
         && shape_eqb (shape (conv_bias m)) [c_out]
      then Some (mkT [n; c_out; len + 2 * p - (k - 1)] (fun idx =>
             let b := nth 0 idx 0 in
             let f := nth 1 idx 0 in
             let t := nth 2 idx 0 in
             let padded (ci i : nat) : R :=
               if (p <=? i) && (i <? p + len)
               then item x [b; ci; i - p]
               else 0%R in
             (item (conv_bias m) [f]
              + rsum c_in (fun ci => rsum k (fun j =>
                  item (conv_weight m) [f; ci; j] * padded ci (t + j)%nat)))%R))
      else None
  | _, _ => None
  end.

(** [nn.AdaptiveMaxPool1d(out_len)]: output position [i] is the maximum
    over the input window from [floor(i*len/out_len)] to
    [ceil((i+1)*len/out_len)]. *)
Definition AdaptiveMaxPool1d_forward (out_len : nat) (x : tensor)
    : option tensor :=
  match shape x with
  | [n; c; len] =>
      if 1 <=? len
      then Some (mkT [n; c; out_len] (fun idx =>
             let b := nth 0 idx 0 in
             let ch := nth 1 idx 0 in
             let i := nth 2 idx 0 in
             let lo := (i * len) / out_len in
             let hi := ((i + 1) * len + out_len - 1) / out_len in
             rmax_from lo (hi - lo - 1) (fun j => item x [b; ch; j])))
      else None
  | _ => None
  end.

End Torch.

(** ** Construction of modules

    A constructor may fail on an [assert], and it draws the initial value
    of every parameter it creates.  The draws come from an arbitrary
    sequence of reals, consumed in creation order: nothing below depends
    on the values drawn. *)

Module Init.

(** The exception of a failed [assert].  [msg] is the message of
    [assert test, msg]; a bare [assert test] raises [AssertionError()],
    which has no argument: [None]. *)
Inductive exn : Type := AssertionError (msg : option String.string).

(** [str(e)]: the text that a traceback or a log shows for [e], empty
    for an exception without argument. *)
Definition str (e : exn) : String.string :=
  match e with
  | AssertionError (Some m) => m
  | AssertionError None => String.EmptyString
  end.

Record rng : Type := mkRng { draws : nat -> R; pos : nat }.

Definition M (A : Type) : Type := rng -> exn + A * rng.

Definition ret {A : Type} (a : A) : M A := fun g => inr (a, g).

Definition bindM {A B : Type} (m : M A) (f : A -> M B) : M B :=
  fun g =>
    match m g with
    | inl e => inl e
    | inr (a, g') => f a g'
    end.

(** [assert b], without a message, as both constructors write it. *)
Definition assert (b : bool) : M unit :=
  fun g => if b then inr (tt, g) else inl (AssertionError None).

(** Row-major position of [idx] in a tensor of shape [sh]. *)
Fixpoint flat (sh idx : list nat) : nat :=
  match sh, idx with
  | _ :: sh', i :: idx' => i * Torch.numel sh' + flat sh' idx'
  | _, _ => 0
  end.

(** A new parameter of shape [sh] with drawn entries. *)
Definition fresh (sh : list nat) : M Torch.tensor :=
  fun g =>
    inr (Torch.mkT sh (fun idx => draws g (pos g + flat sh idx)),
         mkRng (draws g) (pos g + Torch.numel sh)).

(** [[f(i) for i in l]] *)
Fixpoint comprehension {A B : Type} (l : list A) (f : A -> M B) : M (list B) :=
  match l with
  | [] => ret []
  | a :: l' =>
      bindM (f a) (fun b =>
      bindM (comprehension l' f) (fun bs => ret (b :: bs)))
  end.

(** [nn.Linear(in_f, out_f, bias=with_bias)] *)
Definition Linear (in_f out_f : nat) (with_bias : bool) : M Torch.Linear :=
  bindM (fresh [out_f; in_f]) (fun w =>
  if with_bias
  then bindM (fresh [out_f]) (fun b => ret (Torch.mkLinear w (Some b)))
  else ret (Torch.mkLinear w None)).

(** [nn.BatchNorm1d(c)]: unit scale, zero shift, training mode. *)
Definition BatchNorm1d (c : nat) : M Torch.BatchNorm1d :=
  ret (Torch.mkBN (Torch.full [c] 1) (Torch.zeros [c]) (Torch.zeros [c])
         (Torch.full [c] 1) (1 / 100000)%R true).

(** [nn.Conv1d(c_in, c_out, k, padding=p)] *)
Definition Conv1d (c_in c_out k : nat) (p : Z) : M Torch.Conv1d :=
  bindM (fresh [c_out; c_in; k]) (fun w =>
  bindM (fresh [c_out]) (fun b => ret (Torch.mkConv w b p))).

(** [layer.bias = nn.Parameter(torch.Tensor([v] * n))] *)
Definition with_bias (L : Torch.Linear) (n : nat) (v : R) : Torch.Linear :=
  Torch.mkLinear (Torch.weight L) (Some (Torch.full [n] v)).

End Init.

Notation "x <~ m ;; k" := (Init.bindM m (fun x => k))
  (at level 61, m at next level, right associativity).

Import Torch.

(** ** HSGLayer (HARHN.py, lines 7-18) *)

Module HSGLayer.

Record t : Type := mk { W_R : Linear; W_F : Linear }.

Definition __init__ (n_units : nat) (init_gates_closed : bool) : Init.M t :=
  w_r <~ Init.Linear n_units n_units false ;;
  w_f <~ Init.Linear n_units n_units true ;;
  let w_f :=
    if init_gates_closed then Init.with_bias w_f n_units (-2.5) else w_f in
  Init.ret (mk w_r w_f).

Definition forward (self : t) (s_l_t s_prime_tm1 : tensor) : option tensor :=
  r <- Linear_forward (W_R self) s_prime_tm1 ;;
  f <- Linear_forward (W_F self) s_l_t ;;
  a <- add r f ;;
  let g := sigmoid_t a in
  gs <- mul g s_prime_tm1 ;;
  gl <- mul (one_minus g) s_l_t ;;
  add gs gl.

End HSGLayer.

(** [layers[l](s)] for a [nn.ModuleList] of linear layers. *)
Definition call_nth (layers : list Linear) (l : nat) (s : tensor)
    : option tensor :=
  L <- nth_error layers l ;; Linear_forward L s.

(** ** RHNCell (HARHN.py, lines 21-75)

    [W_C], [R_C] and [HSG] are attributes that exist only when the cell
    was built with [couple_gates=False], respectively [use_hsg=True]. *)

Module RHNCell.

Record t : Type := mk {
  rec_depth : Z;
  in_feats : nat;
  n_units : nat;
  couple_gates : bool;
  use_HSG : bool;
  W_H : Linear;
  W_T : Linear;
  W_C : option Linear;
  R_H : list Linear;
  R_T : list Linear;
  R_C : option (list Linear);
  HSG : option HSGLayer.t
}.

Definition __init__ (in_feats n_units : nat) (rec_depth : Z)
    (couple_gates use_hsg init_gates_closed : bool) : Init.M t :=
  w_h <~ Init.Linear in_feats n_units false ;;
  w_t <~ Init.Linear in_feats n_units false ;;
  w_c <~ (if negb couple_gates
          then w <~ Init.Linear in_feats n_units false ;; Init.ret (Some w)
          else Init.ret None) ;;
  r_h <~ Init.comprehension (range rec_depth)
           (fun _ => Init.Linear n_units n_units true) ;;
  r_t <~ Init.comprehension (range rec_depth)
           (fun _ => Init.Linear n_units n_units true) ;;
  r_c <~ (if negb couple_gates
          then r <~ Init.comprehension (range rec_depth)
                      (fun _ => Init.Linear n_units n_units true) ;;
               Init.ret (Some r)
          else Init.ret None) ;;
  hsg <~ (if use_hsg
          then h <~ HSGLayer.__init__ n_units init_gates_closed ;;
               Init.ret (Some h)
          else Init.ret None) ;;
  let close := map (fun L => Init.with_bias L n_units (-2.5)) in
  let r_t := if init_gates_closed then close r_t else r_t in
  let r_c :=
    if init_gates_closed && negb couple_gates then option_map close r_c
    else r_c in
  Init.ret (mk rec_depth in_feats n_units couple_gates use_hsg
              w_h w_t w_c r_h r_t r_c hsg).

(** The body of [for l in range(self.rec_depth)], on the loop's
    variables [s] and [preds]; [c_l_t] is bound in decoupled mode only. *)
Definition layer (self : t) (x : tensor) (l : nat)
    (st : tensor * list tensor) : option (tensor * list tensor) :=
  let '(s, preds) := st in
  '(h_l_t, t_l_t, c_l_t) <-
    (if l =? 0 then
       wh <- Linear_forward (W_H self) x ;;
       rh <- call_nth (R_H self) l s ;;
       ah <- add wh rh ;;
       wt <- Linear_forward (W_T self) x ;;
       rt <- call_nth (R_T self) l s ;;
       at_ <- add wt rt ;;
       c <- (if negb (couple_gates self) then
               w_c <- W_C self ;;
               r_c <- R_C self ;;
               wc <- Linear_forward w_c x ;;
               rc <- call_nth r_c l s ;;
               ac <- add wc rc ;;
               Some (Some (sigmoid_t ac))
             else Some None) ;;
       Some (tanh_t ah, sigmoid_t at_, c)
     else
       rh <- call_nth (R_H self) l s ;;
       rt <- call_nth (R_T self) l s ;;
       c <- (if negb (couple_gates self) then
               r_c <- R_C self ;;
               rc <- call_nth r_c l s ;;
               Some (Some (sigmoid_t rc))
             else Some None) ;;
       Some (tanh_t rh, sigmoid_t rt, c)) ;;
  s <- (if negb (couple_gates self) then
          c_l_t <- c_l_t ;;
          ht <- mul h_l_t t_l_t ;;
          cs <- mul c_l_t s ;;
          add ht cs
        else
          ht <- mul h_l_t t_l_t ;;
          ts <- mul (one_minus t_l_t) s ;;
          add ht ts) ;;
  Some (s, preds ++ [s]).

Definition forward (self : t) (x s : tensor) : option (tensor * tensor) :=
  let s_prime_tm1 := s in
  '(s, preds) <- for_each (range (rec_depth self)) (s, []) (layer self x) ;;
  '(s, preds) <-
    (if use_HSG self then
       hsg <- HSG self ;;
       s <- HSGLayer.forward hsg s s_prime_tm1 ;;
       preds <- pop preds ;;
       Some (s, preds ++ [s])
     else Some (s, preds)) ;;
  preds <- stack preds ;;
  Some (s, preds).

End RHNCell.

(** ** RHN, the encoder (HARHN.py, lines 78-115)

    [cell] is the attribute [self.RHNCell]; [bn_x] and [bn_s] exist only
    when the network was built with [use_batch_norm=True]. *)

Module RHN.

Record t : Type := mk {
  rec_depth : Z;
  in_feats : nat;
  n_units : nat;
  init_gates_closed : bool;
  couple_gates : bool;
  use_HSG : bool;
  use_batch_norm : bool;
  cell : RHNCell.t;
  bn_x : option BatchNorm1d;
  bn_s : option BatchNorm1d
}.

Definition __init__ (in_feats out_feats n_units : nat) (rec_depth : Z)
    (couple_gates use_hsg init_gates_closed use_batch_norm : bool)
    : Init.M t :=
  _ <~ Init.assert (0 <? rec_depth)%Z ;;
  c <~ RHNCell.__init__ in_feats n_units rec_depth couple_gates use_hsg
         init_gates_closed ;;
  bn <~ (if use_batch_norm
         then bx <~ Init.BatchNorm1d in_feats ;;
              bs <~ Init.BatchNorm1d n_units ;;
              Init.ret (Some bx, Some bs)
         else Init.ret (None, None)) ;;
  Init.ret (mk rec_depth in_feats n_units init_gates_closed couple_gates
              use_hsg use_batch_norm c (fst bn) (snd bn)).

(** The body of [for t in range(x.shape[1])], on [s], [preds] and
    [highway_states]. *)
Definition step (self : t) (x : tensor) (t_ : nat)
    (st : tensor * list tensor * list tensor)
    : option (tensor * list tensor * list tensor) :=
  let '(s, preds, highway_states) := st in
  '(x_inp, s) <-
    (if use_batch_norm self then
       x_t <- select1 x t_ ;;
       bx <- bn_x self ;;
       x_inp <- BatchNorm1d_forward bx x_t ;;
       bs <- bn_s self ;;
       s <- BatchNorm1d_forward bs s ;;
       Some (x_inp, s)
     else
       x_inp <- select1 x t_ ;;
       Some (x_inp, s)) ;;
  '(s, all_s) <- RHNCell.forward (cell self) x_inp s ;;
  Some (s, preds ++ [s], highway_states ++ [all_s]).

Definition forward (self : t) (x : tensor) : option (tensor * tensor) :=
  batch <- size x 0 ;;
  let s := zeros [batch; n_units self] in
  steps <- size x 1 ;;
  '(s, preds, highway_states) <-
    for_each (seq 0 steps) (s, [], []) (step self x) ;;
  preds <- stack preds ;;
  preds <- permute preds [1; 0; 2] ;;
  highway_states <- stack highway_states ;;
  highway_states <- permute highway_states [2; 0; 3; 1] ;;
  let out := preds in
  Some (out, highway_states).

End RHN.

(** ** ConvBlock (HARHN.py, lines 118-137)

    The padding attribute [zp] is never applied and is left out. *)

Module ConvBlock.

(** [int(a / 2)] on integers: Python's true division, which gives the
    double nearest to [a / 2], followed by truncation toward zero.  For
    [|a| <= 2^53] the double is [a / 2] itself and the result is the
    truncated quotient below; beyond that bound the code rounds first
    (and raises OverflowError outside the range of a double), which
    only a kernel of more than [2^53] taps can reach; the statement of
    the padding formula carries that bound. *)
Definition int_half (a : Z) : Z := Z.quot a 2.

Definition _calc_padding (lin kernel stride dilation : Z) : Z :=
  int_half ((lin - 1) * stride + 1 + dilation * (kernel - 1) - lin).

Record t : Type := mk { conv : Conv1d; maxpool : nat }.

Definition __init__ (timesteps in_channels n_filters filter_size : nat)
    : Init.M t :=
  let padding1 :=
    _calc_padding (Z.of_nat timesteps) (Z.of_nat filter_size) 1 1 in
  c <~ Init.Conv1d in_channels n_filters filter_size padding1 ;;
  Init.ret (mk c timesteps).

Definition forward (self : t) (x : tensor) : option tensor :=
  x <- permute x [0; 2; 1] ;;
  x <- Conv1d_forward (conv self) x ;;
  let x := relu_t x in
  x <- AdaptiveMaxPool1d_forward (maxpool self) x ;;
  permute x [0; 2; 1].

End ConvBlock.

(** ** HARHN (HARHN.py, lines 140-191) *)

Module HARHN.

Record t : Type := mk {
  n_convs : Z;
  n_units_enc : nat;
  n_units_dec : nat;
  rec_depth : Z;
  T : nat;
  convs : list ConvBlock.t;
  conv_to_enc : Linear;
  RHNEncoder : RHN.t;
  RHNDecoder : RHNCell.t;
  T_k : list Linear;
  U_k : list Linear;
  v_k : list Linear;
  W_tilda : Linear;
  V_tilda : Linear;
  W : Linear;
  V : Linear
}.

Definition __init__ (n_conv_layers : Z) (lookback in_feats target_feats
    n_units_enc n_units_dec enc_input_size : nat) (rec_depth : Z)
    (out_feats n_filters filter_size : nat) : Init.M t :=
  _ <~ Init.assert (0 <? n_conv_layers)%Z ;;
  cs <~ Init.comprehension (range n_conv_layers) (fun i =>
          if i =? 0
          then ConvBlock.__init__ lookback in_feats n_filters filter_size
          else ConvBlock.__init__ lookback n_filters n_filters filter_size) ;;
  c2e <~ Init.Linear n_filters enc_input_size true ;;
  enc <~ RHN.__init__ enc_input_size n_units_enc n_units_enc rec_depth
           true false false false ;;
  dec <~ RHNCell.__init__ target_feats n_units_dec rec_depth
           true false false ;;
  t_k <~ Init.comprehension (range rec_depth)
           (fun _ => Init.Linear n_units_dec n_units_enc false) ;;
  u_k <~ Init.comprehension (range rec_depth)
           (fun _ => Init.Linear n_units_enc n_units_enc true) ;;
  v_k <~ Init.comprehension (range rec_depth)
           (fun _ => Init.Linear n_units_enc 1 true) ;;
  w_tilda <~ Init.Linear target_feats target_feats false ;;
  v_tilda <~ Init.Linear (Z.to_nat rec_depth * n_units_enc) target_feats true ;;
  w <~ Init.Linear n_units_dec target_feats true ;;
  v <~ Init.Linear (Z.to_nat rec_depth * n_units_enc) target_feats true ;;
  Init.ret (mk n_conv_layers n_units_enc n_units_dec rec_depth lookback
              cs c2e enc dec t_k u_k v_k w_tilda v_tilda w v).

(** Lines 179-184: the attention weights [alpha_t_k] and the context
    [d_t_k] of depth [k].  The first two applications are the ones whose
    result the source binds to [_]. *)
Definition attend (self : t) (h_t_l s_rep : tensor) (k : nat)
    : option (tensor * tensor) :=
  h_t_k <- select_last h_t_l k ;;
  _ <- call_nth (U_k self) k h_t_k ;;
  _ <- call_nth (T_k self) k s_rep ;;
  v <- nth_error (v_k self) k ;;
  ts <- call_nth (T_k self) k s_rep ;;
  uh <- call_nth (U_k self) k h_t_k ;;
  a <- add ts uh ;;
  e_t_k <- Linear_forward v (tanh_t a) ;;
  alpha_t_k <- softmax1 e_t_k ;;
  p <- mul h_t_k alpha_t_k ;;
  d_t_k <- sum1 p ;;
  Some (alpha_t_k, d_t_k).

(** The body of [for k in range(self.rec_depth)], on [d_t]. *)
Definition depth (self : t) (h_t_l s_rep : tensor) (k : nat)
    (d_t : list tensor) : option (list tensor) :=
  '(_, d_t_k) <- attend self h_t_l s_rep k ;;
  Some (d_t ++ [d_t_k]).

(** The body of [for t in range(self.T)], on [s] and [d_t]; [d_t] is
    unbound before the first iteration. *)
Definition step (self : t) (h_t_l y : tensor) (t_ : nat)
    (st : tensor * option tensor) : option (tensor * option tensor) :=
  let '(s, _) := st in
  s_rep <- unsqueeze1 s ;;
  s_rep <- repeat s_rep [1; T self; 1] ;;
  d_t <- for_each (range (rec_depth self)) [] (depth self h_t_l s_rep) ;;
  d_t <- cat1 d_t ;;
  y_t <- select1 y t_ ;;
  wy <- Linear_forward (W_tilda self) y_t ;;
  vd <- Linear_forward (V_tilda self) d_t ;;
  y_tilda_t <- add wy vd ;;
  '(s, _) <- RHNCell.forward (RHNDecoder self) y_tilda_t s ;;
  Some (s, Some d_t).

(** Lines 169-172: the convolution blocks, the projection and the
    encoder. *)
Definition encode (self : t) (x : tensor) : option (tensor * tensor) :=
  x <- for_each (range (n_convs self)) x (fun conv x =>
         c <- nth_error (convs self) conv ;; ConvBlock.forward c x) ;;
  x <- Linear_forward (conv_to_enc self) x ;;
  RHN.forward (RHNEncoder self) x.

Definition forward (self : t) (x y : tensor) : option tensor :=
  '(x, h_t_l) <- encode self x ;;
  batch <- size x 0 ;;
  let s := zeros [batch; n_units_dec self] in
  '(s, d_t) <- for_each (seq 0 (T self)) (s, None) (step self h_t_l y) ;;
  d_t <- d_t ;;
  ws <- Linear_forward (W self) s ;;
  vd <- Linear_forward (V self) d_t ;;
  add ws vd.

(** *** The forward pass with each projection applied once

    [forward] without the two statements [_ = self.U_k[k](h_t_k)] and
    [_ = self.T_k[k](s_rep)]. *)
Definition attend_once (self : t) (h_t_l s_rep : tensor) (k : nat)
    : option (tensor * tensor) :=
  h_t_k <- select_last h_t_l k ;;
  v <- nth_error (v_k self) k ;;
  ts <- call_nth (T_k self) k s_rep ;;
  uh <- call_nth (U_k self) k h_t_k ;;
  a <- add ts uh ;;
  e_t_k <- Linear_forward v (tanh_t a) ;;
  alpha_t_k <- softmax1 e_t_k ;;
  p <- mul h_t_k alpha_t_k ;;
  d_t_k <- sum1 p ;;
  Some (alpha_t_k, d_t_k).

Definition depth_once (self : t) (h_t_l s_rep : tensor) (k : nat)
    (d_t : list tensor) : option (list tensor) :=
  '(_, d_t_k) <- attend_once self h_t_l s_rep k ;;
  Some (d_t ++ [d_t_k]).

Definition step_once (self : t) (h_t_l y : tensor) (t_ : nat)
    (st : tensor * option tensor) : option (tensor * option tensor) :=
  let '(s, _) := st in
  s_rep <- unsqueeze1 s ;;
  s_rep <- repeat s_rep [1; T self; 1] ;;
  d_t <- for_each (range (rec_depth self)) [] (depth_once self h_t_l s_rep) ;;
  d_t <- cat1 d_t ;;
  y_t <- select1 y t_ ;;
  wy <- Linear_forward (W_tilda self) y_t ;;
  vd <- Linear_forward (V_tilda self) d_t ;;
  y_tilda_t <- add wy vd ;;
  '(s, _) <- RHNCell.forward (RHNDecoder self) y_tilda_t s ;;
  Some (s, Some d_t).

Definition forward_once (self : t) (x y : tensor) : option tensor :=
  '(x, h_t_l) <- encode self x ;;
  batch <- size x 0 ;;
  let s := zeros [batch; n_units_dec self] in
  '(s, d_t) <- for_each (seq 0 (T self)) (s, None) (step_once self h_t_l y) ;;
  d_t <- d_t ;;
  ws <- Linear_forward (W self) s ;;
  vd <- Linear_forward (V self) d_t ;;
  add ws vd.

(** *** The forward pass with a log of its attention weights

    [forward] with one more loop variable, [log], to which every
    [alpha_t_k] is appended as it is computed. *)
Definition depth_log (self : t) (h_t_l s_rep : tensor) (k : nat)
    (st : list tensor * list tensor) : option (list tensor * list tensor) :=
  let '(d_t, log) := st in
  '(alpha_t_k, d_t_k) <- attend self h_t_l s_rep k ;;
  Some (d_t ++ [d_t_k], log ++ [alpha_t_k]).

Definition step_log (self : t) (h_t_l y : tensor) (t_ : nat)
    (st : tensor * option tensor * list tensor)
    : option (tensor * option tensor * list tensor) :=
  let '(s, _, log) := st in
  s_rep <- unsqueeze1 s ;;
  s_rep <- repeat s_rep [1; T self; 1] ;;
  '(d_t, log) <-
    for_each (range (rec_depth self)) ([], log) (depth_log self h_t_l s_rep) ;;
  d_t <- cat1 d_t ;;
  y_t <- select1 y t_ ;;
  wy <- Linear_forward (W_tilda self) y_t ;;
  vd <- Linear_forward (V_tilda self) d_t ;;
  y_tilda_t <- add wy vd ;;
  '(s, _) <- RHNCell.forward (RHNDecoder self) y_tilda_t s ;;
  Some (s, Some d_t, log).

Definition forward_log (self : t) (x y : tensor)
    : option (tensor * list tensor) :=
  '(x, h_t_l) <- encode self x ;;
  batch <- size x 0 ;;
  let s := zeros [batch; n_units_dec self] in
  '(s, d_t, log) <-
    for_each (seq 0 (T self)) (s, None, []) (step_log self h_t_l y) ;;
  d_t <- d_t ;;
  ws <- Linear_forward (W self) s ;;
  vd <- Linear_forward (V self) d_t ;;
  y_t <- add ws vd ;;
  Some (y_t, log).

End HARHN.

(** ** The cell as the design document words it (section 4.2)

    Candidate, transform gate and carry gate of depth [d] on the running
    state [s]; at depth 0 they also read [x], deeper ones read [s] only. *)

Module Spec.

Definition candidate (c : RHNCell.t) (d : nat) (x s : tensor) : option tensor :=
  if d =? 0 then
    wx <- Linear_forward (RHNCell.W_H c) x ;;
    rs <- call_nth (RHNCell.R_H c) 0 s ;;
    a <- add wx rs ;;
    Some (tanh_t a)
  else
    rs <- call_nth (RHNCell.R_H c) d s ;;
    Some (tanh_t rs).

Definition transform_gate (c : RHNCell.t) (d : nat) (x s : tensor)
    : option tensor :=
  if d =? 0 then
    wx <- Linear_forward (RHNCell.W_T c) x ;;
    rs <- call_nth (RHNCell.R_T c) 0 s ;;
    a <- add wx rs ;;
    Some (sigmoid_t a)
  else
    rs <- call_nth (RHNCell.R_T c) d s ;;
    Some (sigmoid_t rs).

Definition carry_gate (c : RHNCell.t) (d : nat) (x s : tensor)
    : option tensor :=
  if d =? 0 then
    w_c <- RHNCell.W_C c ;;
    r_c <- RHNCell.R_C c ;;
    wx <- Linear_forward w_c x ;;
    rs <- call_nth r_c 0 s ;;
    a <- add wx rs ;;
    Some (sigmoid_t a)
  else
    r_c <- RHNCell.R_C c ;;
    rs <- call_nth r_c d s ;;
    Some (sigmoid_t rs).

(** State update: [h*t + (1-t)*s] with coupled gates, [h*t + c*s]
    otherwise. *)
Definition update (c : RHNCell.t) (d : nat) (x s : tensor) : option tensor :=
  h <- candidate c d x s ;;
  t <- transform_gate c d x s ;;
  if RHNCell.couple_gates c then
    ht <- mul h t ;;
    ts <- mul (one_minus t) s ;;
    add ht ts
  else
    cg <- carry_gate c d x s ;;
    ht <- mul h t ;;
    cs <- mul cg s ;;
    add ht cs.

(** The state that depth [d] results in, from the incoming state [s]. *)
Fixpoint state (c : RHNCell.t) (x s : tensor) (d : nat) : option tensor :=
  match d with
  | 0 => update c 0 x s
  | S d' => s' <- state c x s d' ;; update c d x s'
  end.

Fixpoint all_some {A : Type} (l : list (option A)) : option (list A) :=
  match l with
  | [] => Some []
  | o :: l' => a <- o ;; r <- all_some l' ;; Some (a :: r)
  end.

(** The states of depths [0 .. D-1], in depth order. *)
Definition states (c : RHNCell.t) (x s : tensor) : option (list tensor) :=
  all_some (map (state c x s) (range (RHNCell.rec_depth c))).

(** The cell: the final state and the per-depth sequence; with HSG the
    last recorded state is replaced by [HighwayGate(candidate, s_prev)],
    which is also the state returned. *)
Definition cell (c : RHNCell.t) (x s : tensor) : option (tensor * tensor) :=
  sts <- states c x s ;;
  match rev sts with
  | [] => None
  | final :: _ =>
      if RHNCell.use_HSG c then
        hsg <- RHNCell.HSG c ;;
        gated <- HSGLayer.forward hsg final s ;;
        seq_ <- stack (removelast sts ++ [gated]) ;;
        Some (gated, seq_)
      else
        seq_ <- stack sts ;;
        Some (final, seq_)
  end.

End Spec.

(** ** Valid configurations and the predicates that the properties use *)

(** A linear layer from [in_f] to [out_f] features. *)
Definition Linear_ok (L : Linear) (in_f out_f : nat) : bool :=
  shape_eqb (shape (weight L)) [out_f; in_f]
  && match bias L with
     | Some b => shape_eqb (shape b) [out_f]
     | None => true
     end.

Definition layers_ok (Ls : list Linear) (count in_f out_f : nat) : bool :=
  (length Ls =? count) && forallb (fun L => Linear_ok L in_f out_f) Ls.

Definition hsg_ok (h : HSGLayer.t) (n : nat) : bool :=
  Linear_ok (HSGLayer.W_R h) n n && Linear_ok (HSGLayer.W_F h) n n.

(** What [RHNCell.__init__] establishes, with a depth of at least one. *)
Definition cell_ok (c : RHNCell.t) : bool :=
  let D := Z.to_nat (RHNCell.rec_depth c) in
  let n := RHNCell.n_units c in
  let i := RHNCell.in_feats c in
  (0 <? RHNCell.rec_depth c)%Z
  && Linear_ok (RHNCell.W_H c) i n
  && Linear_ok (RHNCell.W_T c) i n
  && layers_ok (RHNCell.R_H c) D n n
  && layers_ok (RHNCell.R_T c) D n n
  && (RHNCell.couple_gates c
      || match RHNCell.W_C c, RHNCell.R_C c with
         | Some w, Some r => Linear_ok w i n && layers_ok r D n n
         | _, _ => false
         end)
  && (negb (RHNCell.use_HSG c)
      || match RHNCell.HSG c with
         | Some h => hsg_ok h n
         | None => false
         end).

Definition bn_ok (m : BatchNorm1d) (c batch : nat) : bool :=
  shape_eqb (shape (bn_weight m)) [c]
  && shape_eqb (shape (bn_bias m)) [c]
  && shape_eqb (shape (running_mean m)) [c]
  && shape_eqb (shape (running_var m)) [c]
  && negb (training m && (batch =? 1)).

(** What [RHN.__init__] establishes; batch normalisation in training
    mode needs a batch of more than one sample. *)
Definition rhn_ok (r : RHN.t) (batch : nat) : bool :=
  cell_ok (RHN.cell r)
  && (RHNCell.rec_depth (RHN.cell r) =? RHN.rec_depth r)%Z
  && (RHNCell.in_feats (RHN.cell r) =? RHN.in_feats r)
  && (RHNCell.n_units (RHN.cell r) =? RHN.n_units r)
  && Bool.eqb (RHNCell.couple_gates (RHN.cell r)) (RHN.couple_gates r)
  && Bool.eqb (RHNCell.use_HSG (RHN.cell r)) (RHN.use_HSG r)
  && (negb (RHN.use_batch_norm r)
      || match RHN.bn_x r, RHN.bn_s r with
         | Some bx, Some bs =>
             bn_ok bx (RHN.in_feats r) batch && bn_ok bs (RHN.n_units r) batch
         | _, _ => false
         end).

(** [idx] is the index of an entry of a tensor of shape [sh]. *)
Definition inb (sh idx : list nat) : Prop := Forall2 lt idx sh.

(** Every entry of [t] lies in [[-1, 1]]. *)
Definition bounded (t : tensor) : Prop :=
  forall idx, inb (shape t) idx -> (-1 <= item t idx <= 1)%R.

(** [alpha] is, for every batch element, a probability distribution over
    [n] timesteps (its dimension 1). *)
Definition distribution (n : nat) (alpha : tensor) : Prop :=
  (exists b r, shape alpha = b :: n :: r)
  /\ (forall idx, (0 <= item alpha idx)%R)
  /\ (forall b r, rsum n (fun j => item alpha (b :: j :: r)) = 1%R).

(** Every convolution block of [m] pools back to the lookback [T]. *)
Definition pools_ok (m : HARHN.t) : bool :=
  (0 <? HARHN.n_convs m)%Z
  && forallb (fun c => ConvBlock.maxpool c =? HARHN.T m) (HARHN.convs m).

(** A convolution block from [c_in] channels to [n_f] filters that
    accepts inputs of [len] timesteps and pools to [T]. *)
Definition block_ok (c : ConvBlock.t) (c_in n_f len T : nat) : bool :=
  match shape (conv_weight (ConvBlock.conv c)) with
  | [c_out; ci; k] =>
      (c_out =? n_f) && (ci =? c_in) && (1 <=? k)
      && (0 <=? padding (ConvBlock.conv c))%Z
      && (k <=? len + 2 * Z.to_nat (padding (ConvBlock.conv c)))
      && shape_eqb (shape (conv_bias (ConvBlock.conv c))) [n_f]
      && (ConvBlock.maxpool c =? T)
  | _ => false
  end.

(** A stack of blocks: the first takes [c_in] channels and [len]
    timesteps, the later ones [n_f] channels and [T] timesteps. *)
Fixpoint convs_ok (cs : list ConvBlock.t) (c_in n_f len T : nat) : bool :=
  match cs with
  | [] => true
  | c :: cs' => block_ok c c_in n_f len T && convs_ok cs' n_f n_f T T
  end.

(** What [HARHN.__init__] establishes, for inputs of [len] timesteps and
    [in_feats] features, targets of [target_feats] features and
    [n_filters] filters per block. *)
Definition harhn_ok (m : HARHN.t) (batch len in_feats target_feats
    n_filters : nat) : bool :=
  let D := Z.to_nat (HARHN.rec_depth m) in
  let ne := HARHN.n_units_enc m in
  let nd := HARHN.n_units_dec m in
  (0 <? HARHN.n_convs m)%Z
  && (length (HARHN.convs m) =? Z.to_nat (HARHN.n_convs m))
  && convs_ok (HARHN.convs m) in_feats n_filters len (HARHN.T m)
  && (1 <=? HARHN.T m)
  && Linear_ok (HARHN.conv_to_enc m) n_filters
       (RHN.in_feats (HARHN.RHNEncoder m))
  && rhn_ok (HARHN.RHNEncoder m) batch
  && (RHN.n_units (HARHN.RHNEncoder m) =? ne)
  && (RHN.rec_depth (HARHN.RHNEncoder m) =? HARHN.rec_depth m)%Z
  && cell_ok (HARHN.RHNDecoder m)
  && (RHNCell.in_feats (HARHN.RHNDecoder m) =? target_feats)
  && (RHNCell.n_units (HARHN.RHNDecoder m) =? nd)
  && layers_ok (HARHN.T_k m) D nd ne
  && layers_ok (HARHN.U_k m) D ne ne
  && layers_ok (HARHN.v_k m) D ne 1
  && Linear_ok (HARHN.W_tilda m) target_feats target_feats
  && Linear_ok (HARHN.V_tilda m) (D * ne) target_feats
  && Linear_ok (HARHN.W m) nd target_feats
  && Linear_ok (HARHN.V m) (D * ne) target_feats.

(** ** Cells that share their parameters

    The cell [c] with its HSG switch set: [Some h] is [use_hsg=True] with
    gate [h], [None] is [use_hsg=False]. *)
Definition set_HSG (c : RHNCell.t) (o : option HSGLayer.t) : RHNCell.t :=
  RHNCell.mk (RHNCell.rec_depth c) (RHNCell.in_feats c) (RHNCell.n_units c)
    (RHNCell.couple_gates c)
    (match o with Some _ => true | None => false end)
    (RHNCell.W_H c) (RHNCell.W_T c) (RHNCell.W_C c)
    (RHNCell.R_H c) (RHNCell.R_T c) (RHNCell.R_C c) o.

(** The cell [c] built with [couple_gates=True]: the same parameters,
    without the carry-gate layers. *)
Definition coupled (c : RHNCell.t) : RHNCell.t :=
  RHNCell.mk (RHNCell.rec_depth c) (RHNCell.in_feats c) (RHNCell.n_units c)
    true (RHNCell.use_HSG c)
    (RHNCell.W_H c) (RHNCell.W_T c) None
    (RHNCell.R_H c) (RHNCell.R_T c) None (RHNCell.HSG c).

(** The linear layer with the opposite weight and bias: its output is the
    opposite of the layer's, so a sigmoid gate built on it is one minus
    the gate built on the layer. *)
Definition neg_t : tensor -> tensor := map_t Ropp.

Definition neg_linear (L : Linear) : Linear :=
  mkLinear (neg_t (weight L)) (option_map neg_t (bias L)).

(** The cell [c] built with [couple_gates=False], whose carry-gate layers
    are the opposites of its transform-gate layers. *)
Definition decoupled_opposite (c : RHNCell.t) : RHNCell.t :=
  RHNCell.mk (RHNCell.rec_depth c) (RHNCell.in_feats c) (RHNCell.n_units c)
    false (RHNCell.use_HSG c)
    (RHNCell.W_H c) (RHNCell.W_T c) (Some (neg_linear (RHNCell.W_T c)))
    (RHNCell.R_H c) (RHNCell.R_T c) (Some (map neg_linear (RHNCell.R_T c)))
    (RHNCell.HSG c).

(** ** Concrete configurations *)

Module Example.

(** Linear layers with one value for every weight and one for every
    bias entry. *)
Definition dense (i o : nat) (w b : R) : Linear :=
  mkLinear (full [o; i] w) (Some (full [o] b)).

Definition dense_nobias (i o : nat) (w : R) : Linear :=
  mkLinear (full [o; i] w) None.

(** [RHNCell(in_feats=2, n_units=3, rec_depth=2)], one sample. *)
Definition cell : RHNCell.t :=
  RHNCell.mk 2 2 3 true false
    (dense_nobias 2 3 (1 / 2)) (dense_nobias 2 3 (1 / 4)) None
    [dense 3 3 (1 / 3) 0; dense 3 3 (- 1 / 2) (1 / 10)]
    [dense 3 3 1 0; dense 3 3 (1 / 5) (-2.5)]
    None None.

Definition gate : HSGLayer.t :=
  HSGLayer.mk (dense_nobias 3 3 (1 / 2)) (dense 3 3 (1 / 7) (-2.5)).

Definition x : tensor := full [1; 2] 1.
Definition s : tensor := full [1; 3] (1 / 2).

(** The encoder of the design document's example: lookback 15, depth 3,
    32 units, a batch of 4 (and 5 input features). *)
Definition cell32 : RHNCell.t :=
  RHNCell.mk 3 5 32 true false
    (dense_nobias 5 32 (1 / 8)) (dense_nobias 5 32 (1 / 16)) None
    [dense 32 32 (1 / 64) 0; dense 32 32 (1 / 32) 0; dense 32 32 (-1 / 64) 0]
    [dense 32 32 (1 / 64) 0; dense 32 32 (1 / 32) 0; dense 32 32 (-1 / 64) 0]
    None None.

Definition rhn32 : RHN.t :=
  RHN.mk 3 5 32 false true false false cell32 None None.

Definition x32 : tensor := full [4; 15; 5] 1.

(** [RHN(1, 1, n_units=1, rec_depth=1, use_batch_norm=True)] in training
    mode, all weights and biases of the cell zero, and the shift of
    [bn_s] equal to 5; two samples, one timestep, zero input. *)
Definition cell1 : RHNCell.t :=
  RHNCell.mk 1 1 1 true false
    (dense_nobias 1 1 0) (dense_nobias 1 1 0) None
    [dense 1 1 0 0] [dense 1 1 0 0] None None.

Definition bn_plain : BatchNorm1d :=
  mkBN (full [1] 1) (zeros [1]) (zeros [1]) (full [1] 1) (1 / 100000) true.

Definition bn_shift5 : BatchNorm1d :=
  mkBN (full [1] 1) (full [1] 5) (zeros [1]) (full [1] 1) (1 / 100000) true.

Definition rhn_bn : RHN.t :=
  RHN.mk 1 1 1 false true false true cell1 (Some bn_plain) (Some bn_shift5).

Definition x_bn : tensor := zeros [2; 1; 1].

End Example.

(** ** The end-to-end scenario of the design document

    A batch of 2 samples, lookback 5, 3 input features, 1 target feature,
    recurrence depth 2, 1 convolution layer (4 filters of size 5, encoder
    input size 5, 2 encoder and 2 decoder units). *)

Module Scenario.

Definition block : ConvBlock.t :=
  ConvBlock.mk
    (mkConv (full [4; 3; 5] (1 / 10)) (zeros [4])
       (ConvBlock._calc_padding 5 5 1 1))
    5.

Definition encoder_cell : RHNCell.t :=
  RHNCell.mk 2 5 2 true false
    (Example.dense_nobias 5 2 (1 / 8)) (Example.dense_nobias 5 2 (1 / 16)) None
    [Example.dense 2 2 (1 / 4) 0; Example.dense 2 2 (- 1 / 4) 0]
    [Example.dense 2 2 (1 / 2) 0; Example.dense 2 2 (1 / 3) 0]
    None None.

Definition decoder_cell : RHNCell.t :=
  RHNCell.mk 2 1 2 true false
    (Example.dense_nobias 1 2 (1 / 2)) (Example.dense_nobias 1 2 (1 / 4)) None
    [Example.dense 2 2 (1 / 4) 0; Example.dense 2 2 (- 1 / 4) 0]
    [Example.dense 2 2 (1 / 2) 0; Example.dense 2 2 (1 / 3) 0]
    None None.

Definition model : HARHN.t :=
  HARHN.mk 1 2 2 2 5
    [block]
    (Example.dense 4 5 (1 / 4) 0)
    (RHN.mk 2 5 2 false true false false encoder_cell None None)
    decoder_cell
    [Example.dense_nobias 2 2 (1 / 2); Example.dense_nobias 2 2 (1 / 3)]
    [Example.dense 2 2 (1 / 2) 0; Example.dense 2 2 (1 / 3) 0]
    [Example.dense 2 1 1 0; Example.dense 2 1 (-1) 0]
    (Example.dense_nobias 1 1 1)
    (Example.dense 4 1 (1 / 2) 0)
    (Example.dense 2 1 1 0)
    (Example.dense 4 1 (1 / 2) 0).

Definition x : tensor := full [2; 5; 3] 1.
Definition y : tensor := full [2; 5; 1] (1 / 2).

End Scenario.

(** ** Further inputs *)

Module Inputs.

(** The batch [Example.x32] followed by five more timesteps, of another
    value. *)
Definition x32_continued : tensor :=
  mkT [4; 20; 5] (fun idx => if nth 1 idx 0 <? 15 then 1%R else 2%R).

(** Per-depth encoder states and a repeated decoder state for the
    network of the scenario. *)
Definition h_t_l : tensor := full [2; 5; 2; 2] (1 / 2).
Definition s_rep : tensor := zeros [2; 5; 2].

(** A previous state for the gate of [Example]. *)
Definition s_prev : tensor := zeros [1; 3].

End Inputs.

(** ** prepare_batches (HARHN.py, lines 194-213)

    A data frame is a row count and its columns in order, each a label
    and a float series of that many entries; NaN is [None].  Labels are
    taken to be distinct ([frame_ok]): selecting a repeated label gives
    a frame rather than a series and is outside this model.  An
    exception of pandas or NumPy is the left summand; [shift] and
    [fillna(method=...)] are those of the pandas releases that accept
    the call. *)

Module Batches.

Import Stdlib.Strings.String.

Inductive exn : Type := KeyError | ValueError | IndexError.

Definition bindE {A B : Type} (m : exn + A) (f : A -> exn + B) : exn + B :=
  match m with
  | inl e => inl e
  | inr a => f a
  end.

Notation "x <-- m ;; k" := (bindE m (fun x => k))
  (at level 61, m at next level, right associativity).

(** [for a in l: st = body a st], with exceptions. *)
Fixpoint for_eachE {S A : Type} (l : list A) (st : S)
    (body : A -> S -> exn + S) : exn + S :=
  match l with
  | [] => inr st
  | a :: l' => st' <-- body a st ;; for_eachE l' st' body
  end.

(** [enumerate(l)] *)
Definition enumerate {A : Type} (l : list A) : list (nat * A) :=
  combine (seq 0 (List.length l)) l.

Definition Series : Type := list (option R).

Record DataFrame : Type := mkDF {
  nrows : nat;
  columns : list (string * Series)
}.

(** Distinct labels, and every column as long as the frame. *)
Definition frame_ok (data : DataFrame) : Prop :=
  NoDup (map fst (columns data))
  /\ Forall (fun c => List.length (snd c) = nrows data) (columns data).

(** [data[name]] *)
Fixpoint lookup (cols : list (string * Series)) (name : string)
    : exn + Series :=
  match cols with
  | [] => inl KeyError
  | (n, s) :: cols' => if String.eqb n name then inr s else lookup cols' name
  end.

Definition getitem (data : DataFrame) (name : string) : exn + Series :=
  lookup (columns data) name.

(** [s.shift(periods)]: entry [i] of the result is entry [i - periods]
    of [s], NaN where there is none. *)
Definition shift (s : Series) (periods : Z) : Series :=
  let n := List.length s in
  if (0 <=? periods)%Z
  then let k := Nat.min (Z.to_nat periods) n in
       List.repeat None k ++ firstn (n - k) s
  else let k := Nat.min (Z.to_nat (- periods)) n in
       skipn k s ++ List.repeat None k.

(** [s.fillna(method="bfill")]: NaN becomes the next valid entry. *)
Fixpoint fillna_bfill (s : Series) : Series :=
  match s with
  | [] => []
  | v :: s' =>
      let r := fillna_bfill s' in
      match v with
      | Some _ => v
      | None => hd None r
      end :: r
  end.

(** [s.fillna(method="ffill")]: NaN becomes the last valid entry. *)
Fixpoint ffill_from (prev : option R) (s : Series) : Series :=
  match s with
  | [] => []
  | v :: s' =>
      let v' := match v with
                | Some _ => v
                | None => prev
                end in
      v' :: ffill_from v' s'
  end.

Definition fillna_ffill (s : Series) : Series := ffill_from None s.

(** A NumPy float array: its shape and its entries. *)
Record ndarray : Type := mkA { dims : list nat; get : list nat -> option R }.

(** [np.zeros(shape)]: ValueError on a negative dimension. *)
Definition zeros (sh : list Z) : exn + ndarray :=
  if forallb (fun d => (0 <=? d)%Z) sh
  then inr (mkA (map Z.to_nat sh) (fun _ => Some 0%R))
  else inl ValueError.

(** [a[:, j, i] = v] for a three-dimensional [a]: [v] has one entry per
    row, or a single entry that is broadcast. *)
Definition set_column (a : ndarray) (j i : nat) (v : Series)
    : exn + ndarray :=
  match dims a with
  | [n; t; f] =>
      if (j <? t) && (i <? f)
      then
        if (List.length v =? n) || (List.length v =? 1)
        then inr (mkA (dims a) (fun idx =>
               match idx with
               | [r; j'; i'] =>
                   if (j' =? j) && (i' =? i)
                   then nth (if List.length v =? 1 then 0 else r) v None
                   else get a idx
               | _ => get a idx
               end))
        else inl ValueError
      else inl IndexError
  | _ => inl IndexError
  end.

(** The first index of the slice [[start:]] of a sequence of [n]
    entries. *)
Definition slice_start (n : nat) (start : Z) : nat :=
  if (start <? 0)%Z
  then Z.to_nat (Z.max 0 (Z.of_nat n + start))
  else Nat.min (Z.to_nat start) n.

(** [a[start:]] *)
Definition slice_from (a : ndarray) (start : Z) : exn + ndarray :=
  match dims a with
  | n :: sh =>
      let k := slice_start n start in
      inr (mkA ((n - k) :: sh) (fun idx =>
        match idx with
        | r :: rest => get a ((r + k) :: rest)
        | [] => get a []
        end))
  | [] => inl IndexError
  end.

(** The statement [a[:, j, i] = data[name].shift(timesteps - j - 1)
    .fillna(method="bfill")], the body of both loops over the
    timesteps. *)
Definition fill (data : DataFrame) (timesteps : Z) (name : string)
    (i j : nat) (a : ndarray) : exn + ndarray :=
  col <-- getitem data name ;;
  set_column a j i
    (fillna_bfill (shift col (timesteps - Z.of_nat j - 1))).

Definition prepare_batches (data : DataFrame) (timesteps : Z)
    (target : string) : exn + (ndarray * ndarray * Series) :=
  let len := Z.of_nat (nrows data) in
  x <-- zeros [len; timesteps;
               (Z.of_nat (List.length (columns data)) - 1)%Z] ;;
  y <-- zeros [len; timesteps; 1%Z] ;;
  x <-- for_eachE (enumerate (removelast (map fst (columns data)))) x
          (fun p x =>
             for_eachE (range timesteps) x
               (fill data timesteps (snd p) (fst p))) ;;
  y <-- for_eachE (range timesteps) y (fill data timesteps target 0) ;;
  let prediction_horizon := 1%Z in
  col <-- getitem data target ;;
  let target := fillna_ffill (shift col (- prediction_horizon)) in
  x <-- slice_from x timesteps ;;
  y <-- slice_from y timesteps ;;
  let target := skipn (slice_start (List.length target) timesteps) target in
  inr (x, y, target).

End Batches.

(** A frame of five rows: two feature columns and the target. *)
Module BatchesExample.

Import Stdlib.Strings.String.
Import Batches.

Definition flow : Series := [Some 1; Some 2; Some 3; Some 4; Some 5]%R.
Definition temp : Series := [Some 11; Some 12; Some 13; Some 14; Some 15]%R.
Definition chla : Series := [Some 21; Some 22; Some 23; Some 24; Some 25]%R.

Definition frame : DataFrame :=
  mkDF 5 [("flow"%string, flow); ("temp"%string, temp);
          ("chla"%string, chla)].

(** The same frame with the target in the middle. *)
Definition frame_target_inside : DataFrame :=
  mkDF 5 [("flow"%string, flow); ("chla"%string, chla);
          ("temp"%string, temp)].

End BatchesExample.

(** A frame whose first feature column has a NaN in row 3. *)
Module BatchesNaN.

Import Stdlib.Strings.String.
Import Batches.

Definition flow : Series := [Some 1; Some 2; Some 3; None; Some 5]%R.

Definition frame : DataFrame :=
  mkDF 5 [("flow"%string, flow); ("chla"%string, BatchesExample.chla)].

End BatchesNaN.

(** ** make_model (run_model.py, lines 5-94)

    A Python dictionary is the list of its items in insertion order,
    with distinct keys; the values are the Python objects that the
    function stores, a float literal being the real number it
    denotes. *)

Module RunModel.

Import Stdlib.Strings.String.
Local Open Scope string_scope.
Local Set Warnings "-register-all".

Inductive value : Type :=
| VInt (z : Z)
| VFloat (r : R)
| VStr (s : string)
| VBool (b : bool)
| VTuple (l : list value)
| VList (l : list value)
| VDict (d : list (string * value)).

Definition dict : Type := list (string * value).

(** [key in d] *)
Definition contains (d : dict) (key : string) : bool :=
  existsb (fun p => String.eqb (fst p) key) d.

(** [d.get(key)] *)
Fixpoint get (d : dict) (key : string) : option value :=
  match d with
  | [] => None
  | (k, v) :: d' => if String.eqb k key then Some v else get d' key
  end.

(** [d[key] = val]: the value of an existing key is replaced where it
    stands, a new key is appended. *)
Fixpoint setitem (d : dict) (key : string) (val : value) : dict :=
  match d with
  | [] => [(key, val)]
  | (k, v) :: d' =>
      if String.eqb k key then (k, val) :: d'
      else (k, v) :: setitem d' key val
  end.

Definition nbeats_options : dict :=
  [("backcast_length", VInt 15);
   ("forecast_length", VInt 1);
   ("stack_types", VTuple [VStr "generic"; VStr "generic"]);
   ("nb_blocks_per_stack", VInt 2);
   ("thetas_dim", VTuple [VInt 4; VInt 4]);
   ("share_weights_in_stack", VBool true);
   ("hidden_layer_units", VInt 64)].

Definition tcn_options : dict :=
  [("nb_filters", VInt 64);
   ("kernel_size", VInt 2);
   ("nb_stacks", VInt 1);
   ("dilations", VList [VInt 1; VInt 2; VInt 4; VInt 8; VInt 16; VInt 32]);
   ("padding", VStr "causal");
   ("use_skip_connections", VBool true);
   ("dropout_rate", VFloat 0)].

(** [_nn_config] as lines 9-62 build it. *)
Definition default_nn_config : dict :=
  let _nn_config := [] in
  let _nn_config :=
    setitem _nn_config "nbeats_options" (VDict nbeats_options) in
  let _nn_config :=
    setitem _nn_config "enc_config"
      (VDict [("n_h", VInt 20); ("n_s", VInt 20); ("m", VInt 20)]) in
  let _nn_config :=
    setitem _nn_config "dec_config"
      (VDict [("p", VInt 30); ("n_hde0", VInt 30); ("n_sde0", VInt 30)]) in
  let _nn_config := setitem _nn_config "tcn_options" (VDict tcn_options) in
  let _nn_config := setitem _nn_config "lr" (VFloat 0.0001) in
  let _nn_config := setitem _nn_config "optimizer" (VStr "adam") in
  let _nn_config := setitem _nn_config "loss" (VStr "mse") in
  let _nn_config := setitem _nn_config "epochs" (VInt 40) in
  let _nn_config := setitem _nn_config "min_val_loss" (VInt 9999) in
  let _nn_config := setitem _nn_config "patience" (VInt 15) in
  let _nn_config := setitem _nn_config "subsequences" (VInt 3) in
  let _nn_config :=
    setitem _nn_config "lstm_config"
      (VDict [("lstm_units", VInt 64); ("lstm_act", VStr "relu");
              ("dropout", VFloat 0.4); ("rec_dropout", VFloat 0.5)]) in
  let _nn_config :=
    setitem _nn_config "cnn_config"
      (VDict [("filters", VInt 64); ("kernel_size", VInt 2);
              ("activation", VStr "LeakyRelu"); ("max_pool_size", VInt 2)]) in
  setitem _nn_config "HARHN_config"
    (VDict [("n_conv_lyrs", VInt 3); ("enc_units", VInt 64);
            ("dec_units", VInt 64)]).

(** [_data_config] as lines 64-76 build it. *)
Definition default_data_config : dict :=
  let _data_config := [] in
  let _data_config := setitem _data_config "lookback" (VInt 15) in
  let _data_config := setitem _data_config "batch_size" (VInt 32) in
  let _data_config := setitem _data_config "val_fraction" (VFloat 0.3) in
  let _data_config := setitem _data_config "CACHEDATA" (VBool true) in
  let _data_config := setitem _data_config "ignore_nans" (VBool false) in
  let _data_config :=
    setitem _data_config "inputs"
      (VList [VStr "tmin"; VStr "tmax"; VStr "slr"; VStr "WTEMP(C)";
              VStr "FLOW_OUTcms"; VStr "SED_OUTtons"; VStr "NO3_OUTkg"]) in
  setitem _data_config "outputs" (VList [VStr "obs_chla"]).

Definition _total_intervals : value :=
  VTuple [VTuple [VInt 0; VInt 146]; VTuple [VInt 145; VInt 386];
          VTuple [VInt 385; VInt 628]; VTuple [VInt 625; VInt 821];
          VTuple [VInt 821; VInt 1110]; VTuple [VInt 1110; VInt 1447]].

(** [if key in d: d[key] = val] *)
Definition override_one (d : dict) (key : string) (val : value) : dict :=
  if contains d key then setitem d key val else d.

(** The body of [for key, val in kwargs.items()], on [_data_config] and
    [_nn_config]. *)
Definition override (item : string * value) (st : dict * dict)
    : dict * dict :=
  let '(key, val) := item in
  let '(_data_config, _nn_config) := st in
  let _data_config := override_one _data_config key val in
  let _nn_config := override_one _nn_config key val in
  (_data_config, _nn_config).

Definition make_model (kwargs : dict) : dict * dict * value :=
  let '(_data_config, _nn_config) :=
    fold_left (fun st item => override item st) kwargs
      (default_data_config, default_nn_config) in
  (_data_config, _nn_config, _total_intervals).

(** The keyword arguments of the call in the script (lines 98-104). *)
Definition script_kwargs : dict :=
  [("lstm_units", VInt 64); ("dropout", VFloat 0.4);
   ("rec_dropout", VFloat 0.3); ("lstm_act", VStr "relu");
   ("batch_size", VInt 16); ("lookback", VInt 15);
   ("lr", VFloat 0.001)].

(** A key of one of the two default dictionaries. *)
Definition known (item : string * value) : bool :=
  contains default_data_config (fst item)
  || contains default_nn_config (fst item).

End RunModel.

(** ** Result directories (utils.py, lines 93-127)

    [dateandtime_now] formats a reading of the clock,
    [maybe_create_path] creates the directory of a run.  The clock, the
    working directory and the file system are the world that the
    functions run in; the operating system is an interface of four
    calls.  The plotting functions of the module only draw and are not
    modelled. *)

Module Utils.

Import Stdlib.Strings.String.
Import Stdlib.Strings.Ascii.

(** The value of [datetime.datetime.now()]. *)
Record datetime : Type := mkDatetime {
  year : nat;
  month : nat;
  day : nat;
  hour : nat;
  minute : nat;
  second : nat;
  microsecond : nat
}.

(** The ranges that the [datetime] class keeps for the fields that the
    name shows (the day irrespective of the month). *)
Definition valid (d : datetime) : bool :=
  (1 <=? year d)
  && (1 <=? month d) && (month d <=? 12)
  && (1 <=? day d) && (day d <=? 31)
  && (hour d <=? 23) && (minute d <=? 59).

(** [str(n)] of a natural number: its decimal digits. *)
Definition str (n : nat) : string :=
  DecimalString.NilZero.string_of_uint (Nat.to_uint n).

(** [if len(s) < 2: s = '0' + s] *)
Definition zero_pad (s : string) : string :=
  if String.length s <? 2 then ("0" ++ s)%string else s.

Definition dateandtime_now (jetzt : datetime) : string :=
  let jahre := str (year jetzt) in
  let month := zero_pad (str (month jetzt)) in
  let tag := zero_pad (str (day jetzt)) in
  let datum := (jahre ++ month ++ tag)%string in
  let stunde := zero_pad (str (hour jetzt)) in
  let minute := zero_pad (str (minute jetzt)) in
  (datum ++ "_" ++ stunde ++ minute)%string.

(** [os.path.join(a, b)] on POSIX. *)
Definition join (a b : string) : string :=
  if prefix "/" b then b
  else if String.eqb a "" then b
  else if String.eqb (substring (String.length a - 1) 1 a) "/"
       then (a ++ b)%string
       else (a ++ "/" ++ b)%string.

Inductive OSError : Type :=
  FileExistsError | FileNotFoundError | OtherOSError.

(** The calls to the operating system, on a world [W]. *)
Record OS (W : Type) : Type := mkOS {
  getcwd : W -> string;
  now : W -> datetime;
  path_exists : string -> W -> bool;
  makedirs : string -> W -> OSError + W
}.

Arguments getcwd {W}.
Arguments now {W}.
Arguments path_exists {W}.
Arguments makedirs {W}.

(** What the functions rely on: a directory that [os.makedirs] has
    created exists, and the paths that existed before still do. *)
Definition os_ok {W : Type} (os : OS W) : Prop :=
  forall p w w',
    makedirs os p w = inr w' ->
    path_exists os p w' = true
    /\ forall q, path_exists os q w = true -> path_exists os q w' = true.

(** [if prefix:] of [None] or a string. *)
Definition truthy (prefix : option string) : bool :=
  match prefix with
  | Some s => negb (String.eqb s "")
  | None => false
  end.

Definition maybe_create_path {W : Type} (os : OS W)
    (prefix path : option string) (w : W) : OSError + (string * W) :=
  let save_dir :=
    match path with
    | None =>
        let save_dir := dateandtime_now (now os w) in
        let model_dir := join (getcwd os w) "results"%string in
        let model_dir :=
          match prefix with
          | Some p => if truthy prefix then join model_dir p else model_dir
          | None => model_dir
          end in
        let save_dir := join model_dir save_dir in
        save_dir
    | Some p => p
    end in
  if negb (path_exists os save_dir w)
  then match makedirs os save_dir w with
       | inl e => inl e
       | inr w' => inr (save_dir, w')
       end
  else inr (save_dir, w).

(** A file system of directories with normalised absolute paths, kept
    as the list of the directories that were created: a directory
    exists when it is listed or lies above a listed one, so that
    creating a directory creates its parents, as [os.makedirs] does.
    The empty path does not exist and cannot be created. *)
Record fs : Type := mkFs {
  fs_cwd : string;
  fs_clock : datetime;
  fs_dirs : list string
}.

(** The directory [p] lies on the path to [d]. *)
Definition above (p d : string) : bool :=
  if String.eqb p "/" then prefix "/" d else prefix (p ++ "/") d.

Definition fs_exists (p : string) (w : fs) : bool :=
  negb (String.eqb p "")
  && existsb (fun d => String.eqb p d || above p d) (fs_dirs w).

Definition list_os : OS fs :=
  mkOS fs fs_cwd fs_clock fs_exists
    (fun p w =>
       if String.eqb p "" then inl FileNotFoundError
       else if fs_exists p w then inl FileExistsError
       else inr (mkFs (fs_cwd w) (fs_clock w) (p :: fs_dirs w))).

End Utils.

Module UtilsExample.

Import Stdlib.Strings.String.
Import Utils.

(** 5 November 2026, 09:07:42. *)
Definition morning : datetime := mkDatetime 2026 11 5 9 7 42 0.

(** The same minute, a few seconds later. *)
Definition morning_later : datetime := mkDatetime 2026 11 5 9 7 58 120.

Definition world : fs :=
  mkFs "/home/user/project"%string morning ["/home/user/project"%string].

End UtilsExample.

(** * Properties *)

(** ** Failure and loops *)

Lemma bind_Some {A B : Type} (m : option A) (f : A -> option B) (r : B) :
  bind m f = Some r -> exists a, m = Some a /\ f a = Some r.
Proof.
  destruct m as [a|]; simpl; intros H; [eauto | discriminate].
Qed.

Lemma bind_ext {A B : Type} (m : option A) (f g : A -> option B) :
  (forall a, m = Some a -> f a = g a) -> bind m f = bind m g.
Proof.
  destruct m as [a|]; simpl; intros H; [apply H | ]; reflexivity.
Qed.

(** Inversion of a successful sequence of calls. *)
Ltac inv_bind H :=
  let a := fresh "v" in
  let E := fresh "E" in
  apply bind_Some in H; destruct H as (a & E & H).

Ltac inv_some H := injection H as H; try subst.

Lemma for_each_app {S A : Type} (l1 l2 : list A) (st : S) body :
  for_each (l1 ++ l2) st body
  = (st' <- for_each l1 st body ;; for_each l2 st' body).
Proof.
  revert st; induction l1 as [|a l1 IH]; intros st; simpl; [reflexivity|].
  destruct (body a st) as [st'|]; simpl; [apply IH | reflexivity].
Qed.

Lemma for_each_ext {S A : Type} (l : list A) (st : S) body1 body2 :
  (forall a s, In a l -> body1 a s = body2 a s) ->
  for_each l st body1 = for_each l st body2.
Proof.
  revert st; induction l as [|a l IH]; intros st H; simpl; [reflexivity|].
  rewrite (H a st) by (left; reflexivity).
  apply bind_ext; intros s _. apply IH.
  intros; apply H; right; assumption.
Qed.

(** The invariant rule for a loop that returns: [I pre st] holds when the
    elements [pre] have been processed and the loop variables are [st]. *)
Lemma for_each_inv {S A : Type} (I : list A -> S -> Prop) body :
  forall (l : list A) (st st' : S),
    I [] st ->
    (forall pre a suf s s',
        l = pre ++ a :: suf -> I pre s -> body a s = Some s' ->
        I (pre ++ [a]) s') ->
    for_each l st body = Some st' -> I l st'.
Proof.
  intros l st st' H0 Hstep.
  assert (G : forall suf pre s,
             l = pre ++ suf -> I pre s ->
             for_each suf s body = Some st' -> I l st').
  { induction suf as [|a suf IH]; intros pre s El Hp Hrun; simpl in Hrun.
    - inv_some Hrun. rewrite app_nil_r. assumption.
    - inv_bind Hrun.
      apply (IH (pre ++ [a]) v); [ | | assumption].
      + rewrite <- app_assoc. assumption.
      + eapply Hstep; eauto. }
  intros Hrun. apply (G l [] st); auto.
Qed.

(** The same rule for termination: a loop whose body returns under the
    invariant returns. *)
Lemma for_each_total {S A : Type} (I : list A -> S -> Prop) body :
  forall (l : list A) (st : S),
    I [] st ->
    (forall pre a suf s,
        l = pre ++ a :: suf -> I pre s ->
        exists s', body a s = Some s' /\ I (pre ++ [a]) s') ->
    exists st', for_each l st body = Some st' /\ I l st'.
Proof.
  intros l st H0 Hstep.
  assert (G : forall suf pre s,
             l = pre ++ suf -> I pre s ->
             exists st', for_each suf s body = Some st' /\ I l st').
  { induction suf as [|a suf IH]; intros pre s El Hp; simpl.
    - exists s. rewrite El, app_nil_r. auto.
    - destruct (Hstep pre a suf s El Hp) as (s' & Eb & Hs').
      rewrite Eb; simpl.
      apply (IH (pre ++ [a]) s'); [ | assumption].
      rewrite <- app_assoc. assumption. }
  apply (G l [] st); auto.
Qed.

Lemma seq_split (n : nat) (pre suf : list nat) (a : nat) :
  seq 0 n = pre ++ a :: suf -> a = length pre /\ a < n.
Proof.
  intros E.
  assert (Hn : nth (length pre) (seq 0 n) 0 = a).
  { rewrite E, app_nth2, Nat.sub_diag by lia. reflexivity. }
  assert (Hl : length pre < n).
  { apply (f_equal (@length nat)) in E.
    rewrite length_seq, length_app in E. simpl in E. lia. }
  rewrite seq_nth in Hn by assumption. simpl in Hn. split; lia.
Qed.

Lemma range_split (n : Z) (pre suf : list nat) (a : nat) :
  range n = pre ++ a :: suf -> a = length pre /\ a < Z.to_nat n.
Proof. apply seq_split. Qed.

(** ** Shapes *)

Lemma shape_eqb_eq (a b : list nat) : shape_eqb a b = true <-> a = b.
Proof.
  revert b; induction a as [|x a IH]; intros [|y b]; simpl;
    try (split; congruence).
  rewrite andb_true_iff, Nat.eqb_eq, IH. split.
  - intros [-> ->]; reflexivity.
  - intros E; injection E; auto.
Qed.

Lemma tensor_ext (a b : tensor) :
  shape a = shape b -> (forall idx, item a idx = item b idx) -> a = b.
Proof.
  destruct a as [sa fa], b as [sb fb]; simpl; intros -> H.
  f_equal. apply functional_extensionality. assumption.
Qed.

Lemma broadcast_rev_same (a : list nat) : broadcast_rev a a = Some a.
Proof.
  induction a as [|x a IH]; simpl; [reflexivity|].
  rewrite IH; simpl. rewrite Nat.eqb_refl. reflexivity.
Qed.

Lemma broadcast_same (a : list nat) : broadcast_shapes a a = Some a.
Proof.
  unfold broadcast_shapes. rewrite broadcast_rev_same; simpl.
  rewrite rev_involutive. reflexivity.
Qed.

Lemma clamp_ones_inb (sh idx : list nat) :
  inb sh idx -> clamp_ones sh idx = idx.
Proof.
  unfold inb. intros H; induction H as [|i d idx' sh' Hlt _ IH]; simpl.
  - reflexivity.
  - rewrite IH. destruct (Nat.eqb_spec d 1); [f_equal; lia | reflexivity].
Qed.

Lemma inb_length (sh idx : list nat) : inb sh idx -> length idx = length sh.
Proof. apply Forall2_length. Qed.

Lemma bidx_inb (sh idx : list nat) : inb sh idx -> bidx sh idx = idx.
Proof.
  intros H. unfold bidx. rewrite (inb_length _ _ H), Nat.sub_diag. simpl.
  apply clamp_ones_inb; assumption.
Qed.

(** A binary operation on two tensors of one shape. *)
Lemma binop_same (f : R -> R -> R) (a b : tensor) :
  shape a = shape b ->
  exists t, binop f a b = Some t /\ shape t = shape a
            /\ forall idx, inb (shape a) idx ->
                           item t idx = f (item a idx) (item b idx).
Proof.
  intros E. unfold binop. rewrite <- E, broadcast_same. simpl.
  eexists; split; [reflexivity|]. simpl. split; [reflexivity|].
  intros idx H. rewrite bidx_inb by assumption. reflexivity.
Qed.

(** ** The cell's loop and the recurrence of the design document *)

Ltac case_binds :=
  repeat match goal with
         | |- context [bind ?m _] =>
             lazymatch m with
             | bind _ _ => fail
             | (if _ then _ else _) => fail
             | _ => destruct m; simpl
             end
         end.

Lemma layer_update (c : RHNCell.t) (x : tensor) (l : nat)
    (s : tensor) (preds : list tensor) :
  RHNCell.layer c x l (s, preds)
  = (s' <- Spec.update c l x s ;; Some (s', preds ++ [s'])).
Proof.
  unfold RHNCell.layer, Spec.update, Spec.candidate, Spec.transform_gate,
    Spec.carry_gate.
  destruct (Nat.eqb_spec l 0) as [->|Hl];
    destruct (RHNCell.couple_gates c); simpl;
    case_binds; reflexivity.
Qed.

Lemma all_some_app {A : Type} (l : list (option A)) (o : option A) :
  Spec.all_some (l ++ [o])
  = (r <- Spec.all_some l ;; a <- o ;; Some (r ++ [a])).
Proof.
  induction l as [|o' l IH]; simpl.
  - destruct o; reflexivity.
  - destruct o' as [a'|]; simpl; [|reflexivity].
    rewrite IH. destruct (Spec.all_some l); simpl; [|reflexivity].
    destruct o; reflexivity.
Qed.

Lemma all_some_length {A : Type} (l : list (option A)) (r : list A) :
  Spec.all_some l = Some r -> length r = length l.
Proof.
  revert r; induction l as [|o l IH]; intros r H; simpl in H.
  - inv_some H. reflexivity.
  - inv_bind H. inv_bind H. inv_some H. simpl. f_equal. apply IH. assumption.
Qed.

(** The loop over the first [n] depths computes the states of the
    recurrence and ends in the last of them. *)
Lemma loop_states (c : RHNCell.t) (x s : tensor) (n : nat) :
  for_each (seq 0 n) (s, []) (RHNCell.layer c x)
  = match n with
    | 0 => Some (s, [])
    | S n' =>
        sts <- Spec.all_some (map (Spec.state c x s) (seq 0 n)) ;;
        final <- Spec.state c x s n' ;;
        Some (final, sts)
    end.
Proof.
  induction n as [|n IH]; [reflexivity|].
  rewrite seq_S, for_each_app, IH. simpl plus. clear IH.
  rewrite map_app. simpl map. rewrite all_some_app.
  destruct n as [|n'].
  - cbn [bind for_each seq map Spec.all_some app Spec.state].
    rewrite layer_update.
    destruct (Spec.update c 0 x s); reflexivity.
  - destruct (Spec.all_some (map (Spec.state c x s) (seq 0 (S n'))))
      as [sts|]; [|reflexivity].
    cbn [bind]. cbn [Spec.state].
    destruct (Spec.state c x s n') as [f|]; [|reflexivity].
    cbn [bind for_each]. rewrite layer_update.
    destruct (Spec.update c (S n') x f) as [s'|]; reflexivity.
Qed.

Lemma states_last (c : RHNCell.t) (x s : tensor) (n : nat) (sts : list tensor) :
  Spec.all_some (map (Spec.state c x s) (seq 0 (S n))) = Some sts ->
  exists pre final,
    sts = pre ++ [final] /\ Spec.state c x s n = Some final
    /\ length pre = n.
Proof.
  rewrite seq_S, map_app. simpl map. rewrite all_some_app. intros H.
  inv_bind H. inv_bind H. inv_some H.
  exists v, v0. repeat split; [assumption|].
  apply all_some_length in E. rewrite E, length_map, length_seq. reflexivity.
Qed.

Lemma pop_snoc {A : Type} (l : list A) (a : A) : pop (l ++ [a]) = Some l.
Proof.
  unfold pop. rewrite removelast_last. destruct l; reflexivity.
Qed.

(** [RHNCell.forward] computes what the design document describes. *)
Lemma forward_spec (c : RHNCell.t) (x s : tensor) :
  RHNCell.forward c x s = Spec.cell c x s.
Proof.
  unfold RHNCell.forward, Spec.cell, Spec.states, range.
  rewrite loop_states.
  destruct (Z.to_nat (RHNCell.rec_depth c)) as [|n] eqn:En.
  - simpl. destruct (RHNCell.use_HSG c); simpl; [|reflexivity].
    case_binds; reflexivity.
  - destruct (Spec.all_some (map (Spec.state c x s) (seq 0 (S n))))
      as [sts|] eqn:Es; [|reflexivity].
    destruct (states_last _ _ _ _ _ Es) as (pre & final & -> & Ef & _).
    rewrite Ef. cbn [bind]. rewrite rev_app_distr. cbn [rev app].
    destruct (RHNCell.use_HSG c); [|reflexivity].
    destruct (RHNCell.HSG c) as [hsg|]; [|reflexivity]. cbn [bind].
    destruct (HSGLayer.forward hsg final s) as [g|]; [|reflexivity].
    cbn [bind]. rewrite pop_snoc. cbn [bind].
    rewrite removelast_last. reflexivity.
Qed.

(** ** Real-number facts: the activations and finite sums *)

Lemma div_bound (n d : R) :
  (0 < d)%R -> (- d <= n <= d)%R -> (-1 <= n / d <= 1)%R.
Proof.
  intros Hd Hn.
  assert (E : (n / d * d = n)%R) by (field; lra).
  split; apply Rmult_le_reg_r with d; try assumption; rewrite E; lra.
Qed.

Lemma tanh_bound (v : R) : (-1 <= tanh v <= 1)%R.
Proof.
  unfold tanh, sinh, cosh.
  pose proof (exp_pos v) as Ha. pose proof (exp_pos (- v)) as Hb.
  apply div_bound; lra.
Qed.

Lemma sigmoid_bound (v : R) : (0 <= sigmoid v <= 1)%R.
Proof.
  unfold sigmoid. pose proof (exp_pos (- v)) as He.
  assert (Hi : (0 < / (1 + exp (- v)))%R) by (apply Rinv_0_lt_compat; lra).
  unfold Rdiv. rewrite Rmult_1_l. split; [lra|].
  replace 1%R with (/ 1)%R at 2 by apply Rinv_1.
  apply Rinv_le_contravar; lra.
Qed.

Lemma sigmoid_opp (v : R) : sigmoid (- v) = (1 - sigmoid v)%R.
Proof.
  unfold sigmoid. rewrite Ropp_involutive.
  pose proof (exp_pos v) as Ha. pose proof (exp_pos (- v)) as Hb.
  assert (E : (exp v * exp (- v) = 1)%R).
  { rewrite <- exp_plus, Rplus_opp_r. apply exp_0. }
  apply Rmult_eq_reg_r with ((1 + exp v) * (1 + exp (- v)))%R; [|nra].
  field_simplify; nra.
Qed.

Lemma sigmoid_0 : sigmoid 0 = (1 / 2)%R.
Proof. unfold sigmoid. rewrite Ropp_0, exp_0. lra. Qed.

Lemma tanh_0 : tanh 0 = 0%R.
Proof. unfold tanh. rewrite sinh_0. lra. Qed.

Lemma rsum_mul_opp (n : nat) (f g : nat -> R) :
  rsum n (fun i => (f i * - g i)%R) = (- rsum n (fun i => (f i * g i)%R))%R.
Proof. induction n as [|n IH]; simpl; [lra | rewrite IH; lra]. Qed.

Lemma rsum_scale (n : nat) (f : nat -> R) (k : R) :
  rsum n (fun i => (f i * k)%R) = (rsum n f * k)%R.
Proof. induction n as [|n IH]; simpl; [lra | rewrite IH; lra]. Qed.

Lemma rsum_zero (n : nat) (f : nat -> R) :
  (forall i, i < n -> f i = 0%R) -> rsum n f = 0%R.
Proof.
  induction n as [|n IH]; intros H; simpl; [reflexivity|].
  rewrite IH, (H n) by auto. lra.
Qed.

Lemma rsum_pos (n : nat) (f : nat -> R) :
  1 <= n -> (forall i, (0 < f i)%R) -> (0 < rsum n f)%R.
Proof.
  intros Hn Hf. destruct n as [|n]; [lia|]. clear Hn.
  induction n as [|n IH]; simpl in *.
  - specialize (Hf 0). lra.
  - specialize (Hf (S n)). lra.
Qed.

(** ** Shapes of the layers' results *)

Ltac use_ok H :=
  let t := fresh "t" in
  let E := fresh "E" in
  let Hs := fresh "Hs" in
  destruct H as (t & E & Hs); rewrite E; cbn [bind].

Lemma Linear_forward_ok (L : Linear) (i o : nat) (bs : list nat) (x : tensor) :
  Linear_ok L i o = true -> shape x = bs ++ [i] ->
  exists t, Linear_forward L x = Some t /\ shape t = bs ++ [o].
Proof.
  unfold Linear_ok, Linear_forward. intros H Hx.
  apply andb_true_iff in H. destruct H as [Hw Hb].
  apply shape_eqb_eq in Hw. rewrite Hw, Hx.
  rewrite last_last, removelast_last, Nat.eqb_refl, Hb.
  destruct (bs ++ [i]) as [|d sh] eqn:E.
  - destruct bs; discriminate.
  - eexists; split; reflexivity.
Qed.

Lemma call_nth_ok (Ls : list Linear) (count i o d : nat) (bs : list nat)
    (s : tensor) :
  layers_ok Ls count i o = true -> d < count -> shape s = bs ++ [i] ->
  exists t, call_nth Ls d s = Some t /\ shape t = bs ++ [o].
Proof.
  unfold layers_ok, call_nth. intros H Hd Hs.
  apply andb_true_iff in H. destruct H as [Hl Hall].
  apply Nat.eqb_eq in Hl. rewrite forallb_forall in Hall.
  destruct (nth_error Ls d) as [L|] eqn:E.
  - cbn [bind]. apply Linear_forward_ok with (i := i); [|assumption].
    apply Hall. eapply nth_error_In; eassumption.
  - apply nth_error_None in E. lia.
Qed.

Lemma cell_ok_inv (c : RHNCell.t) :
  cell_ok c = true ->
  let D := Z.to_nat (RHNCell.rec_depth c) in
  let n := RHNCell.n_units c in
  let i := RHNCell.in_feats c in
  0 < D
  /\ Linear_ok (RHNCell.W_H c) i n = true
  /\ Linear_ok (RHNCell.W_T c) i n = true
  /\ layers_ok (RHNCell.R_H c) D n n = true
  /\ layers_ok (RHNCell.R_T c) D n n = true
  /\ (RHNCell.couple_gates c = false ->
      exists w r, RHNCell.W_C c = Some w /\ RHNCell.R_C c = Some r
                  /\ Linear_ok w i n = true /\ layers_ok r D n n = true)
  /\ (RHNCell.use_HSG c = true ->
      exists h, RHNCell.HSG c = Some h /\ hsg_ok h n = true).
Proof.
  unfold cell_ok. intros H.
  repeat (apply andb_true_iff in H; destruct H as [H ?]).
  apply Z.ltb_lt in H.
  repeat split; try assumption; try lia.
  - intros Hc. rewrite Hc in *. simpl in *.
    destruct (RHNCell.W_C c) as [w|]; [|discriminate].
    destruct (RHNCell.R_C c) as [r|]; [|discriminate].
    match goal with
    | Hx : _ && _ = true |- _ => apply andb_true_iff in Hx; destruct Hx
    end.
    eauto 6.
  - intros Hh. rewrite Hh in *. simpl in *.
    destruct (RHNCell.HSG c) as [h|]; [eauto | discriminate].
Qed.

(** [h*t + (1-t)*s] and [h*t + c*s] on operands of one shape. *)
Lemma coupled_update_ok (h t s : tensor) (sh : list nat) :
  shape h = sh -> shape t = sh -> shape s = sh ->
  exists s',
    (ht <- mul h t ;; ts <- mul (one_minus t) s ;; add ht ts) = Some s'
    /\ shape s' = sh
    /\ forall idx, inb sh idx ->
         item s' idx
         = (item h idx * item t idx + (1 - item t idx) * item s idx)%R.
Proof.
  intros Hh Ht Hs. unfold mul, add.
  destruct (binop_same Rmult h t) as (ht & E1 & S1 & I1); [congruence|].
  destruct (binop_same Rmult (one_minus t) s) as (ts & E2 & S2 & I2);
    [simpl; congruence|].
  change (shape (one_minus t)) with (shape t) in S2, I2.
  destruct (binop_same Rplus ht ts) as (s' & E3 & S3 & I3); [congruence|].
  rewrite E1; cbn [bind]. rewrite E2; cbn [bind]. rewrite E3.
  exists s'. split; [reflexivity|]. split; [congruence|].
  intros idx Hi. rewrite I3, I1, I2 by congruence. reflexivity.
Qed.

Lemma decoupled_update_ok (h t cg s : tensor) (sh : list nat) :
  shape h = sh -> shape t = sh -> shape cg = sh -> shape s = sh ->
  exists s',
    (ht <- mul h t ;; cs <- mul cg s ;; add ht cs) = Some s'
    /\ shape s' = sh.
Proof.
  intros Hh Ht Hc Hs. unfold mul, add.
  destruct (binop_same Rmult h t) as (ht & E1 & S1 & _); [congruence|].
  destruct (binop_same Rmult cg s) as (cs & E2 & S2 & _); [congruence|].
  destruct (binop_same Rplus ht cs) as (s' & E3 & S3 & _); [congruence|].
  rewrite E1; cbn [bind]. rewrite E2; cbn [bind]. rewrite E3.
  exists s'. split; [reflexivity | congruence].
Qed.

(** A gate or candidate of depth [d]: [f] applied to the pre-activation
    built from the input layer [Lw] (depth 0 only) and the recurrent
    layers [Ls]. *)
Lemma preactivation_ok (f : R -> R) (Lw : Linear) (Ls : list Linear)
    (count i n d : nat) (bs : list nat) (x s : tensor) :
  Linear_ok Lw i n = true -> layers_ok Ls count n n = true -> d < count ->
  shape x = bs ++ [i] -> shape s = bs ++ [n] ->
  exists a,
    (if d =? 0 then
       wx <- Linear_forward Lw x ;;
       rs <- call_nth Ls 0 s ;;
       a <- add wx rs ;;
       Some (map_t f a)
     else
       rs <- call_nth Ls d s ;;
       Some (map_t f rs)) = Some (map_t f a)
    /\ shape a = bs ++ [n].
Proof.
  intros Hw Hl Hd Hx Hs.
  destruct (Nat.eqb_spec d 0) as [->|Hd0].
  - use_ok (Linear_forward_ok Lw i n bs x Hw Hx).
    use_ok (call_nth_ok Ls count n n 0 bs s Hl Hd Hs).
    destruct (binop_same Rplus t t0) as (a & Ea & Sa & _); [congruence|].
    unfold add. rewrite Ea; cbn [bind].
    exists a. split; [reflexivity | congruence].
  - use_ok (call_nth_ok Ls count n n d bs s Hl Hd Hs).
    exists t. split; [reflexivity | assumption].
Qed.

(** One depth of a valid cell returns a state of the incoming shape; with
    coupled gates an incoming state within [[-1, 1]] stays within it. *)
Lemma update_ok (c : RHNCell.t) (x s : tensor) (d : nat) (bs : list nat) :
  cell_ok c = true ->
  shape x = bs ++ [RHNCell.in_feats c] ->
  shape s = bs ++ [RHNCell.n_units c] ->
  d < Z.to_nat (RHNCell.rec_depth c) ->
  exists s',
    Spec.update c d x s = Some s'
    /\ shape s' = bs ++ [RHNCell.n_units c]
    /\ (RHNCell.couple_gates c = true -> bounded s -> bounded s').
Proof.
  intros Hok Hx Hs Hd.
  destruct (cell_ok_inv c Hok) as (_ & HWH & HWT & HRH & HRT & HC & _).
  unfold Spec.update, Spec.candidate, Spec.transform_gate, Spec.carry_gate.
  destruct (preactivation_ok tanh _ _ _ _ _ d bs x s HWH HRH Hd Hx Hs)
    as (ah & Eh & Sh).
  destruct (preactivation_ok sigmoid _ _ _ _ _ d bs x s HWT HRT Hd Hx Hs)
    as (at_ & Et & St).
  unfold tanh_t, sigmoid_t.
  rewrite Eh; cbn [bind]. rewrite Et; cbn [bind].
  destruct (RHNCell.couple_gates c) eqn:Ec.
  - destruct (coupled_update_ok (map_t tanh ah) (map_t sigmoid at_) s
                (bs ++ [RHNCell.n_units c]))
      as (s' & E' & S' & I'); try assumption.
    exists s'. split; [assumption|]. split; [assumption|].
    intros _ Hb idx Hi. rewrite S' in Hi. rewrite (I' idx Hi). simpl.
    pose proof (tanh_bound (item ah idx)).
    pose proof (sigmoid_bound (item at_ idx)).
    assert (-1 <= item s idx <= 1)%R by (apply Hb; rewrite Hs; assumption).
    nra.
  - destruct (HC eq_refl) as (w & r & EW & ER & HWC & HRC).
    rewrite EW, ER.
    assert (G : exists cg,
               (if d =? 0 then
                  w_c <- Some w ;; r_c <- Some r ;;
                  wx <- Linear_forward w_c x ;;
                  rs <- call_nth r_c 0 s ;;
                  a <- add wx rs ;; Some (map_t sigmoid a)
                else
                  r_c <- Some r ;; rs <- call_nth r_c d s ;;
                  Some (map_t sigmoid rs)) = Some cg
               /\ shape cg = bs ++ [RHNCell.n_units c]).
    { destruct (preactivation_ok sigmoid _ _ _ _ _ d bs x s HWC HRC Hd Hx Hs)
        as (ac & Eac & Sac).
      exists (map_t sigmoid ac). split; [|assumption].
      cbn [bind]. exact Eac. }
    destruct G as (cg & Ecg & Scg). rewrite Ecg; cbn [bind].
    destruct (decoupled_update_ok (map_t tanh ah) (map_t sigmoid at_) cg s
                (bs ++ [RHNCell.n_units c]))
      as (s' & E' & S'); try assumption.
    exists s'. split; [assumption|]. split; [assumption|]. discriminate.
Qed.

(** ** [torch.stack] and indexing *)

Lemma stack_shapes (ts : list tensor) (P : tensor) :
  stack ts = Some P ->
  exists t0, hd_error ts = Some t0
             /\ shape P = length ts :: shape t0
             /\ Forall (fun t => shape t = shape t0) ts
             /\ forall i r, item P (i :: r) = item (nth i ts t0) r.
Proof.
  unfold stack. destruct ts as [|t0 ts']; [discriminate|].
  destruct (forallb _ _) eqn:E; [|discriminate].
  intros H; inv_some H. exists t0. simpl. repeat split.
  rewrite forallb_forall in E. apply Forall_forall.
  intros t Ht. apply shape_eqb_eq. apply E. assumption.
Qed.

Lemma stack_ok (ts : list tensor) (sh : list nat) :
  ts <> [] -> Forall (fun t => shape t = sh) ts ->
  exists P, stack ts = Some P /\ shape P = length ts :: sh.
Proof.
  intros Hne Hall. unfold stack. destruct ts as [|t0 ts']; [congruence|].
  assert (E : forallb (fun t => shape_eqb (shape t) (shape t0)) (t0 :: ts')
              = true).
  { apply forallb_forall. intros t Ht. apply shape_eqb_eq.
    rewrite Forall_forall in Hall.
    rewrite (Hall t Ht), (Hall t0) by (left; reflexivity). reflexivity. }
  rewrite E. eexists; split; [reflexivity|]. simpl.
  rewrite Forall_forall in Hall. rewrite (Hall t0) by (left; reflexivity).
  reflexivity.
Qed.

Lemma tensor_eta (t : tensor) : mkT (shape t) (fun idx => item t idx) = t.
Proof. destruct t; reflexivity. Qed.

(** Entry [i] of a stack is the [i]-th stacked tensor. *)
Lemma stack_select0 (ts : list tensor) (P : tensor) (i : nat) :
  stack ts = Some P -> select0 P i = nth_error ts i.
Proof.
  intros H. destruct (stack_shapes ts P H) as (t0 & _ & Hs & Hall & Hi).
  unfold select0. rewrite Hs.
  destruct (Nat.ltb_spec i (length ts)) as [Hlt|Hge].
  - destruct (nth_error ts i) as [ti|] eqn:E;
      [|apply nth_error_None in E; lia].
    f_equal. rewrite <- (tensor_eta ti).
    rewrite Forall_forall in Hall.
    rewrite (Hall ti) by (eapply nth_error_In; eassumption).
    f_equal. apply functional_extensionality. intros idx.
    rewrite Hi. rewrite (nth_error_nth ts i t0 E). reflexivity.
  - symmetry. apply nth_error_None. assumption.
Qed.

Lemma stack_bounded (ts : list tensor) (P : tensor) :
  stack ts = Some P -> Forall bounded ts -> bounded P.
Proof.
  intros H Hb. destruct (stack_shapes ts P H) as (t0 & _ & Hs & Hall & Hi).
  intros idx Hin. rewrite Hs in Hin. inversion Hin as [|i d r sh Hlt Hr]; subst.
  rewrite Hi.
  assert (Hmem : In (nth i ts t0) ts) by (apply nth_In; assumption).
  rewrite Forall_forall in Hb, Hall.
  apply (Hb _ Hmem). rewrite (Hall _ Hmem). assumption.
Qed.

(** ** The highway-state gate *)

Lemma HSG_forward_ok (h : HSGLayer.t) (n : nat) (bs : list nat)
    (s_l s_prev : tensor) :
  hsg_ok h n = true ->
  shape s_l = bs ++ [n] -> shape s_prev = bs ++ [n] ->
  exists g,
    HSGLayer.forward h s_l s_prev = Some g
    /\ shape g = bs ++ [n]
    /\ (bounded s_l -> bounded s_prev -> bounded g).
Proof.
  unfold hsg_ok, HSGLayer.forward. intros H Hl Hp.
  apply andb_true_iff in H. destruct H as [HR HF].
  use_ok (Linear_forward_ok _ n n bs s_prev HR Hp).
  use_ok (Linear_forward_ok _ n n bs s_l HF Hl).
  unfold add, mul.
  destruct (binop_same Rplus t t0) as (a & Ea & Sa & _); [congruence|].
  rewrite Ea; cbn [bind].
  destruct (binop_same Rmult (sigmoid_t a) s_prev) as (gs & E1 & S1 & I1);
    [simpl; congruence|].
  destruct (binop_same Rmult (one_minus (sigmoid_t a)) s_l)
    as (gl & E2 & S2 & I2); [simpl; congruence|].
  change (shape (one_minus (sigmoid_t a))) with (shape a) in S2, I2.
  change (shape (sigmoid_t a)) with (shape a) in S1, I1.
  destruct (binop_same Rplus gs gl) as (g & E3 & S3 & I3); [congruence|].
  rewrite E1; cbn [bind]. rewrite E2; cbn [bind]. rewrite E3.
  exists g. split; [reflexivity|]. split; [congruence|].
  intros Bl Bp idx Hi.
  assert (Ha : inb (shape a) idx) by (rewrite S3, S1 in Hi; assumption).
  rewrite I3, I1, I2 by congruence. simpl.
  pose proof (sigmoid_bound (item a idx)).
  assert (-1 <= item s_l idx <= 1)%R by (apply Bl; congruence).
  assert (-1 <= item s_prev idx <= 1)%R by (apply Bp; congruence).
  nra.
Qed.

(** ** A valid cell returns *)

Lemma state_ok (c : RHNCell.t) (x s : tensor) (bs : list nat) (d : nat) :
  cell_ok c = true ->
  shape x = bs ++ [RHNCell.in_feats c] ->
  shape s = bs ++ [RHNCell.n_units c] ->
  d < Z.to_nat (RHNCell.rec_depth c) ->
  exists sd,
    Spec.state c x s d = Some sd
    /\ shape sd = bs ++ [RHNCell.n_units c]
    /\ (RHNCell.couple_gates c = true -> bounded s -> bounded sd).
Proof.
  intros Hok Hx Hs. induction d as [|d IH]; intros Hd; simpl.
  - apply update_ok; assumption.
  - destruct IH as (sd & E & Ssd & Bsd); [lia|]. rewrite E; cbn [bind].
    destruct (update_ok c x sd (S d) bs Hok Hx Ssd Hd) as (s' & E' & S' & B').
    exists s'. split; [assumption|]. split; [assumption|].
    intros Hc Hb. apply B'; [assumption|]. apply Bsd; assumption.
Qed.

Lemma all_some_map_ok {A B : Type} (f : A -> option B) (P : B -> Prop)
    (l : list A) :
  (forall a, In a l -> exists b, f a = Some b /\ P b) ->
  exists r, Spec.all_some (map f l) = Some r /\ Forall P r.
Proof.
  induction l as [|a l IH]; intros H; simpl.
  - exists []. split; [reflexivity | constructor].
  - destruct (H a) as (b & Eb & Pb); [left; reflexivity|].
    destruct IH as (r & Er & Pr); [intros; apply H; right; assumption|].
    rewrite Eb, Er. exists (b :: r). split; [reflexivity|].
    constructor; assumption.
Qed.

Lemma Forall_app_last {A : Type} (P : A -> Prop) (l : list A) (a : A) :
  Forall P (l ++ [a]) -> Forall P l /\ P a.
Proof.
  intros H. apply Forall_app in H. destruct H as [Hl Ha].
  inversion Ha; auto.
Qed.

Lemma cell_forward_ok (c : RHNCell.t) (x s : tensor) (bs : list nat) :
  cell_ok c = true ->
  shape x = bs ++ [RHNCell.in_feats c] ->
  shape s = bs ++ [RHNCell.n_units c] ->
  exists s' P,
    RHNCell.forward c x s = Some (s', P)
    /\ shape s' = bs ++ [RHNCell.n_units c]
    /\ shape P = Z.to_nat (RHNCell.rec_depth c) :: bs ++ [RHNCell.n_units c]
    /\ (RHNCell.couple_gates c = true -> bounded s ->
        bounded s' /\ bounded P).
Proof.
  intros Hok Hx Hs. rewrite forward_spec. unfold Spec.cell, Spec.states, range.
  destruct (cell_ok_inv c Hok) as (HD & _ & _ & _ & _ & _ & HH).
  cbv zeta in HD, HH.
  set (sh := bs ++ [RHNCell.n_units c]) in *.
  set (good := fun t : tensor =>
         shape t = sh
         /\ (RHNCell.couple_gates c = true -> bounded s -> bounded t)).
  destruct (all_some_map_ok (Spec.state c x s) good
              (seq 0 (Z.to_nat (RHNCell.rec_depth c)))) as (sts & Es & Hgood).
  { intros d Hd. apply in_seq in Hd.
    destruct (state_ok c x s bs d Hok Hx Hs) as (sd & E & Ssd & Bsd); [lia|].
    exists sd. split; [assumption | split; assumption]. }
  rewrite Es; cbn [bind].
  destruct (Z.to_nat (RHNCell.rec_depth c)) as [|n] eqn:En; [lia|].
  destruct (states_last c x s n sts Es) as (pre & final & -> & _ & Hlen).
  rewrite rev_app_distr. cbn [rev app].
  apply Forall_app_last in Hgood. destruct Hgood as [Hpre [Sf Bf]].
  assert (Hshapes : Forall (fun t => shape t = sh) pre).
  { eapply Forall_impl; [|exact Hpre]. intros t [Ht _]; exact Ht. }
  destruct (RHNCell.use_HSG c) eqn:Eh.
  - destruct (HH eq_refl) as (h & EH & Hh). rewrite EH; cbn [bind].
    destruct (HSG_forward_ok h _ bs final s Hh Sf Hs) as (g & Eg & Sg & Bg).
    rewrite Eg; cbn [bind]. rewrite removelast_last.
    destruct (stack_ok (pre ++ [g]) sh) as (P & EP & SP).
    { destruct pre; discriminate. }
    { apply Forall_app; split; [assumption | constructor; auto]. }
    rewrite EP; cbn [bind]. exists g, P. split; [reflexivity|].
    split; [assumption|]. split.
    { rewrite SP, length_app, Hlen. simpl. f_equal. lia. }
    intros Hc Hb. split; [auto|].
    apply (stack_bounded _ _ EP). apply Forall_app; split.
    + eapply Forall_impl; [|exact Hpre]. intros t [_ Ht]; auto.
    + constructor; auto.
  - destruct (stack_ok (pre ++ [final]) sh) as (P & EP & SP).
    { destruct pre; discriminate. }
    { apply Forall_app; split; [assumption | constructor; auto]. }
    rewrite EP; cbn [bind]. exists final, P. split; [reflexivity|].
    split; [assumption|]. split.
    { rewrite SP, length_app, Hlen. simpl. f_equal. lia. }
    intros Hc Hb. split; [auto|].
    apply (stack_bounded _ _ EP). apply Forall_app; split.
    + eapply Forall_impl; [|exact Hpre]. intros t [_ Ht]; auto.
    + constructor; auto.
Qed.

(** ** Returned state and per-depth sequence *)

Lemma cell_returns (c : RHNCell.t) (x s s' P : tensor) :
  Spec.cell c x s = Some (s', P) ->
  exists pre final,
    Spec.states c x s = Some (pre ++ [final])
    /\ S (length pre) = Z.to_nat (RHNCell.rec_depth c)
    /\ stack (pre ++ [s']) = Some P
    /\ (if RHNCell.use_HSG c
        then exists h, RHNCell.HSG c = Some h
                       /\ HSGLayer.forward h final s = Some s'
        else s' = final).
Proof.
  unfold Spec.cell. intros H. inv_bind H.
  assert (Hlen : length v = Z.to_nat (RHNCell.rec_depth c)).
  { unfold Spec.states, range in E. apply all_some_length in E.
    rewrite E, length_map, length_seq. reflexivity. }
  destruct (rev v) as [|final rpre] eqn:Er; [discriminate|].
  assert (Ev : v = rev rpre ++ [final]).
  { rewrite <- (rev_involutive v), Er. reflexivity. }
  subst v. exists (rev rpre), final.
  split; [assumption|]. split.
  { rewrite <- Hlen, length_app. simpl. lia. }
  destruct (RHNCell.use_HSG c).
  - inv_bind H. inv_bind H. inv_bind H. inv_some H.
    rewrite removelast_last in E2. split; [assumption|]. eauto.
  - inv_bind H. inv_some H. split; [assumption | reflexivity].
Qed.

Lemma nth_error_snoc {A : Type} (l : list A) (a : A) :
  nth_error (l ++ [a]) (length l) = Some a.
Proof.
  rewrite nth_error_app2, Nat.sub_diag by lia. reflexivity.
Qed.

Lemma forward_last_entry (c : RHNCell.t) (x s s' P : tensor) :
  RHNCell.forward c x s = Some (s', P) ->
  (0 < RHNCell.rec_depth c)%Z
  /\ shape P = Z.to_nat (RHNCell.rec_depth c) :: shape s'
  /\ select0 P (Z.to_nat (RHNCell.rec_depth c) - 1) = Some s'.
Proof.
  rewrite forward_spec. intros H.
  destruct (cell_returns c x s s' P H) as (pre & final & _ & HD & EP & _).
  split; [lia|].
  destruct (stack_shapes _ _ EP) as (t0 & _ & SP & Hall & _).
  apply Forall_app_last in Hall. destruct Hall as [_ Hs'].
  split.
  - rewrite SP, Hs', length_app. simpl. f_equal. lia.
  - rewrite (stack_select0 _ _ _ EP).
    replace (Z.to_nat (RHNCell.rec_depth c) - 1) with (length pre) by lia.
    apply nth_error_snoc.
Qed.

(** C9.  Whatever the gate mode and the HSG switch, when the cell returns
    a state and a per-depth sequence, the sequence has exactly
    [rec_depth] entries, each of the shape of the returned state, and its
    last entry is the returned state; and a valid cell returns them on
    every input and state of its feature widths. *)
Theorem RHNCell_forward_last_entry (c : RHNCell.t) (x s : tensor) :
  (forall s' P,
      RHNCell.forward c x s = Some (s', P) ->
      (0 < RHNCell.rec_depth c)%Z
      /\ shape P = Z.to_nat (RHNCell.rec_depth c) :: shape s'
      /\ select0 P (Z.to_nat (RHNCell.rec_depth c) - 1) = Some s')
  /\ (forall bs,
        cell_ok c = true ->
        shape x = bs ++ [RHNCell.in_feats c] ->
        shape s = bs ++ [RHNCell.n_units c] ->
        exists s' P,
          RHNCell.forward c x s = Some (s', P)
          /\ shape P = Z.to_nat (RHNCell.rec_depth c) :: shape s'
          /\ select0 P (Z.to_nat (RHNCell.rec_depth c) - 1) = Some s').
Proof.
  split.
  - intros s' P. apply forward_last_entry.
  - intros bs Hok Hx Hs.
    destruct (cell_forward_ok c x s bs Hok Hx Hs) as (s' & P & E & _).
    exists s', P. split; [exact E|].
    apply (forward_last_entry c x s s' P E).
Qed.

(** C2.  [RHNCell.forward] is the computation of section 4.2: at depth 0
    the candidate and the gates read [x] and [s], deeper ones read the
    running state only; the state is updated by [h*t + (1-t)*s] (coupled)
    or [h*t + c*s] (decoupled); the states are recorded in depth order. *)
Theorem RHNCell_forward_refines_spec (c : RHNCell.t) (x s : tensor) :
  RHNCell.forward c x s = Spec.cell c x s.
Proof. apply forward_spec. Qed.

(** ** The HSG switch *)

Lemma state_set_HSG (c : RHNCell.t) (o : option HSGLayer.t) (x s : tensor)
    (d : nat) :
  Spec.state (set_HSG c o) x s d = Spec.state c x s d.
Proof.
  induction d as [|d IH]; simpl; [reflexivity|]. rewrite IH. reflexivity.
Qed.

Lemma states_set_HSG (c : RHNCell.t) (o : option HSGLayer.t) (x s : tensor) :
  Spec.states (set_HSG c o) x s = Spec.states c x s.
Proof.
  unfold Spec.states. f_equal. apply map_ext. intros d.
  apply state_set_HSG.
Qed.

Lemma HSG_last_entry (c : RHNCell.t) (h : HSGLayer.t)
    (x s s_n P_n s_h P_h : tensor) :
  RHNCell.forward (set_HSG c None) x s = Some (s_n, P_n) ->
  RHNCell.forward (set_HSG c (Some h)) x s = Some (s_h, P_h) ->
  (forall d, d < Z.to_nat (RHNCell.rec_depth c) - 1 ->
             select0 P_h d = select0 P_n d)
  /\ HSGLayer.forward h s_n s = Some s_h
  /\ select0 P_h (Z.to_nat (RHNCell.rec_depth c) - 1) = Some s_h.
Proof.
  rewrite !forward_spec. intros Hn Hh.
  destruct (cell_returns _ _ _ _ _ Hn) as (pre & final & En & HD & EPn & Hfn).
  destruct (cell_returns _ _ _ _ _ Hh) as (pre' & final' & Eh & _ & EPh & Hfh).
  rewrite states_set_HSG in En, Eh. rewrite En in Eh. inv_some Eh.
  apply app_inj_tail in Eh. destruct Eh as [<- <-].
  simpl in Hfn, Hfh, HD. subst s_n.
  destruct Hfh as (h' & Eh' & Hg). inv_some Eh'.
  assert (ED : Z.to_nat (RHNCell.rec_depth c) - 1 = length pre) by lia.
  split; [|split].
  - intros d Hd.
    rewrite (stack_select0 _ _ _ EPn), (stack_select0 _ _ _ EPh).
    rewrite !nth_error_app1 by lia. reflexivity.
  - assumption.
  - rewrite (stack_select0 _ _ _ EPh), ED. apply nth_error_snoc.
Qed.

(** C4.  With the same parameters, input and incoming state, the run with
    HSG differs from the run without it in the last entry only: entries
    [0 .. D-2] of the two per-depth sequences are equal, and the last
    entry of the HSG run, which is also its returned state, is the gate
    applied to the final state of the other run and the incoming state.
    Both runs return when the cell with the gate is valid and the input
    and the state have its feature widths. *)
Theorem HSG_changes_last_entry_only (c : RHNCell.t) (h : HSGLayer.t)
    (x s : tensor) :
  let D := Z.to_nat (RHNCell.rec_depth c) in
  (forall s_n P_n s_h P_h,
      RHNCell.forward (set_HSG c None) x s = Some (s_n, P_n) ->
      RHNCell.forward (set_HSG c (Some h)) x s = Some (s_h, P_h) ->
      (forall d, d < D - 1 -> select0 P_h d = select0 P_n d)
      /\ HSGLayer.forward h s_n s = Some s_h
      /\ select0 P_h (D - 1) = Some s_h)
  /\ (forall bs,
        cell_ok (set_HSG c (Some h)) = true ->
        shape x = bs ++ [RHNCell.in_feats c] ->
        shape s = bs ++ [RHNCell.n_units c] ->
        exists s_n P_n s_h P_h,
          RHNCell.forward (set_HSG c None) x s = Some (s_n, P_n)
          /\ RHNCell.forward (set_HSG c (Some h)) x s = Some (s_h, P_h)
          /\ (forall d, d < D - 1 -> select0 P_h d = select0 P_n d)
          /\ HSGLayer.forward h s_n s = Some s_h
          /\ select0 P_h (D - 1) = Some s_h).
Proof.
  intros D. split.
  - intros s_n P_n s_h P_h. apply HSG_last_entry.
  - intros bs Hok Hx Hs.
    assert (Hok' : cell_ok (set_HSG c None) = true).
    { unfold cell_ok in *. simpl in *.
      apply andb_true_iff in Hok. destruct Hok as [Hok _].
      rewrite Hok. reflexivity. }
    destruct (cell_forward_ok (set_HSG c (Some h)) x s bs Hok Hx Hs)
      as (s_h & P_h & Eh & _).
    destruct (cell_forward_ok (set_HSG c None) x s bs Hok' Hx Hs)
      as (s_n & P_n & En & _).
    exists s_n, P_n, s_h, P_h. split; [exact En|]. split; [exact Eh|].
    apply (HSG_last_entry c h x s s_n P_n s_h P_h En Eh).
Qed.

(** ** Coupled and decoupled gates *)

Lemma update_coupled (c : RHNCell.t) (d : nat) (x s : tensor) :
  RHNCell.couple_gates c = false ->
  Spec.carry_gate c d x s
  = option_map one_minus (Spec.transform_gate c d x s) ->
  Spec.update c d x s = Spec.update (coupled c) d x s.
Proof.
  intros Hc Hg. unfold Spec.update. rewrite Hc, Hg.
  change (Spec.candidate (coupled c) d x s) with (Spec.candidate c d x s).
  change (Spec.transform_gate (coupled c) d x s)
    with (Spec.transform_gate c d x s).
  destruct (Spec.candidate c d x s) as [h|]; [|reflexivity].
  destruct (Spec.transform_gate c d x s) as [t|]; reflexivity.
Qed.

Lemma state_coupled (c : RHNCell.t) (x s : tensor) (D : nat) :
  RHNCell.couple_gates c = false ->
  (forall d s0, d < D ->
     Spec.carry_gate c d x s0
     = option_map one_minus (Spec.transform_gate c d x s0)) ->
  forall d, d < D -> Spec.state c x s d = Spec.state (coupled c) x s d.
Proof.
  intros Hc Hg. induction d as [|d IH]; intros Hd; simpl.
  - apply update_coupled; auto.
  - rewrite <- IH by lia. apply bind_ext. intros s0 _.
    apply update_coupled; auto.
Qed.

(** C3.  A decoupled cell whose carry gate equals one minus its transform
    gate at every depth returns what the coupled cell with the same
    parameters returns: the same state and the same per-depth sequence,
    or a failure where that one fails. *)
Theorem decoupled_equals_coupled (c : RHNCell.t) (x s : tensor) :
  RHNCell.couple_gates c = false ->
  (forall d s0, d < Z.to_nat (RHNCell.rec_depth c) ->
     Spec.carry_gate c d x s0
     = option_map one_minus (Spec.transform_gate c d x s0)) ->
  RHNCell.forward c x s = RHNCell.forward (coupled c) x s.
Proof.
  intros Hc Hg. rewrite !forward_spec. unfold Spec.cell.
  assert (E : Spec.states c x s = Spec.states (coupled c) x s).
  { unfold Spec.states, range. f_equal. apply map_ext_in.
    intros d Hd. apply in_seq in Hd.
    apply (state_coupled c x s _ Hc Hg). simpl in Hd. lia. }
  rewrite E. reflexivity.
Qed.

(** *** Carry-gate layers opposite to the transform-gate layers *)

Lemma Linear_forward_neg (L : Linear) (x : tensor) :
  Linear_forward (neg_linear L) x = option_map neg_t (Linear_forward L x).
Proof.
  unfold Linear_forward, neg_linear. simpl.
  destruct (shape (weight L)) as [|o [|i [|? ?]]]; try reflexivity.
  destruct (shape x) as [|d0 sh]; [reflexivity|].
  destruct (bias L) as [b|]; simpl;
    match goal with
    | |- (if ?g then _ else _) = _ => destruct g; [|reflexivity]
    end;
    simpl; f_equal; apply tensor_ext; try reflexivity; intros idx; simpl;
    rewrite rsum_mul_opp; lra.
Qed.

Lemma call_nth_neg (Ls : list Linear) (d : nat) (s : tensor) :
  call_nth (map neg_linear Ls) d s = option_map neg_t (call_nth Ls d s).
Proof.
  unfold call_nth. rewrite nth_error_map.
  destruct (nth_error Ls d) as [L|]; simpl; [|reflexivity].
  apply Linear_forward_neg.
Qed.

Lemma add_neg (a b : tensor) :
  add (neg_t a) (neg_t b) = option_map neg_t (add a b).
Proof.
  unfold add, binop. simpl.
  destruct (broadcast_shapes (shape a) (shape b)) as [sh|]; simpl;
    [|reflexivity].
  f_equal. apply tensor_ext; [reflexivity|]. intros idx; simpl. lra.
Qed.

Lemma sigmoid_neg (a : tensor) :
  sigmoid_t (neg_t a) = one_minus (sigmoid_t a).
Proof.
  apply tensor_ext; [reflexivity|]. intros idx; simpl. apply sigmoid_opp.
Qed.

(** With opposite carry-gate layers the carry gate is one minus the
    transform gate, at every depth and on every state. *)
Lemma opposite_carry_gate (c : RHNCell.t) (d : nat) (x s : tensor) :
  Spec.carry_gate (decoupled_opposite c) d x s
  = option_map one_minus (Spec.transform_gate (decoupled_opposite c) d x s).
Proof.
  unfold Spec.carry_gate, Spec.transform_gate. simpl.
  destruct (d =? 0).
  - rewrite Linear_forward_neg, call_nth_neg.
    destruct (Linear_forward (RHNCell.W_T c) x) as [wx|]; [|reflexivity].
    destruct (call_nth (RHNCell.R_T c) 0 s) as [rs|]; [|reflexivity].
    simpl. rewrite add_neg.
    destruct (add wx rs) as [a|]; [|reflexivity]. simpl.
    rewrite sigmoid_neg. reflexivity.
  - rewrite call_nth_neg.
    destruct (call_nth (RHNCell.R_T c) d s) as [rs|]; [|reflexivity].
    simpl. rewrite sigmoid_neg. reflexivity.
Qed.

(** ** The encoder returns *)

Lemma select1_ok (x : tensor) (b n f t_ : nat) :
  shape x = [b; n; f] -> t_ < n ->
  exists x_t, select1 x t_ = Some x_t /\ shape x_t = [b; f].
Proof.
  intros Hx Ht. unfold select1. rewrite Hx.
  destruct (Nat.ltb_spec t_ n); [|lia].
  eexists; split; reflexivity.
Qed.

Lemma BatchNorm1d_forward_ok (m : BatchNorm1d) (c b : nat) (x : tensor) :
  bn_ok m c b = true -> shape x = [b; c] ->
  exists y, BatchNorm1d_forward m x = Some y /\ shape y = [b; c].
Proof.
  unfold bn_ok, BatchNorm1d_forward. intros H Hx. rewrite Hx, H.
  eexists; split; reflexivity.
Qed.

Lemma permute3_ok (t : tensor) (a b c : nat) :
  shape t = [a; b; c] ->
  exists t', permute t [1; 0; 2] = Some t'
             /\ shape t' = [b; a; c]
             /\ (bounded t -> bounded t').
Proof.
  intros Ht. unfold permute. rewrite Ht. simpl.
  eexists; split; [reflexivity|]. split; [reflexivity|].
  intros Hb idx Hi. simpl in *.
  inversion Hi as [|i0 ? r0 ? H0 Hr0]; subst.
  inversion Hr0 as [|i1 ? r1 ? H1 Hr1]; subst.
  inversion Hr1 as [|i2 ? r2 ? H2 Hr2]; subst.
  inversion Hr2; subst. simpl.
  apply Hb. rewrite Ht. repeat constructor; assumption.
Qed.

Lemma permute4_ok (t : tensor) (a b c d : nat) :
  shape t = [a; b; c; d] ->
  exists t', permute t [2; 0; 3; 1] = Some t'
             /\ shape t' = [c; a; d; b]
             /\ (bounded t -> bounded t').
Proof.
  intros Ht. unfold permute. rewrite Ht. simpl.
  eexists; split; [reflexivity|]. split; [reflexivity|].
  intros Hb idx Hi. simpl in *.
  inversion Hi as [|i0 ? r0 ? H0 Hr0]; subst.
  inversion Hr0 as [|i1 ? r1 ? H1 Hr1]; subst.
  inversion Hr1 as [|i2 ? r2 ? H2 Hr2]; subst.
  inversion Hr2 as [|i3 ? r3 ? H3 Hr3]; subst.
  inversion Hr3; subst. simpl.
  apply Hb. rewrite Ht. repeat constructor; assumption.
Qed.

Lemma zeros_bounded (sh : list nat) : bounded (zeros sh).
Proof. intros idx _. simpl. lra. Qed.

Lemma rhn_ok_inv (r : RHN.t) (batch : nat) :
  rhn_ok r batch = true ->
  cell_ok (RHN.cell r) = true
  /\ RHNCell.rec_depth (RHN.cell r) = RHN.rec_depth r
  /\ RHNCell.in_feats (RHN.cell r) = RHN.in_feats r
  /\ RHNCell.n_units (RHN.cell r) = RHN.n_units r
  /\ RHNCell.couple_gates (RHN.cell r) = RHN.couple_gates r
  /\ (RHN.use_batch_norm r = true ->
      exists bx bs, RHN.bn_x r = Some bx /\ RHN.bn_s r = Some bs
                    /\ bn_ok bx (RHN.in_feats r) batch = true
                    /\ bn_ok bs (RHN.n_units r) batch = true).
Proof.
  unfold rhn_ok. intros H.
  do 6 (apply andb_true_iff in H; destruct H as [H ?]).
  repeat match goal with
         | Hx : (_ =? _)%Z = true |- _ => apply Z.eqb_eq in Hx
         | Hx : (_ =? _) = true |- _ => apply Nat.eqb_eq in Hx
         | Hx : Bool.eqb _ _ = true |- _ => apply eqb_prop in Hx
         end.
  repeat split; try assumption.
  intros Hbn. rewrite Hbn in *. simpl in *.
  destruct (RHN.bn_x r) as [bx|]; [|discriminate].
  destruct (RHN.bn_s r) as [bs|]; [|discriminate].
  match goal with
  | Hx : _ && _ = true |- _ => apply andb_true_iff in Hx; destruct Hx
  end.
  eauto 6.
Qed.

(** The encoder of a valid configuration returns; its first output has
    shape (batch, T, units) and its second (batch, T, units, depth).
    With coupled gates and without batch normalisation every entry of
    both lies in [[-1, 1]]. *)
Lemma rhn_forward_ok (r : RHN.t) (x : tensor) (batch steps : nat) :
  rhn_ok r batch = true ->
  shape x = [batch; steps; RHN.in_feats r] ->
  1 <= steps ->
  exists out hs,
    RHN.forward r x = Some (out, hs)
    /\ shape out = [batch; steps; RHN.n_units r]
    /\ shape hs = [batch; steps; RHN.n_units r; Z.to_nat (RHN.rec_depth r)]
    /\ (RHN.couple_gates r = true -> RHN.use_batch_norm r = false ->
        bounded out /\ bounded hs).
Proof.
  intros Hok Hx Hsteps.
  destruct (rhn_ok_inv r batch Hok) as (Hcell & ED & EI & EU & EC & Hbn).
  unfold RHN.forward, size. rewrite Hx. cbn [nth_error bind].
  set (n := RHN.n_units r) in *. set (D := Z.to_nat (RHN.rec_depth r)).
  set (safe := RHN.couple_gates r = true /\ RHN.use_batch_norm r = false).
  set (I := fun (pre : list nat) (st : tensor * list tensor * list tensor) =>
         let '(s, preds, hs) := st in
         shape s = [batch; n]
         /\ length preds = length pre
         /\ length hs = length pre
         /\ Forall (fun t => shape t = [batch; n]) preds
         /\ Forall (fun t => shape t = [D; batch; n]) hs
         /\ (safe -> bounded s /\ Forall bounded preds /\ Forall bounded hs)).
  destruct (for_each_total I (RHN.step r x) (seq 0 steps)
              (zeros [batch; n], [], [])) as (st & Erun & Hst).
  { unfold I. do 3 (split; [reflexivity|]). do 2 (split; [constructor|]).
    intros _. split; [apply zeros_bounded|]. split; constructor. }
  { intros pre t_ suf [[s preds] hs] Esplit HI.
    apply seq_split in Esplit. destruct Esplit as [-> Hlt].
    unfold I in HI. destruct HI as (Ss & Lp & Lh & Fp & Fh & Hb).
    destruct (select1_ok x _ _ _ (length pre) Hx Hlt) as (x_t & Ext & Sxt).
    assert (G : exists x_inp s0,
               (if RHN.use_batch_norm r then
                  x_t <- select1 x (length pre) ;;
                  bx <- RHN.bn_x r ;;
                  x_inp <- BatchNorm1d_forward bx x_t ;;
                  bs <- RHN.bn_s r ;;
                  s <- BatchNorm1d_forward bs s ;;
                  Some (x_inp, s)
                else
                  x_inp <- select1 x (length pre) ;;
                  Some (x_inp, s)) = Some (x_inp, s0)
               /\ shape x_inp = [batch; RHN.in_feats r]
               /\ shape s0 = [batch; n]
               /\ (safe -> bounded s0)).
    { rewrite Ext; cbn [bind].
      destruct (RHN.use_batch_norm r) eqn:Ebn.
      - destruct (Hbn eq_refl) as (bx & bs & Ebx & Ebs & Hbx & Hbs).
        rewrite Ebx, Ebs; cbn [bind].
        use_ok (BatchNorm1d_forward_ok bx _ _ x_t Hbx Sxt).
        use_ok (BatchNorm1d_forward_ok bs _ _ s Hbs Ss).
        exists t, t0. do 3 (split; [assumption || reflexivity|]).
        intros [_ Hf]; discriminate.
      - exists x_t, s. do 3 (split; [assumption || reflexivity|]).
        intros Hs; apply Hb; assumption. }
    destruct G as (x_inp & s0 & EG & Sxi & Ss0 & Bs0).
    unfold RHN.step. rewrite EG; cbn [bind].
    destruct (cell_forward_ok (RHN.cell r) x_inp s0 [batch] Hcell)
      as (s' & P & Ecell & Ss' & SP & Bcell).
    { rewrite EI. assumption. }
    { rewrite EU. assumption. }
    rewrite Ecell; cbn [bind]. rewrite EU, ED in *.
    eexists; split; [reflexivity|]. unfold I.
    rewrite !length_app, Lp, Lh. simpl.
    split; [assumption|]. split; [reflexivity|]. split; [reflexivity|].
    split; [apply Forall_app; split; [assumption | constructor; auto]|].
    split; [apply Forall_app; split; [assumption | constructor; auto]|].
    intros Hsafe. destruct (Hb Hsafe) as (_ & Bp & Bh).
    destruct Bcell as [Bs' BP];
      [rewrite EC; apply Hsafe | apply Bs0; assumption |].
    split; [assumption|].
    split; apply Forall_app; split; try assumption; constructor; auto. }
  rewrite Erun; cbn [bind].
  destruct st as [[s preds] hs]. unfold I in Hst.
  destruct Hst as (_ & Lp & Lh & Fp & Fh & Hb).
  rewrite length_seq in Lp, Lh.
  destruct (stack_ok preds [batch; n]) as (P1 & E1 & S1);
    [destruct preds; simpl in *; [lia | discriminate] | assumption |].
  rewrite E1; cbn [bind].
  destruct (permute3_ok P1 _ _ _ S1) as (out & Eo & So & Bo).
  rewrite Eo; cbn [bind].
  destruct (stack_ok hs [D; batch; n]) as (P2 & E2 & S2);
    [destruct hs; simpl in *; [lia | discriminate] | assumption |].
  rewrite E2; cbn [bind].
  destruct (permute4_ok P2 _ _ _ _ S2) as (hw & Eh & Sh & Bh).
  rewrite Eh; cbn [bind].
  exists out, hw. split; [reflexivity|].
  rewrite So, Sh, Lp, Lh. split; [reflexivity|]. split; [reflexivity|].
  intros Hc Hn. destruct Hb as (_ & Bp & Bhs); [split; assumption|].
  split.
  - apply Bo. apply (stack_bounded _ _ E1). assumption.
  - apply Bh. apply (stack_bounded _ _ E2). assumption.
Qed.

(** ** The shape of the encoder's per-depth states *)

(** C1 (amended).  For every valid configuration (batch size B,
    lookback T >= 1, units U, recurrence depth D) the encoder returns,
    and its second output, the stacked per-depth states, has shape
    (B, T, U, D): batch, timestep, unit, depth. *)
Theorem RHN_forward_states_shape (r : RHN.t) (x : tensor) (B T : nat) :
  rhn_ok r B = true ->
  shape x = [B; T; RHN.in_feats r] ->
  1 <= T ->
  exists out hs,
    RHN.forward r x = Some (out, hs)
    /\ shape hs = [B; T; RHN.n_units r; Z.to_nat (RHN.rec_depth r)].
Proof.
  intros Hok Hx HT.
  destruct (rhn_forward_ok r x B T Hok Hx HT) as (out & hs & E & _ & Sh & _).
  exists out, hs. split; assumption.
Qed.

Lemma RHN_forward_states_shape_witness :
  rhn_ok Example.rhn32 4 = true
  /\ shape Example.x32 = [4; 15; RHN.in_feats Example.rhn32]
  /\ 1 <= 15
  /\ exists out hs,
       RHN.forward Example.rhn32 Example.x32 = Some (out, hs)
       /\ shape hs = [4; 15; 32; 3].
Proof.
  split; [reflexivity|]. split; [reflexivity|]. split; [lia|].
  apply (RHN_forward_states_shape Example.rhn32 Example.x32 4 15);
    [reflexivity | reflexivity | lia].
Defined.

(** For lookback 15, depth 3, 32 units and a batch of 4 the per-depth
    states have shape (4, 15, 32, 3), which is not (4, 32, 15, 3). *)
Lemma RHN_forward_states_shape_counterexample :
  exists out hs,
    RHN.forward Example.rhn32 Example.x32 = Some (out, hs)
    /\ shape hs = [4; 15; 32; 3]
    /\ shape hs <> [4; 32; 15; 3].
Proof.
  destruct (rhn_forward_ok Example.rhn32 Example.x32 4 15)
    as (out & hs & E & _ & Sh & _); [reflexivity | reflexivity | lia |].
  exists out, hs. split; [assumption|]. split; [assumption|].
  rewrite Sh. discriminate.
Qed.

(** ** States within [[-1, 1]] *)

(** C10 (amended).  A valid cell with coupled gates, with or without
    HSG, keeps the state within [[-1, 1]]: from an incoming state within
    [[-1, 1]] it returns a state and per-depth states within [[-1, 1]].
    Consequently every state that an encoder built on the cell without
    batch normalisation produces from the zero initial state lies in
    [[-1, 1]]. *)
Theorem coupled_cell_keeps_states_bounded (c : RHNCell.t) :
  cell_ok c = true ->
  RHNCell.couple_gates c = true ->
  (forall (x s : tensor) (bs : list nat),
      shape x = bs ++ [RHNCell.in_feats c] ->
      shape s = bs ++ [RHNCell.n_units c] ->
      bounded s ->
      exists s' P,
        RHNCell.forward c x s = Some (s', P) /\ bounded s' /\ bounded P)
  /\ (forall (r : RHN.t) (x : tensor) (B T : nat),
        RHN.cell r = c ->
        rhn_ok r B = true ->
        RHN.use_batch_norm r = false ->
        shape x = [B; T; RHN.in_feats r] ->
        1 <= T ->
        exists out hs,
          RHN.forward r x = Some (out, hs) /\ bounded out /\ bounded hs).
Proof.
  intros Hok Hc. split.
  - intros x s bs Hx Hs Hb.
    destruct (cell_forward_ok c x s bs Hok Hx Hs) as (s' & P & E & _ & _ & B').
    exists s', P. split; [assumption|]. apply B'; assumption.
  - intros r x B T Er Hr Hbn Hx HT.
    destruct (rhn_ok_inv r B Hr) as (_ & _ & _ & _ & EC & _).
    destruct (rhn_forward_ok r x B T Hr Hx HT) as (out & hs & E & _ & _ & B').
    exists out, hs. split; [assumption|]. apply B'; [|assumption].
    rewrite <- EC, Er. assumption.
Qed.

Lemma full_bounded (sh : list nat) (v : R) :
  (-1 <= v <= 1)%R -> bounded (full sh v).
Proof. intros Hv idx _. exact Hv. Qed.

Lemma coupled_cell_keeps_states_bounded_witness :
  cell_ok Example.cell32 = true
  /\ RHNCell.couple_gates Example.cell32 = true
  /\ bounded (full [4; 32] (1 / 2))
  /\ (exists s' P,
        RHNCell.forward Example.cell32 (full [4; 5] 1) (full [4; 32] (1 / 2))
        = Some (s', P)
        /\ bounded s' /\ bounded P)
  /\ (exists out hs,
        RHN.forward Example.rhn32 Example.x32 = Some (out, hs)
        /\ bounded out /\ bounded hs).
Proof.
  split; [reflexivity|]. split; [reflexivity|].
  assert (Hb : bounded (full [4; 32] (1 / 2))) by (apply full_bounded; lra).
  split; [exact Hb|].
  destruct (coupled_cell_keeps_states_bounded Example.cell32 eq_refl eq_refl)
    as [Hcell Hrhn].
  split.
  - apply (Hcell (full [4; 5] 1) (full [4; 32] (1 / 2)) [4]);
      [reflexivity | reflexivity | exact Hb].
  - apply (Hrhn Example.rhn32 Example.x32 4 15);
      [reflexivity | reflexivity | reflexivity | reflexivity | lia].
Defined.

(** ** The padding of a convolution block *)

(** C5 (amended).  For every lookback T >= 1 and kernel size >= 1 with
    kernel - 1 < 2^53 (where the float division of [_calc_padding] is
    exact) the padding that [ConvBlock] computes, and gives to its
    convolution, is [floor(((T-1) + 1 + (kernel-1) - T) / 2)], that is
    [floor((kernel-1) / 2)]. *)
Theorem ConvBlock_padding (timesteps in_channels n_filters filter_size : nat)
    (g : Init.rng) :
  1 <= timesteps -> 1 <= filter_size ->
  (Z.of_nat filter_size - 1 < 2 ^ 53)%Z ->
  let T := Z.of_nat timesteps in
  let kernel := Z.of_nat filter_size in
  ConvBlock._calc_padding T kernel 1 1
  = (((T - 1) + 1 + (kernel - 1) - T) / 2)%Z
  /\ ConvBlock._calc_padding T kernel 1 1 = ((kernel - 1) / 2)%Z
  /\ exists blk g',
       ConvBlock.__init__ timesteps in_channels n_filters filter_size g
       = inr (blk, g')
       /\ padding (ConvBlock.conv blk) = ((kernel - 1) / 2)%Z.
Proof.
  intros HT Hk _ T kernel.
  assert (E : ConvBlock._calc_padding T kernel 1 1 = ((kernel - 1) / 2)%Z).
  { unfold ConvBlock._calc_padding, ConvBlock.int_half.
    replace ((T - 1) * 1 + 1 + 1 * (kernel - 1) - T)%Z with (kernel - 1)%Z
      by lia.
    apply Z.quot_div_nonneg; lia. }
  split; [|split].
  - rewrite E. f_equal. lia.
  - exact E.
  - unfold ConvBlock.__init__, Init.Conv1d, Init.bindM, Init.fresh, Init.ret.
    eexists; eexists; split; [reflexivity|]. simpl. exact E.
Qed.

Lemma ConvBlock_padding_witness :
  1 <= 15 /\ 1 <= 5 /\ (Z.of_nat 5 - 1 < 2 ^ 53)%Z
  /\ ConvBlock._calc_padding 15 5 1 1 = 2%Z
  /\ exists blk g',
       ConvBlock.__init__ 15 3 32 5 (Init.mkRng (fun _ => 0%R) 0)
       = inr (blk, g')
       /\ padding (ConvBlock.conv blk) = 2%Z.
Proof.
  split; [lia|]. split; [lia|]. split; [reflexivity|].
  destruct (ConvBlock_padding 15 3 32 5 (Init.mkRng (fun _ => 0%R) 0))
    as (_ & E & blk & g' & Eb & Ep); [lia | lia | reflexivity |].
  split; [exact E|]. exists blk, g'. split; [exact Eb | exact Ep].
Defined.

(** With the default kernel size 5 (and lookback 15) the padding is 2,
    while [floor(((T-1) + (kernel-1) - T) / 2)] is 1. *)
Lemma ConvBlock_padding_counterexample :
  ConvBlock._calc_padding 15 5 1 1 = 2%Z
  /\ (((15 - 1) + (5 - 1) - 15) / 2 = 1)%Z
  /\ ConvBlock._calc_padding 15 5 1 1 <> (((15 - 1) + (5 - 1) - 15) / 2)%Z.
Proof.
  split; [reflexivity|]. split; [reflexivity|]. discriminate.
Qed.

(** ** Construction *)

Lemma bindM_inr {A B : Type} (m : Init.M A) (f : A -> Init.M B)
    (g g' : Init.rng) (a : A) :
  m g = inr (a, g') -> Init.bindM m f g = f a g'.
Proof. unfold Init.bindM. intros ->. reflexivity. Qed.

Lemma bindM_inl {A B : Type} (m : Init.M A) (f : A -> Init.M B)
    (g : Init.rng) (e : Init.exn) :
  m g = inl e -> Init.bindM m f g = inl e.
Proof. unfold Init.bindM. intros ->. reflexivity. Qed.

(** ** What the constructors establish

    With positive counts construction returns, and the module it returns
    is a valid configuration. *)

Lemma Linear_run (i o : nat) (b : bool) (g : Init.rng) :
  exists L g', Init.Linear i o b g = inr (L, g') /\ Linear_ok L i o = true.
Proof.
  unfold Init.Linear, Init.bindM, Init.fresh, Init.ret, Linear_ok.
  destruct b; eexists; eexists; (split; [reflexivity|]); simpl;
    rewrite !Nat.eqb_refl; reflexivity.
Qed.

Lemma comprehension_run {A B : Type} (P : B -> Prop) (l : list A)
    (f : A -> Init.M B) :
  (forall a g, In a l -> exists b g', f a g = inr (b, g') /\ P b) ->
  forall g, exists bs g',
    Init.comprehension l f g = inr (bs, g')
    /\ length bs = length l /\ Forall P bs.
Proof.
  induction l as [|a l IH]; intros Hf g; simpl.
  - exists [], g. repeat split. constructor.
  - destruct (Hf a g) as (b & g1 & E1 & Pb); [left; reflexivity|].
    rewrite (bindM_inr _ _ _ _ _ E1).
    destruct (IH (fun a0 g0 Hin => Hf a0 g0 (or_intror Hin)) g1)
      as (bs & g2 & E2 & Hl & HP).
    rewrite (bindM_inr _ _ _ _ _ E2).
    exists (b :: bs), g2. split; [reflexivity|]. simpl.
    split; [congruence | constructor; assumption].
Qed.

Lemma layers_run (count : Z) (i o : nat) (b : bool) (g : Init.rng) :
  exists Ls g',
    Init.comprehension (range count) (fun _ => Init.Linear i o b) g
    = inr (Ls, g')
    /\ layers_ok Ls (Z.to_nat count) i o = true.
Proof.
  destruct (comprehension_run (fun L => Linear_ok L i o = true)
              (range count) (fun _ : nat => Init.Linear i o b)
              (fun _ g0 _ => Linear_run i o b g0) g)
    as (Ls & g' & E & Hl & HP).
  exists Ls, g'. split; [assumption|]. unfold layers_ok.
  unfold range in Hl. rewrite length_seq in Hl. rewrite Hl, Nat.eqb_refl.
  apply forallb_forall. rewrite Forall_forall in HP. assumption.
Qed.

Lemma with_bias_ok (L : Linear) (i n : nat) (v : R) :
  Linear_ok L i n = true -> Linear_ok (Init.with_bias L n v) i n = true.
Proof.
  unfold Linear_ok, Init.with_bias. intros H.
  apply andb_true_iff in H. destruct H as [Hw _]. simpl.
  rewrite Hw, Nat.eqb_refl. reflexivity.
Qed.

Lemma closed_layers_ok (Ls : list Linear) (count i n : nat) (v : R) :
  layers_ok Ls count i n = true ->
  layers_ok (map (fun L => Init.with_bias L n v) Ls) count i n = true.
Proof.
  unfold layers_ok. intros H. apply andb_true_iff in H.
  destruct H as [Hl Hall]. rewrite length_map, Hl. simpl.
  rewrite forallb_forall in *. intros L HL. apply in_map_iff in HL.
  destruct HL as (L0 & <- & HL0). apply with_bias_ok. auto.
Qed.

Lemma HSGLayer_run (n : nat) (closed : bool) (g : Init.rng) :
  exists h g', HSGLayer.__init__ n closed g = inr (h, g') /\ hsg_ok h n = true.
Proof.
  unfold HSGLayer.__init__.
  destruct (Linear_run n n false g) as (wr & g1 & E1 & H1).
  rewrite (bindM_inr _ _ _ _ _ E1).
  destruct (Linear_run n n true g1) as (wf & g2 & E2 & H2).
  rewrite (bindM_inr _ _ _ _ _ E2).
  eexists; eexists; split; [reflexivity|]. unfold hsg_ok. simpl.
  rewrite H1. destruct closed; [apply with_bias_ok|]; assumption.
Qed.

Lemma bindM_assoc {A B C : Type} (m : Init.M A) (f : A -> Init.M B)
    (k : B -> Init.M C) (g : Init.rng) :
  Init.bindM (Init.bindM m f) k g
  = Init.bindM m (fun a => Init.bindM (f a) k) g.
Proof.
  unfold Init.bindM. destruct (m g) as [e|[a g']]; reflexivity.
Qed.

Lemma bindM_ret {A B : Type} (a : A) (f : A -> Init.M B) (g : Init.rng) :
  Init.bindM (Init.ret a) f g = f a g.
Proof. reflexivity. Qed.

Tactic Notation "run_init" constr(lem) "as" ident(a) ident(g') ident(H) :=
  let E := fresh "E" in
  rewrite ?bindM_assoc;
  destruct lem as (a & g' & E & H); rewrite (bindM_inr _ _ _ _ _ E);
  rewrite ?bindM_ret.

Lemma RHNCell_run (in_feats n_units : nat) (rec_depth : Z)
    (couple_gates use_hsg closed : bool) (g : Init.rng) :
  (0 < rec_depth)%Z ->
  exists c g',
    RHNCell.__init__ in_feats n_units rec_depth couple_gates use_hsg closed g
    = inr (c, g')
    /\ cell_ok c = true
    /\ RHNCell.rec_depth c = rec_depth
    /\ RHNCell.in_feats c = in_feats
    /\ RHNCell.n_units c = n_units
    /\ RHNCell.couple_gates c = couple_gates
    /\ RHNCell.use_HSG c = use_hsg.
Proof.
  intros Hd. apply Z.ltb_lt in Hd. unfold RHNCell.__init__.
  run_init (Linear_run in_feats n_units false g) as wh g1 Hwh.
  run_init (Linear_run in_feats n_units false g1) as wt g2 Hwt.
  destruct couple_gates; cbn [negb andb]; rewrite ?bindM_ret.
  - run_init (layers_run rec_depth n_units n_units true g2) as rh g3 Hrh.
    run_init (layers_run rec_depth n_units n_units true g3) as rt g4 Hrt.
    rewrite andb_false_r.
    destruct use_hsg; rewrite ?bindM_ret.
    + run_init (HSGLayer_run n_units closed g4) as hsg g5 Hhsg.
      eexists; eexists; split; [reflexivity|]. unfold cell_ok. simpl.
      rewrite Hd, Hwh, Hwt, Hrh, Hhsg. simpl.
      split; [|repeat split].
      destruct closed; [rewrite closed_layers_ok|rewrite Hrt]; auto.
    + eexists; eexists; split; [reflexivity|]. unfold cell_ok. simpl.
      rewrite Hd, Hwh, Hwt, Hrh. simpl.
      split; [|repeat split].
      destruct closed; [rewrite closed_layers_ok|rewrite Hrt]; auto.
  - run_init (Linear_run in_feats n_units false g2) as wc g3 Hwc.
    run_init (layers_run rec_depth n_units n_units true g3) as rh g4 Hrh.
    run_init (layers_run rec_depth n_units n_units true g4) as rt g5 Hrt.
    run_init (layers_run rec_depth n_units n_units true g5) as rc g6 Hrc.
    rewrite andb_true_r.
    destruct use_hsg; rewrite ?bindM_ret.
    + run_init (HSGLayer_run n_units closed g6) as hsg g7 Hhsg.
      eexists; eexists; split; [reflexivity|]. unfold cell_ok. simpl.
      rewrite Hd, Hwh, Hwt, Hrh, Hwc, Hhsg. simpl.
      split; [|repeat split].
      destruct closed; simpl;
        [rewrite !closed_layers_ok | rewrite Hrt, Hrc]; auto.
    + eexists; eexists; split; [reflexivity|]. unfold cell_ok. simpl.
      rewrite Hd, Hwh, Hwt, Hrh, Hwc. simpl.
      split; [|repeat split].
      destruct closed; simpl;
        [rewrite !closed_layers_ok | rewrite Hrt, Hrc]; auto.
Qed.

Lemma RHN_run (in_feats out_feats n_units : nat) (rec_depth : Z)
    (couple_gates use_hsg closed use_batch_norm : bool) (batch : nat)
    (g : Init.rng) :
  (0 < rec_depth)%Z ->
  (use_batch_norm = true -> batch <> 1) ->
  exists r g',
    RHN.__init__ in_feats out_feats n_units rec_depth couple_gates use_hsg
      closed use_batch_norm g = inr (r, g')
    /\ rhn_ok r batch = true
    /\ RHN.couple_gates r = couple_gates
    /\ RHN.use_batch_norm r = use_batch_norm
    /\ RHN.rec_depth r = rec_depth
    /\ RHN.in_feats r = in_feats
    /\ RHN.n_units r = n_units.
Proof.
  intros Hd Hb. unfold RHN.__init__.
  assert (Ea : Init.assert (0 <? rec_depth)%Z g = inr (tt, g)).
  { unfold Init.assert. rewrite (proj2 (Z.ltb_lt 0 rec_depth) Hd).
    reflexivity. }
  rewrite (bindM_inr _ _ _ _ _ Ea).
  destruct (RHNCell_run in_feats n_units rec_depth couple_gates use_hsg closed
              g Hd) as (c & g1 & E1 & Hc & F1 & F2 & F3 & F4 & F5).
  rewrite (bindM_inr _ _ _ _ _ E1).
  destruct use_batch_norm.
  - eexists; eexists; split; [reflexivity|]. unfold rhn_ok, bn_ok. simpl.
    rewrite Hc, F1, F2, F3, F4, F5.
    rewrite ?Z.eqb_refl, ?Nat.eqb_refl, ?eqb_reflx. simpl.
    destruct (Nat.eqb_spec batch 1) as [Hb1|_]; [|repeat split].
    exfalso. apply Hb; auto.
  - eexists; eexists; split; [reflexivity|]. unfold rhn_ok. simpl.
    rewrite Hc, F1, F2, F3, F4, F5.
    rewrite ?Z.eqb_refl, ?Nat.eqb_refl, ?eqb_reflx.
    repeat split.
Qed.

Lemma calc_padding_half (T k : nat) :
  1 <= k ->
  ConvBlock._calc_padding (Z.of_nat T) (Z.of_nat k) 1 1
  = Z.of_nat ((k - 1) / 2).
Proof.
  intros Hk. unfold ConvBlock._calc_padding, ConvBlock.int_half.
  replace ((Z.of_nat T - 1) * 1 + 1 + 1 * (Z.of_nat k - 1) - Z.of_nat T)%Z
    with (Z.of_nat (k - 1)) by lia.
  rewrite Z.quot_div_nonneg by lia.
  change 2%Z with (Z.of_nat 2). rewrite <- Nat2Z.inj_div. reflexivity.
Qed.

Lemma ConvBlock_run (timesteps in_channels n_filters filter_size : nat)
    (g : Init.rng) :
  exists blk g',
    ConvBlock.__init__ timesteps in_channels n_filters filter_size g
    = inr (blk, g')
    /\ ConvBlock.maxpool blk = timesteps
    /\ (1 <= filter_size ->
        filter_size <= timesteps + 2 * ((filter_size - 1) / 2) ->
        block_ok blk in_channels n_filters timesteps timesteps = true).
Proof.
  unfold ConvBlock.__init__, Init.Conv1d, Init.bindM, Init.fresh, Init.ret.
  eexists; eexists; split; [reflexivity|]. split; [reflexivity|].
  intros Hk Hfit. unfold block_ok. simpl.
  rewrite (calc_padding_half timesteps filter_size Hk), Nat2Z.id.
  rewrite !Nat.eqb_refl.
  destruct filter_size as [|k']; [lia|].
  repeat (apply andb_true_iff; split); try reflexivity.
  - apply Z.leb_le. lia.
  - apply Nat.leb_le. lia.
Qed.

Lemma convs_ok_all (cs : list ConvBlock.t) (n_f T : nat) :
  Forall (fun c => block_ok c n_f n_f T T = true) cs ->
  convs_ok cs n_f n_f T T = true.
Proof.
  intros H. induction H as [|c cs Hc _ IH]; simpl; [reflexivity|].
  rewrite Hc, IH. reflexivity.
Qed.

(** A network built by [HARHN.__init__] with positive counts, a lookback
    of at least one and a kernel that fits the padded lookback is a valid
    configuration, for every batch size. *)
Lemma HARHN_run (n_conv_layers : Z) (lookback in_feats target_feats
    n_units_enc n_units_dec enc_input_size : nat) (rec_depth : Z)
    (out_feats n_filters filter_size batch : nat) (g : Init.rng) :
  (0 < n_conv_layers)%Z -> (0 < rec_depth)%Z ->
  1 <= lookback -> 1 <= filter_size ->
  filter_size <= lookback + 2 * ((filter_size - 1) / 2) ->
  exists m g',
    HARHN.__init__ n_conv_layers lookback in_feats target_feats n_units_enc
      n_units_dec enc_input_size rec_depth out_feats n_filters filter_size g
    = inr (m, g')
    /\ harhn_ok m batch lookback in_feats target_feats n_filters = true
    /\ HARHN.T m = lookback.
Proof.
  intros Hn Hd HT Hk Hfit. unfold HARHN.__init__.
  assert (Ea : Init.assert (0 <? n_conv_layers)%Z g = inr (tt, g)).
  { unfold Init.assert. rewrite (proj2 (Z.ltb_lt 0 n_conv_layers) Hn).
    reflexivity. }
  rewrite (bindM_inr _ _ _ _ _ Ea).
  assert (Er : range n_conv_layers
               = 0 :: seq 1 (Z.to_nat n_conv_layers - 1)).
  { unfold range. destruct (Z.to_nat n_conv_layers) as [|n] eqn:En; [lia|].
    simpl. rewrite Nat.sub_0_r. reflexivity. }
  rewrite Er. cbn [Init.comprehension Nat.eqb]. rewrite !bindM_assoc.
  destruct (ConvBlock_run lookback in_feats n_filters filter_size g)
    as (c0 & g0 & E0 & _ & H0).
  rewrite (bindM_inr _ _ _ _ _ E0). specialize (H0 Hk Hfit).
  rewrite ?bindM_assoc.
  destruct (comprehension_run
              (fun c => block_ok c n_filters n_filters lookback lookback
                        = true)
              (seq 1 (Z.to_nat n_conv_layers - 1))
              (fun i => if i =? 0
                        then ConvBlock.__init__ lookback in_feats n_filters
                               filter_size
                        else ConvBlock.__init__ lookback n_filters n_filters
                               filter_size)) with (g := g0)
    as (cs & g1 & E1 & Hlen & Hcs).
  { intros i gi Hin. apply in_seq in Hin.
    destruct (Nat.eqb_spec i 0) as [->|_]; [lia|].
    destruct (ConvBlock_run lookback n_filters n_filters filter_size gi)
      as (c & g' & E & _ & Hc).
    exists c, g'. split; [exact E | apply Hc; assumption]. }
  rewrite (bindM_inr _ _ _ _ _ E1). rewrite bindM_ret.
  run_init (Linear_run n_filters enc_input_size true g1) as c2e g2 Hc2e.
  destruct (RHN_run enc_input_size n_units_enc n_units_enc rec_depth true
              false false false batch g2 Hd)
    as (enc & g3 & E3 & Henc & _ & _ & Fd & Fi & Fn); [discriminate|].
  rewrite (bindM_inr _ _ _ _ _ E3).
  destruct (RHNCell_run target_feats n_units_dec rec_depth true false false
              g3 Hd) as (dec & g4 & E4 & Hdec & _ & Gi & Gn & _).
  rewrite (bindM_inr _ _ _ _ _ E4).
  run_init (layers_run rec_depth n_units_dec n_units_enc false g4)
    as tk g5 Htk.
  run_init (layers_run rec_depth n_units_enc n_units_enc true g5)
    as uk g6 Huk.
  run_init (layers_run rec_depth n_units_enc 1 true g6) as vk g7 Hvk.
  run_init (Linear_run target_feats target_feats false g7) as wt g8 Hwt.
  run_init (Linear_run (Z.to_nat rec_depth * n_units_enc) target_feats true
              g8) as vt g9 Hvt.
  run_init (Linear_run n_units_dec target_feats true g9) as w g10 Hw.
  run_init (Linear_run (Z.to_nat rec_depth * n_units_enc) target_feats true
              g10) as v g11 Hv.
  eexists; eexists; split; [reflexivity|]. split; [|reflexivity].
  unfold harhn_ok. cbn [HARHN.n_convs HARHN.convs HARHN.T HARHN.conv_to_enc
    HARHN.RHNEncoder HARHN.RHNDecoder HARHN.T_k HARHN.U_k HARHN.v_k
    HARHN.W_tilda HARHN.V_tilda HARHN.W HARHN.V HARHN.rec_depth
    HARHN.n_units_enc HARHN.n_units_dec length convs_ok].
  rewrite (proj2 (Z.ltb_lt 0 n_conv_layers) Hn), Hlen, length_seq.
  replace (S (Z.to_nat n_conv_layers - 1)) with (Z.to_nat n_conv_layers)
    by lia.
  rewrite H0, (convs_ok_all _ _ _ Hcs), (proj2 (Nat.leb_le _ _) HT).
  rewrite Fi, Fn, Fd, Gi, Gn, Hc2e, Henc, Hdec, Htk, Huk, Hvk, Hwt, Hvt, Hw,
    Hv.
  rewrite !Nat.eqb_refl, Z.eqb_refl. reflexivity.
Qed.

(** *** Rejected configurations *)

Lemma RHN_init_rejects (in_feats out_feats n_units : nat) (rec_depth : Z)
    (couple_gates use_hsg init_gates_closed use_batch_norm : bool)
    (g : Init.rng) :
  (rec_depth <= 0)%Z ->
  RHN.__init__ in_feats out_feats n_units rec_depth couple_gates use_hsg
    init_gates_closed use_batch_norm g = inl (Init.AssertionError None).
Proof.
  intros H. unfold RHN.__init__. apply bindM_inl. unfold Init.assert.
  destruct (Z.ltb_spec 0 rec_depth); [lia | reflexivity].
Qed.

Lemma HARHN_init_rejects (n_conv_layers rec_depth : Z)
    (lookback in_feats out_feats target_feats n_units_enc n_units_dec
       enc_input_size n_filters filter_size : nat)
    (g : Init.rng) :
  (n_conv_layers <= 0 \/ rec_depth <= 0)%Z ->
  HARHN.__init__ n_conv_layers lookback in_feats target_feats n_units_enc
    n_units_dec enc_input_size rec_depth out_feats n_filters filter_size g
  = inl (Init.AssertionError None).
Proof.
  intros H. unfold HARHN.__init__.
  destruct (Z.ltb_spec 0 n_conv_layers) as [Hn|Hn].
  - assert (Hd : (rec_depth <= 0)%Z) by lia.
    rewrite (bindM_inr _ _ g g tt eq_refl).
    destruct (comprehension_run (fun c => ConvBlock.maxpool c = lookback)
                (range n_conv_layers)
                (fun i => if i =? 0
                          then ConvBlock.__init__ lookback in_feats n_filters
                                 filter_size
                          else ConvBlock.__init__ lookback n_filters n_filters
                                 filter_size)) with (g := g)
      as (cs & g1 & E1 & _).
    { intros i g0 _.
      destruct (i =? 0);
        [destruct (ConvBlock_run lookback in_feats n_filters filter_size g0)
           as (c & g' & E & Hm & _)
        |destruct (ConvBlock_run lookback n_filters n_filters filter_size g0)
           as (c & g' & E & Hm & _)];
        exists c, g'; split; assumption. }
    rewrite (bindM_inr _ _ g g1 cs E1).
    destruct (Linear_run n_filters enc_input_size true g1)
      as (c2e & g2 & E2 & _).
    rewrite (bindM_inr _ _ g1 g2 c2e E2).
    apply bindM_inl. apply RHN_init_rejects. assumption.
  - apply bindM_inl. reflexivity.
Qed.

(** C8 (amended).  Construction rejects an invalid configuration at
    once: [RHN] with a recurrence depth <= 0, and [HARHN] with a number
    of convolution layers <= 0 or a recurrence depth <= 0, fail at
    construction time with a bare AssertionError, one that carries no
    message; no module is returned on which a forward pass could be
    attempted. *)
Theorem construction_rejects_nonpositive
    (n_conv_layers rec_depth : Z)
    (lookback in_feats out_feats target_feats n_units n_units_enc n_units_dec
       enc_input_size n_filters filter_size : nat)
    (couple_gates use_hsg init_gates_closed use_batch_norm : bool)
    (g : Init.rng) :
  ((rec_depth <= 0)%Z ->
   RHN.__init__ in_feats out_feats n_units rec_depth couple_gates use_hsg
     init_gates_closed use_batch_norm g = inl (Init.AssertionError None))
  /\ ((n_conv_layers <= 0 \/ rec_depth <= 0)%Z ->
      HARHN.__init__ n_conv_layers lookback in_feats target_feats n_units_enc
        n_units_dec enc_input_size rec_depth out_feats n_filters filter_size g
      = inl (Init.AssertionError None)).
Proof.
  split; [apply RHN_init_rejects | apply HARHN_init_rejects].
Qed.

Lemma construction_rejects_nonpositive_witness :
  (0 <= 0)%Z /\ (-1 <= 0 \/ 3 <= 0)%Z /\ (2 <= 0 \/ 0 <= 0)%Z
  /\ RHN.__init__ 5 32 32 0 true false false false
       (Init.mkRng (fun _ => 0%R) 0) = inl (Init.AssertionError None)
  /\ HARHN.__init__ (-1) 15 3 1 32 32 32 3 1 32 5
       (Init.mkRng (fun _ => 0%R) 0) = inl (Init.AssertionError None)
  /\ HARHN.__init__ 2 15 3 1 32 32 32 0 1 32 5
       (Init.mkRng (fun _ => 0%R) 0) = inl (Init.AssertionError None).
Proof.
  split; [lia|]. split; [lia|]. split; [lia|]. split; [|split].
  - apply (proj1 (construction_rejects_nonpositive 1 0 15 5 32 1 32 32 32 32
                    32 5 true false false false (Init.mkRng (fun _ => 0%R) 0))).
    lia.
  - apply (proj2 (construction_rejects_nonpositive (-1) 3 15 3 1 1 32 32 32
                    32 32 5 true false false false
                    (Init.mkRng (fun _ => 0%R) 0))).
    lia.
  - apply (proj2 (construction_rejects_nonpositive 2 0 15 3 1 1 32 32 32
                    32 32 5 true false false false
                    (Init.mkRng (fun _ => 0%R) 0))).
    lia.
Defined.

(** The error of a rejected construction describes nothing: for [RHN]
    with recurrence depth 0, and for [HARHN] with no convolution layer
    or with recurrence depth 0, the exception has no argument and its
    text [str(e)] is the empty string. *)
Lemma construction_rejects_nonpositive_counterexample :
  (exists e,
      RHN.__init__ 5 32 32 0 true false false false
        (Init.mkRng (fun _ => 0%R) 0) = inl e
      /\ e = Init.AssertionError None /\ Init.str e = String.EmptyString)
  /\ (exists e,
         HARHN.__init__ 0 15 3 1 32 32 32 3 1 32 5
           (Init.mkRng (fun _ => 0%R) 0) = inl e
         /\ e = Init.AssertionError None /\ Init.str e = String.EmptyString)
  /\ (exists e,
         HARHN.__init__ 2 15 3 1 32 32 32 0 1 32 5
           (Init.mkRng (fun _ => 0%R) 0) = inl e
         /\ e = Init.AssertionError None /\ Init.str e = String.EmptyString).
Proof.
  split; [|split]; exists (Init.AssertionError None);
    (split; [|split; reflexivity]).
  - apply RHN_init_rejects. lia.
  - apply HARHN_init_rejects. lia.
  - apply HARHN_init_rejects. lia.
Qed.

(** ** The discarded projections *)

Lemma attend_once_eq (m : HARHN.t) (h_t_l s_rep : tensor) (k : nat) :
  HARHN.attend m h_t_l s_rep k = HARHN.attend_once m h_t_l s_rep k.
Proof.
  unfold HARHN.attend, HARHN.attend_once.
  destruct (select_last h_t_l k) as [h_t_k|]; [|reflexivity]. cbn [bind].
  destruct (call_nth (HARHN.U_k m) k h_t_k) as [uh|];
    destruct (call_nth (HARHN.T_k m) k s_rep) as [ts|];
    destruct (nth_error (HARHN.v_k m) k) as [v|];
    reflexivity.
Qed.

Lemma step_once_eq (m : HARHN.t) (h_t_l y : tensor) (t_ : nat)
    (st : tensor * option tensor) :
  HARHN.step m h_t_l y t_ st = HARHN.step_once m h_t_l y t_ st.
Proof.
  unfold HARHN.step, HARHN.step_once. destruct st as [s d].
  apply bind_ext; intros s1 _. apply bind_ext; intros s_rep _.
  f_equal. apply for_each_ext. intros k d_t _.
  unfold HARHN.depth, HARHN.depth_once. rewrite attend_once_eq. reflexivity.
Qed.

(** C7.  [HARHN.forward] returns what it returns without the two
    discarded applications [_ = self.U_k[k](h_t_k)] and
    [_ = self.T_k[k](s_rep)], for every input and every value of the
    parameters: the same output, or a failure where that one fails. *)
Theorem discarded_projections_have_no_effect (m : HARHN.t) (x y : tensor) :
  HARHN.forward m x y = HARHN.forward_once m x y.
Proof.
  unfold HARHN.forward, HARHN.forward_once.
  apply bind_ext; intros [x' h_t_l] _.
  apply bind_ext; intros batch _.
  f_equal. apply for_each_ext. intros t_ st _. apply step_once_eq.
Qed.

(** ** The properties of the cell on a concrete cell *)

Lemma RHNCell_forward_last_entry_witness :
  cell_ok (set_HSG Example.cell (Some Example.gate)) = true
  /\ exists s' P,
       RHNCell.forward (set_HSG Example.cell (Some Example.gate))
         Example.x Example.s = Some (s', P)
       /\ shape P = 2 :: shape s'
       /\ select0 P 1 = Some s'.
Proof.
  split; [reflexivity|].
  apply (proj2 (RHNCell_forward_last_entry
                  (set_HSG Example.cell (Some Example.gate))
                  Example.x Example.s) [1]); reflexivity.
Defined.

Lemma HSG_changes_last_entry_only_witness :
  cell_ok (set_HSG Example.cell (Some Example.gate)) = true
  /\ exists s_n P_n s_h P_h,
       RHNCell.forward (set_HSG Example.cell None) Example.x Example.s
       = Some (s_n, P_n)
       /\ RHNCell.forward (set_HSG Example.cell (Some Example.gate))
            Example.x Example.s = Some (s_h, P_h)
       /\ (forall d, d < 1 -> select0 P_h d = select0 P_n d)
       /\ HSGLayer.forward Example.gate s_n Example.s = Some s_h
       /\ select0 P_h 1 = Some s_h.
Proof.
  split; [reflexivity|].
  apply (proj2 (HSG_changes_last_entry_only Example.cell Example.gate
                  Example.x Example.s) [1]); reflexivity.
Defined.

Lemma decoupled_equals_coupled_witness :
  RHNCell.couple_gates (decoupled_opposite Example.cell) = false
  /\ (forall d s0, d < 2 ->
        Spec.carry_gate (decoupled_opposite Example.cell) d Example.x s0
        = option_map one_minus
            (Spec.transform_gate (decoupled_opposite Example.cell) d
               Example.x s0))
  /\ RHNCell.forward (decoupled_opposite Example.cell) Example.x Example.s
     = RHNCell.forward (coupled (decoupled_opposite Example.cell))
         Example.x Example.s
  /\ exists s' P,
       RHNCell.forward (decoupled_opposite Example.cell) Example.x Example.s
       = Some (s', P).
Proof.
  split; [reflexivity|].
  split; [intros d s0 _; apply opposite_carry_gate|].
  split.
  - apply (decoupled_equals_coupled (decoupled_opposite Example.cell)
             Example.x Example.s eq_refl).
    intros d s0 _. apply opposite_carry_gate.
  - destruct (cell_forward_ok (decoupled_opposite Example.cell)
                Example.x Example.s [1] eq_refl eq_refl eq_refl)
      as (s' & P & E & _).
    exists s', P. exact E.
Defined.

(** ** Shapes of what a returning call returns *)

Lemma Linear_forward_shape (L : Linear) (x t : tensor) :
  Linear_forward L x = Some t ->
  exists o, shape t = removelast (shape x) ++ [o].
Proof.
  unfold Linear_forward. intros H.
  destruct (shape (weight L)) as [|o [|i [|? ?]]]; try discriminate.
  destruct (shape x) as [|d0 sh]; [discriminate|].
  destruct (_ && _); [|discriminate].
  inv_some H. exists o. reflexivity.
Qed.

Lemma call_nth_shape (Ls : list Linear) (k : nat) (x t : tensor) :
  call_nth Ls k x = Some t ->
  exists o, shape t = removelast (shape x) ++ [o].
Proof.
  unfold call_nth. intros H. inv_bind H.
  eapply Linear_forward_shape; eassumption.
Qed.

Lemma binop_shape (f : R -> R -> R) (a b t : tensor) :
  binop f a b = Some t -> broadcast_shapes (shape a) (shape b) = Some (shape t).
Proof.
  unfold binop. intros H. inv_bind H. inv_some H. assumption.
Qed.

(** Broadcasting two shapes of rank 3 with one middle dimension keeps
    that dimension. *)
Lemma broadcast_middle (a0 a2 b0 b2 n : nat) (sh : list nat) :
  broadcast_shapes [a0; n; a2] [b0; n; b2] = Some sh ->
  exists c0 c2, sh = [c0; n; c2].
Proof.
  unfold broadcast_shapes. cbn [rev app broadcast_rev bind].
  rewrite Nat.eqb_refl.
  destruct (a0 =? b0); [|destruct (a0 =? 1); [|destruct (b0 =? 1)]];
    cbn [bind];
    try (destruct (a2 =? b2); [|destruct (a2 =? 1); [|destruct (b2 =? 1)]]);
    cbn [bind rev app]; intros H; try discriminate; inv_some H; eauto.
Qed.

Lemma ConvBlock_forward_shape (c : ConvBlock.t) (x x' : tensor) :
  ConvBlock.forward c x = Some x' ->
  exists n ch, shape x' = [n; ConvBlock.maxpool c; ch].
Proof.
  unfold ConvBlock.forward. intros H. do 3 inv_bind H.
  unfold AdaptiveMaxPool1d_forward in E1.
  destruct (shape (relu_t v0)) as [|n [|ch [|len [|? ?]]]]; try discriminate.
  destruct (1 <=? len); [|discriminate]. inv_some E1.
  unfold permute in H. simpl in H. inv_some H. simpl. eauto.
Qed.

Lemma convs_shape (m : HARHN.t) (x x1 : tensor) :
  pools_ok m = true ->
  for_each (range (HARHN.n_convs m)) x (fun conv x0 =>
    c <- nth_error (HARHN.convs m) conv ;; ConvBlock.forward c x0) = Some x1 ->
  exists n ch, shape x1 = [n; HARHN.T m; ch].
Proof.
  unfold pools_ok. intros Hp Hrun.
  apply andb_true_iff in Hp. destruct Hp as [Hn Hall].
  apply Z.ltb_lt in Hn. rewrite forallb_forall in Hall.
  set (I := fun (pre : list nat) (x0 : tensor) =>
         pre = [] \/ exists n ch, shape x0 = [n; HARHN.T m; ch]).
  assert (HI : I (range (HARHN.n_convs m)) x1).
  { eapply for_each_inv; [ | | exact Hrun].
    - left; reflexivity.
    - intros pre a suf s0 s' _ _ Hb. right.
      inv_bind Hb. apply nth_error_In in E. apply Hall in E.
      apply Nat.eqb_eq in E. rewrite <- E.
      eapply ConvBlock_forward_shape; eassumption. }
  destruct HI as [Hnil|HI]; [|assumption].
  unfold range in Hnil. apply (f_equal (@length nat)) in Hnil.
  rewrite length_seq in Hnil. simpl in Hnil. lia.
Qed.

Lemma stack_length (ts : list tensor) (P : tensor) :
  stack ts = Some P -> exists sh, shape P = length ts :: sh.
Proof.
  intros H. destruct (stack_shapes ts P H) as (t0 & _ & Hs & _). eauto.
Qed.

Lemma permute4_shape (t t' : tensor) (n : nat) (sh : list nat) :
  shape t = n :: sh -> permute t [2; 0; 3; 1] = Some t' ->
  exists b u d, shape t' = [b; n; u; d].
Proof.
  intros Ht. unfold permute. rewrite Ht.
  destruct sh as [|d [|b [|u [|? ?]]]]; simpl; try discriminate.
  intros H. inv_some H. simpl. eauto.
Qed.

(** The per-depth states that the encoder returns have the number of
    timesteps of its input as their dimension 1. *)
Lemma RHN_forward_shape (r : RHN.t) (x out hs : tensor) (n steps f : nat) :
  shape x = [n; steps; f] ->
  RHN.forward r x = Some (out, hs) ->
  exists b u d, shape hs = [b; steps; u; d].
Proof.
  intros Hx. unfold RHN.forward, size. rewrite Hx. cbn [nth_error bind].
  intros H. inv_bind H. destruct v as [[s preds] hw].
  do 4 inv_bind H. inv_some H.
  assert (Hlen : length hw = steps).
  { set (I := fun (pre : list nat)
                  (st : tensor * list tensor * list tensor) =>
             length (snd st) = length pre).
    assert (HI : I (seq 0 steps) (s, preds, hw)).
    { eapply for_each_inv; [ | | exact E].
      - reflexivity.
      - intros pre a suf [[s0 p0] h0] s' _ HI Hb. unfold I in *. simpl in HI.
        unfold RHN.step in Hb.
        apply bind_Some in Hb. destruct Hb as ([xi s1] & _ & Hb).
        apply bind_Some in Hb. destruct Hb as ([s2 all_s] & _ & Hb).
        inv_some Hb. simpl.
        rewrite !length_app, HI. reflexivity. }
    unfold I in HI. simpl in HI. rewrite HI, length_seq. reflexivity. }
  destruct (stack_length _ _ E2) as (sh & Sv).
  rewrite Hlen in Sv. eapply permute4_shape; eassumption.
Qed.

Lemma encode_shape (m : HARHN.t) (x x' h_t_l : tensor) :
  pools_ok m = true ->
  HARHN.encode m x = Some (x', h_t_l) ->
  exists b u d, shape h_t_l = [b; HARHN.T m; u; d].
Proof.
  intros Hp. unfold HARHN.encode. intros H. do 2 inv_bind H.
  destruct (convs_shape m x v Hp E) as (n & ch & Sv).
  destruct (Linear_forward_shape _ _ _ E0) as (o & So).
  rewrite Sv in So. simpl in So.
  eapply RHN_forward_shape; eassumption.
Qed.

(** ** Attention weights *)

(** A softmax over a timestep dimension of length [n >= 1] is a
    distribution over the [n] timesteps. *)
Lemma softmax1_distribution (e alpha : tensor) (b n o : nat) :
  shape e = [b; n; o] -> 1 <= n ->
  softmax1 e = Some alpha -> distribution n alpha.
Proof.
  intros He Hn. unfold softmax1. rewrite He. intros H. inv_some H.
  assert (Hpos : forall idx,
             (0 < rsum n (fun j => exp (item e (set1 idx j))))%R).
  { intros idx. apply rsum_pos; [assumption|]. intros j. apply exp_pos. }
  split; [|split].
  - exists b, [o]. reflexivity.
  - intros idx. cbn [item]. apply Rlt_le, Rdiv_lt_0_compat;
      [apply exp_pos | apply Hpos].
  - intros i r. cbn [item set1].
    specialize (Hpos (i :: 0 :: r)). cbn [set1] in Hpos.
    unfold Rdiv. rewrite rsum_scale. apply Rinv_r. lra.
Qed.

Lemma repeat_shape (s s1 s_rep : tensor) (n : nat) :
  unsqueeze1 s = Some s1 -> repeat s1 [1; n; 1] = Some s_rep ->
  exists b u, shape s_rep = [b; n; u].
Proof.
  unfold unsqueeze1, repeat. intros H1 H2.
  destruct (shape s) as [|d0 sh]; [discriminate|]. inv_some H1.
  simpl in H2. destruct sh as [|d1 [|? ?]]; try discriminate.
  simpl in H2. inv_some H2. simpl. rewrite Nat.add_0_r. eauto.
Qed.

(** Lines 179-183 on per-depth states and a repeated decoder state with
    [n >= 1] timesteps: the weights are a distribution over them. *)
Lemma attend_distribution (m : HARHN.t) (h_t_l s_rep alpha d_t_k : tensor)
    (k n b u d b' u' : nat) :
  shape h_t_l = [b; n; u; d] -> shape s_rep = [b'; n; u'] -> 1 <= n ->
  HARHN.attend m h_t_l s_rep k = Some (alpha, d_t_k) ->
  distribution n alpha.
Proof.
  intros Hh Hs Hn. unfold HARHN.attend. intros H.
  inv_bind H. rename v into h_t_k, E into Eh.
  inv_bind H. clear v E. inv_bind H. clear v E.
  inv_bind H. rename v into vk. clear E.
  inv_bind H. rename v into ts, E into Ets.
  inv_bind H. rename v into uh, E into Euh.
  inv_bind H. rename v into a, E into Ea.
  inv_bind H. rename v into e, E into Ee.
  inv_bind H. rename v into al, E into Eal.
  inv_bind H. inv_bind H. inv_some H.
  assert (Sh : shape h_t_k = [b; n; u]).
  { unfold select_last in Eh. rewrite Hh in Eh.
    destruct (k <? _); [|discriminate]. inv_some Eh. reflexivity. }
  destruct (call_nth_shape _ _ _ _ Ets) as (o1 & S1).
  destruct (call_nth_shape _ _ _ _ Euh) as (o2 & S2).
  rewrite Hs in S1. rewrite Sh in S2. simpl in S1, S2.
  apply binop_shape in Ea. rewrite S1, S2 in Ea.
  destruct (broadcast_middle _ _ _ _ _ _ Ea) as (c0 & c2 & Sa).
  destruct (Linear_forward_shape _ _ _ Ee) as (o3 & Se).
  change (shape (tanh_t a)) with (shape a) in Se. rewrite Sa in Se.
  simpl in Se.
  eapply softmax1_distribution; eassumption.
Qed.

(** The loop over the depths appends one distribution per depth. *)
Lemma depth_log_loop (m : HARHN.t) (h_t_l s_rep : tensor)
    (n b u d b' u' : nat) (l : list nat) (log0 d_t log : list tensor) :
  shape h_t_l = [b; n; u; d] -> shape s_rep = [b'; n; u'] -> 1 <= n ->
  Forall (distribution n) log0 ->
  for_each l ([], log0) (HARHN.depth_log m h_t_l s_rep) = Some (d_t, log) ->
  Forall (distribution n) log /\ length log = length log0 + length l.
Proof.
  intros Hh Hs Hn H0 Hrun.
  set (I := fun (pre : list nat) (st : list tensor * list tensor) =>
         Forall (distribution n) (snd st)
         /\ length (snd st) = length log0 + length pre).
  apply (for_each_inv I (HARHN.depth_log m h_t_l s_rep) l ([], log0)
           (d_t, log)); [ | | exact Hrun].
  - split; [assumption | simpl; lia].
  - intros pre k suf [d0 lg] s' _ [HF HL] Hb. simpl in HF, HL.
    unfold HARHN.depth_log in Hb.
    apply bind_Some in Hb. destruct Hb as ([alpha dk] & Ea & Hb).
    inv_some Hb. split; simpl.
    + apply Forall_app; split; [assumption|]. constructor; [|constructor].
      eapply attend_distribution; eassumption.
    + rewrite !length_app, HL. simpl. lia.
Qed.

Lemma step_log_inv (m : HARHN.t) (h_t_l y : tensor) (t_ b u d : nat)
    (s s' : tensor) (d0 d1 : option tensor) (log log' : list tensor) :
  shape h_t_l = [b; HARHN.T m; u; d] -> 1 <= HARHN.T m ->
  Forall (distribution (HARHN.T m)) log ->
  HARHN.step_log m h_t_l y t_ (s, d0, log) = Some (s', d1, log') ->
  Forall (distribution (HARHN.T m)) log'
  /\ length log' = length log + Z.to_nat (HARHN.rec_depth m).
Proof.
  intros Hh HT HF. unfold HARHN.step_log. intros H.
  inv_bind H. rename v into s1, E into E1.
  inv_bind H. rename v into s_rep, E into E2.
  apply bind_Some in H. destruct H as ([d_t lg] & Eloop & H).
  do 5 inv_bind H.
  apply bind_Some in H. destruct H as ([s2 P] & _ & H). inv_some H.
  destruct (repeat_shape _ _ _ _ E1 E2) as (b' & u' & Srep).
  destruct (depth_log_loop m h_t_l s_rep _ _ _ _ _ _ _ _ _ _ Hh Srep HT HF
              Eloop) as [HF' HL].
  split; [assumption|]. rewrite HL. unfold range. rewrite length_seq.
  reflexivity.
Qed.

(** The log is an observation: without it the loop variables evolve
    as in [HARHN.forward]. *)
Lemma for_each_proj {S1 S2 A : Type} (p : S2 -> S1)
    (body1 : A -> S1 -> option S1) (body2 : A -> S2 -> option S2)
    (l : list A) (st : S2) :
  (forall a s, body1 a (p s) = option_map p (body2 a s)) ->
  for_each l (p st) body1 = option_map p (for_each l st body2).
Proof.
  intros Hb. revert st. induction l as [|a l IH]; intros st; simpl.
  - reflexivity.
  - rewrite Hb. destruct (body2 a st) as [st'|]; simpl; [apply IH|].
    reflexivity.
Qed.

Lemma step_log_erase (m : HARHN.t) (h_t_l y : tensor) (t_ : nat)
    (st : tensor * option tensor * list tensor) :
  HARHN.step m h_t_l y t_ (fst st)
  = option_map fst (HARHN.step_log m h_t_l y t_ st).
Proof.
  destruct st as [[s d] log]. unfold HARHN.step, HARHN.step_log.
  change (fst (s, d, log)) with (s, d). cbv beta iota.
  destruct (unsqueeze1 s) as [s1|]; [|reflexivity]. cbn [bind].
  destruct (repeat s1 [1; HARHN.T m; 1]) as [s_rep|]; [|reflexivity].
  cbn [bind].
  rewrite (for_each_proj fst (HARHN.depth m h_t_l s_rep)
             (HARHN.depth_log m h_t_l s_rep) _ ([], log)).
  - destruct (for_each _ ([], log) _) as [[d_t lg]|]; [|reflexivity].
    simpl. case_binds; try reflexivity.
    destruct p; reflexivity.
  - intros k [d_t lg]. unfold HARHN.depth, HARHN.depth_log. simpl.
    destruct (HARHN.attend m h_t_l s_rep k) as [[al dk]|]; reflexivity.
Qed.

Lemma forward_log_erase (m : HARHN.t) (x y : tensor) :
  HARHN.forward m x y = option_map fst (HARHN.forward_log m x y).
Proof.
  unfold HARHN.forward, HARHN.forward_log.
  destruct (HARHN.encode m x) as [[x' h_t_l]|]; [|reflexivity]. cbn [bind].
  destruct (size x' 0) as [batch|]; [|reflexivity]. cbn [bind].
  rewrite (for_each_proj fst (HARHN.step m h_t_l y)
             (HARHN.step_log m h_t_l y) _
             (zeros [batch; HARHN.n_units_dec m], None, []))
    by (intros; apply step_log_erase).
  destruct (for_each _ (_, None, []) _) as [[[s d_t] lg]|]; [|reflexivity].
  simpl. case_binds; reflexivity.
Qed.

(** ** The encoder with batch normalisation, on constant tensors *)

Lemma binop_full (f : R -> R -> R) (sh : list nat) (a b : R) :
  binop f (full sh a) (full sh b) = Some (full sh (f a b)).
Proof.
  unfold binop. simpl. rewrite broadcast_same. reflexivity.
Qed.

Lemma Linear_zero_weights (i o : nat) (b : option tensor) (bs : list nat)
    (v c : R) :
  b = None /\ c = 0%R \/ b = Some (full [o] c) ->
  Linear_forward (mkLinear (full [o; i] 0) b) (full (bs ++ [i]) v)
  = Some (full (bs ++ [o]) c).
Proof.
  intros Hb. unfold Linear_forward. simpl.
  rewrite last_last, removelast_last, Nat.eqb_refl.
  assert (Z0 : rsum i (fun _ => (v * 0)%R) = 0%R)
    by (apply rsum_zero; intros; ring).
  destruct (bs ++ [i]) as [|d sh] eqn:E; [destruct bs; discriminate|].
  destruct Hb as [[-> ->]| ->]; simpl.
  - f_equal. apply tensor_ext; [reflexivity|]. intros idx. simpl. exact Z0.
  - rewrite Nat.eqb_refl. simpl.
    f_equal. apply tensor_ext; [reflexivity|]. intros idx. simpl.
    rewrite Z0. ring.
Qed.

Lemma select1_full (b n f t_ : nat) (v : R) :
  t_ < n -> select1 (full [b; n; f] v) t_ = Some (full [b; f] v).
Proof.
  intros H. unfold select1. simpl. destruct (Nat.ltb_spec t_ n); [|lia].
  f_equal. apply tensor_ext; [reflexivity|]. intros [|i0 r]; reflexivity.
Qed.

Lemma BatchNorm1d_zeros (n c : nat) (g b e : R) (rm rv : tensor) :
  shape rm = [c] -> shape rv = [c] -> n <> 1 ->
  BatchNorm1d_forward (mkBN (full [c] g) (full [c] b) rm rv e true)
    (full [n; c] 0)
  = Some (full [n; c] b).
Proof.
  intros Hm Hv Hn. unfold BatchNorm1d_forward. simpl. rewrite Hm, Hv.
  destruct (Nat.eqb_spec n 1); [contradiction|]. simpl.
  rewrite !Nat.eqb_refl. simpl.
  f_equal. apply tensor_ext; [reflexivity|]. intros idx. simpl.
  rewrite (rsum_zero n (fun _ => 0%R)) by reflexivity.
  unfold Rdiv. ring.
Qed.


Lemma cell1_forward (v : R) :
  exists P,
    RHNCell.forward Example.cell1 (full [2; 1] 0) (full [2; 1] v)
    = Some (full [2; 1] (v / 2), P)
    /\ shape P = [1; 2; 1].
Proof.
  pose proof (Linear_zero_weights 1 1 None [2] 0 0
                (or_introl (conj eq_refl eq_refl))) as EW.
  pose proof (Linear_zero_weights 1 1 (Some (full [1] 0)) [2] v 0
                (or_intror eq_refl)) as ER.
  simpl app in EW, ER.
  cbv [RHNCell.forward range Example.cell1 RHNCell.rec_depth Z.to_nat
       Pos.to_nat Pos.iter_op seq for_each Nat.add RHNCell.layer call_nth
       RHNCell.W_H RHNCell.W_T RHNCell.R_H RHNCell.R_T RHNCell.couple_gates
       RHNCell.use_HSG Nat.eqb nth_error negb bind Example.dense_nobias
       Example.dense].
  rewrite EW, ER. cbv beta iota. unfold add, mul.
  rewrite binop_full. cbv beta iota.
  change (tanh_t (full [2; 1] (0 + 0))) with (full [2; 1] (tanh (0 + 0))).
  change (sigmoid_t (full [2; 1] (0 + 0)))
    with (full [2; 1] (sigmoid (0 + 0))).
  rewrite binop_full. cbv beta iota.
  change (one_minus (full [2; 1] (sigmoid (0 + 0))))
    with (full [2; 1] (1 - sigmoid (0 + 0))).
  rewrite binop_full. cbv beta iota.
  rewrite binop_full. cbv beta iota.
  rewrite Rplus_0_l, tanh_0, sigmoid_0.
  replace (0 * (1 / 2) + (1 - 1 / 2) * v)%R with (v / 2)%R by lra.
  eexists. split; reflexivity.
Qed.

Lemma permute_item (t t' : tensor) (dims idx : list nat) :
  permute t dims = Some t' ->
  item t' idx
  = item t (map (fun j => nth (index_of j dims) idx 0)
              (seq 0 (length (shape t)))).
Proof.
  unfold permute. destruct (_ && _); [|discriminate].
  intros H. inv_some H. reflexivity.
Qed.

(** With batch normalisation the encoder leaves [[-1, 1]]: in training
    mode, on a zero input of two samples and one timestep, with zero
    weights in the cell and a shift of 5 in [bn_s], the state entering
    the cell is 5 and the state returned is [0 * 1/2 + (1 - 1/2) * 5]. *)
Lemma coupled_cell_keeps_states_bounded_counterexample :
  rhn_ok Example.rhn_bn 2 = true
  /\ RHN.couple_gates Example.rhn_bn = true
  /\ shape Example.x_bn = [2; 1; RHN.in_feats Example.rhn_bn]
  /\ exists out hs,
       RHN.forward Example.rhn_bn Example.x_bn = Some (out, hs)
       /\ item out [0; 0; 0] = (5 / 2)%R
       /\ ~ bounded out.
Proof.
  do 3 (split; [reflexivity|]).
  destruct (cell1_forward 5) as (P & EP & SP).
  pose proof (BatchNorm1d_zeros 2 1 1 0 (1 / 100000) (full [1] 0) (full [1] 1)
                eq_refl eq_refl) as EX.
  pose proof (BatchNorm1d_zeros 2 1 1 5 (1 / 100000) (full [1] 0) (full [1] 1)
                eq_refl eq_refl) as ES.
  destruct (stack_ok [full [2; 1] (5 / 2)] [2; 1]) as (P1 & E1 & S1);
    [discriminate | repeat constructor |].
  destruct (permute3_ok P1 _ _ _ S1) as (out & Eo & So & _).
  destruct (stack_ok [P] [1; 2; 1]) as (P2 & E2 & S2);
    [discriminate | repeat constructor; assumption |].
  destruct (permute4_ok P2 _ _ _ _ S2) as (hs & Eh & Sh & _).
  assert (Ev : item out [0; 0; 0] = (5 / 2)%R).
  { rewrite (permute_item _ _ _ _ Eo), S1.
    destruct (stack_shapes _ _ E1) as (t0 & _ & _ & _ & Hi).
    cbn [length seq map index_of Nat.eqb nth]. rewrite Hi. reflexivity. }
  exists out, hs. split; [|split].
  - cbv [RHN.forward size Example.x_bn zeros shape nth_error bind seq for_each
         RHN.step RHN.use_batch_norm Example.rhn_bn RHN.bn_x RHN.bn_s
         RHN.n_units RHN.cell Example.bn_plain Example.bn_shift5].
    change (mkT [2; 1; 1] (fun _ => 0%R)) with (full [2; 1; 1] 0).
    change (mkT [2; 1] (fun _ => 0%R)) with (full [2; 1] 0).
    change (mkT [1] (fun _ => 0%R)) with (full [1] 0).
    rewrite select1_full by lia. cbv beta iota.
    rewrite EX by lia. cbv beta iota. rewrite ES by lia. cbv beta iota.
    rewrite EP. cbv beta iota. cbv [app].
    rewrite E1, Eo, E2, Eh. reflexivity.
  - exact Ev.
  - intros Hb. specialize (Hb [0; 0; 0]). rewrite Ev in Hb.
    assert (-1 <= 5 / 2 <= 1)%R; [|lra].
    apply Hb. rewrite So. repeat constructor.
Qed.

(** ** A valid network returns *)

Lemma permute021_ok (t : tensor) (a b c : nat) :
  shape t = [a; b; c] ->
  exists t', permute t [0; 2; 1] = Some t' /\ shape t' = [a; c; b].
Proof.
  intros Ht. unfold permute. rewrite Ht. simpl.
  eexists; split; reflexivity.
Qed.

Lemma ConvBlock_forward_ok (c : ConvBlock.t) (c_in n_f len T B : nat)
    (x : tensor) :
  block_ok c c_in n_f len T = true -> shape x = [B; len; c_in] ->
  exists x', ConvBlock.forward c x = Some x' /\ shape x' = [B; T; n_f].
Proof.
  unfold block_ok, ConvBlock.forward. intros H Hx.
  destruct (shape (conv_weight (ConvBlock.conv c)))
    as [|c_out [|ci [|k [|? ?]]]] eqn:Ew; try discriminate.
  do 6 (apply andb_true_iff in H; destruct H as [H ?]).
  repeat match goal with
         | Hx : (_ =? _) = true |- _ => apply Nat.eqb_eq in Hx
         | Hx : (_ <=? _) = true |- _ => apply Nat.leb_le in Hx
         end.
  subst c_out ci.
  use_ok (permute021_ok x _ _ _ Hx).
  set (p := Z.to_nat (padding (ConvBlock.conv c))) in *.
  assert (Ec : exists x1, Conv1d_forward (ConvBlock.conv c) t = Some x1
                 /\ shape x1 = [B; n_f; len + 2 * p - (k - 1)]).
  { unfold Conv1d_forward. rewrite Ew, Hs.
    match goal with
    | |- context [if ?g then _ else _] =>
        assert (Eg : g = true); [|rewrite Eg]
    end.
    { repeat (apply andb_true_iff; split); try assumption.
      - apply Nat.eqb_refl.
      - apply Nat.leb_le; assumption.
      - apply Nat.leb_le; assumption. }
    eexists; split; reflexivity. }
  destruct Ec as (x1 & E1 & S1). rewrite E1; cbn [bind].
  unfold AdaptiveMaxPool1d_forward.
  change (shape (relu_t x1)) with (shape x1). rewrite S1.
  destruct (Nat.leb_spec 1 (len + 2 * p - (k - 1))); [|lia].
  cbn [bind].
  match goal with
  | |- exists x', permute ?p _ = _ /\ _ =>
      destruct (permute021_ok p B n_f (ConvBlock.maxpool c) eq_refl)
        as (x' & E' & S')
  end.
  exists x'. split; [exact E'|]. rewrite S'. congruence.
Qed.

Lemma skipn_nth_error {A : Type} (l : list A) (i : nat) :
  i < length l ->
  exists a, nth_error l i = Some a /\ skipn i l = a :: skipn (S i) l.
Proof.
  revert i. induction l as [|a l IH]; intros i Hi; simpl in Hi; [lia|].
  destruct i as [|i]; simpl.
  - exists a. split; reflexivity.
  - apply IH. lia.
Qed.

(** The loop over the convolution blocks. *)
Lemma convs_loop_ok (m : HARHN.t) (B len in_feats n_f : nat) (x : tensor) :
  (0 < HARHN.n_convs m)%Z ->
  length (HARHN.convs m) = Z.to_nat (HARHN.n_convs m) ->
  convs_ok (HARHN.convs m) in_feats n_f len (HARHN.T m) = true ->
  shape x = [B; len; in_feats] ->
  exists x1,
    for_each (range (HARHN.n_convs m)) x (fun conv x0 =>
      c <- nth_error (HARHN.convs m) conv ;; ConvBlock.forward c x0) = Some x1
    /\ shape x1 = [B; HARHN.T m; n_f].
Proof.
  intros Hn Hlen Hok Hx.
  set (T := HARHN.T m) in *.
  set (I := fun (pre : list nat) (x0 : tensor) =>
         match pre with
         | [] => shape x0 = [B; len; in_feats]
                 /\ convs_ok (HARHN.convs m) in_feats n_f len T = true
         | _ => shape x0 = [B; T; n_f]
                /\ convs_ok (skipn (length pre) (HARHN.convs m)) n_f n_f T T
                   = true
         end).
  destruct (for_each_total I
              (fun conv x0 =>
                 c <- nth_error (HARHN.convs m) conv ;; ConvBlock.forward c x0)
              (range (HARHN.n_convs m)) x) as (x1 & E & HI).
  { split; assumption. }
  { intros pre a suf x0 Esplit HIpre.
    apply range_split in Esplit. destruct Esplit as [-> Hlt].
    destruct (skipn_nth_error (HARHN.convs m) (length pre)) as (c & Ec & Es);
      [lia|].
    rewrite Ec; cbn [bind].
    assert (G : exists ci l0,
               shape x0 = [B; l0; ci]
               /\ block_ok c ci n_f l0 T = true
               /\ convs_ok (skipn (S (length pre)) (HARHN.convs m))
                    n_f n_f T T = true).
    { unfold I in HIpre. destruct pre as [|p pre'].
      - destruct HIpre as [Sx0 Hc]. simpl in Es. rewrite Es in Hc.
        simpl in Hc. apply andb_true_iff in Hc. destruct Hc as [Hb Hr].
        exists in_feats, len. auto.
      - destruct HIpre as [Sx0 Hc]. rewrite Es in Hc.
        simpl in Hc. apply andb_true_iff in Hc. destruct Hc as [Hb Hr].
        exists n_f, T. auto. }
    destruct G as (ci & l0 & Sx0 & Hb & Hr).
    destruct (ConvBlock_forward_ok c ci n_f l0 T B x0 Hb Sx0) as (x' & E' & S').
    exists x'. split; [exact E'|]. unfold I.
    destruct (pre ++ [length pre]) as [|q r] eqn:Eq.
    - destruct pre; discriminate.
    - rewrite <- Eq, length_app. simpl length.
      replace (length pre + 1) with (S (length pre)) by lia. auto. }
  exists x1. split; [exact E|]. unfold I in HI.
  destruct (range (HARHN.n_convs m)) as [|q r] eqn:Er.
  - unfold range in Er. apply (f_equal (@length nat)) in Er.
    rewrite length_seq in Er. simpl in Er. lia.
  - apply HI.
Qed.

Lemma broadcast_last_one (a b c : nat) :
  broadcast_shapes [a; b; c] [a; b; 1] = Some [a; b; c].
Proof.
  unfold broadcast_shapes. cbn [rev app broadcast_rev bind].
  rewrite !Nat.eqb_refl. cbn [bind].
  destruct (Nat.eqb_spec c 1) as [->|Hc]; [reflexivity|].
  destruct (c =? 1) eqn:E; [apply Nat.eqb_eq in E; contradiction|].
  reflexivity.
Qed.

Lemma call_nth_some (Ls : list Linear) (count i o k : nat) :
  layers_ok Ls count i o = true -> k < count ->
  exists L, nth_error Ls k = Some L.
Proof.
  unfold layers_ok. intros H Hk. apply andb_true_iff in H.
  destruct H as [Hl _]. apply Nat.eqb_eq in Hl.
  destruct (nth_error Ls k) as [L|] eqn:E; [eauto|].
  apply nth_error_None in E. lia.
Qed.

Lemma layers_ok_nth (Ls : list Linear) (count i o k : nat) (L : Linear) :
  layers_ok Ls count i o = true -> nth_error Ls k = Some L ->
  Linear_ok L i o = true.
Proof.
  unfold layers_ok. intros H E. apply andb_true_iff in H.
  destruct H as [_ Hall]. rewrite forallb_forall in Hall.
  apply Hall. eapply nth_error_In; eassumption.
Qed.

(** Lines 179-184 in a valid network: the context of depth [k] has one
    row per sample and one column per encoder unit. *)
Lemma attend_ok (m : HARHN.t) (h_t_l s_rep : tensor) (B k : nat) :
  let D := Z.to_nat (HARHN.rec_depth m) in
  let ne := HARHN.n_units_enc m in
  layers_ok (HARHN.T_k m) D (HARHN.n_units_dec m) ne = true ->
  layers_ok (HARHN.U_k m) D ne ne = true ->
  layers_ok (HARHN.v_k m) D ne 1 = true ->
  shape h_t_l = [B; HARHN.T m; ne; D] ->
  shape s_rep = [B; HARHN.T m; HARHN.n_units_dec m] ->
  k < D ->
  exists alpha d_t_k,
    HARHN.attend m h_t_l s_rep k = Some (alpha, d_t_k)
    /\ shape d_t_k = [B; ne].
Proof.
  intros D ne HT HU Hv Hh Hs Hk. unfold HARHN.attend.
  assert (Eh : exists h_t_k, select_last h_t_l k = Some h_t_k
                 /\ shape h_t_k = [B; HARHN.T m; ne]).
  { unfold select_last. rewrite Hh. simpl.
    destruct (Nat.ltb_spec k D); [|lia].
    eexists; split; reflexivity. }
  destruct Eh as (h_t_k & Eh & Sh). rewrite Eh; cbn [bind].
  destruct (call_nth_ok (HARHN.U_k m) D ne ne k [B; HARHN.T m] h_t_k HU Hk Sh)
    as (uh & EU & SU).
  destruct (call_nth_ok (HARHN.T_k m) D _ ne k [B; HARHN.T m] s_rep HT Hk Hs)
    as (ts & ET & ST).
  rewrite EU, ET; cbn [bind].
  destruct (call_nth_some _ _ _ _ k Hv Hk) as (v & Ev).
  rewrite Ev; cbn [bind].
  destruct (binop_same Rplus ts uh) as (a & Ea & Sa & _); [congruence|].
  unfold add. rewrite Ea; cbn [bind].
  destruct (Linear_forward_ok v ne 1 [B; HARHN.T m] (tanh_t a))
    as (e & Ee & Se);
    [eapply layers_ok_nth; eassumption | simpl in *; congruence |].
  rewrite Ee; cbn [bind].
  unfold softmax1. rewrite Se. cbn [app bind].
  unfold mul, binop. cbn [shape]. rewrite Sh, broadcast_last_one.
  cbn [bind]. unfold sum1. cbn [shape bind].
  eexists; eexists; split; reflexivity.
Qed.

Lemma cat1_ok (ts : list tensor) (B w : nat) :
  ts <> [] -> Forall (fun t => shape t = [B; w]) ts ->
  exists t, cat1 ts = Some t /\ shape t = [B; length ts * w].
Proof.
  intros Hne Hall. unfold cat1. destruct ts as [|t0 ts']; [congruence|].
  assert (S0 : shape t0 = [B; w]) by (inversion Hall; assumption).
  rewrite S0.
  assert (E : forallb (fun t => match shape t with
                                | [r; _] => r =? B
                                | _ => false
                                end) (t0 :: ts') = true).
  { apply forallb_forall. intros t Ht. rewrite Forall_forall in Hall.
    rewrite (Hall t Ht). apply Nat.eqb_refl. }
  rewrite E. eexists; split; [reflexivity|]. cbn [shape]. f_equal. f_equal.
  clear E S0 Hne. induction Hall as [|t l Ht _ IH]; [reflexivity|].
  simpl. rewrite Ht, IH. reflexivity.
Qed.

Lemma repeat_ok (s : tensor) (B n T : nat) :
  shape s = [B; n] ->
  exists s1 s_rep,
    unsqueeze1 s = Some s1 /\ repeat s1 [1; T; 1] = Some s_rep
    /\ shape s_rep = [B; T; n].
Proof.
  intros Hs. unfold unsqueeze1, repeat. rewrite Hs.
  eexists; eexists. split; [reflexivity|]. split; [reflexivity|].
  cbn [shape combine map fst snd].
  rewrite !Nat.mul_1_r, Nat.mul_1_l. reflexivity.
Qed.

(** The facts that [harhn_ok] packs. *)
Lemma harhn_ok_inv (m : HARHN.t) (batch len in_feats target_feats n_f : nat) :
  harhn_ok m batch len in_feats target_feats n_f = true ->
  let D := Z.to_nat (HARHN.rec_depth m) in
  let ne := HARHN.n_units_enc m in
  let nd := HARHN.n_units_dec m in
  ((0 < HARHN.n_convs m)%Z
   /\ length (HARHN.convs m) = Z.to_nat (HARHN.n_convs m)
   /\ convs_ok (HARHN.convs m) in_feats n_f len (HARHN.T m) = true
   /\ 1 <= HARHN.T m
   /\ Linear_ok (HARHN.conv_to_enc m) n_f (RHN.in_feats (HARHN.RHNEncoder m))
      = true
   /\ rhn_ok (HARHN.RHNEncoder m) batch = true
   /\ RHN.n_units (HARHN.RHNEncoder m) = ne
   /\ RHN.rec_depth (HARHN.RHNEncoder m) = HARHN.rec_depth m)
  /\ (cell_ok (HARHN.RHNDecoder m) = true
      /\ RHNCell.in_feats (HARHN.RHNDecoder m) = target_feats
      /\ RHNCell.n_units (HARHN.RHNDecoder m) = nd
      /\ layers_ok (HARHN.T_k m) D nd ne = true
      /\ layers_ok (HARHN.U_k m) D ne ne = true
      /\ layers_ok (HARHN.v_k m) D ne 1 = true
      /\ Linear_ok (HARHN.W_tilda m) target_feats target_feats = true
      /\ Linear_ok (HARHN.V_tilda m) (D * ne) target_feats = true)
  /\ Linear_ok (HARHN.W m) nd target_feats = true
  /\ Linear_ok (HARHN.V m) (D * ne) target_feats = true.
Proof.
  intros H. unfold harhn_ok in H. cbv zeta in H |- *.
  do 17 (apply andb_true_iff in H; destruct H as [H ?]).
  repeat match goal with
         | Hx : (_ =? _)%Z = true |- _ => apply Z.eqb_eq in Hx
         | Hx : (_ <? _)%Z = true |- _ => apply Z.ltb_lt in Hx
         | Hx : (_ =? _) = true |- _ => apply Nat.eqb_eq in Hx
         | Hx : (_ <=? _) = true |- _ => apply Nat.leb_le in Hx
         end.
  tauto.
Qed.

(** One decoder timestep of a valid network. *)
Lemma step_log_ok (m : HARHN.t) (h_t_l y : tensor) (t_ B target_feats : nat)
    (s : tensor) (d0 : option tensor) (log : list tensor) :
  let D := Z.to_nat (HARHN.rec_depth m) in
  let ne := HARHN.n_units_enc m in
  let nd := HARHN.n_units_dec m in
  1 <= D ->
  cell_ok (HARHN.RHNDecoder m) = true
  /\ RHNCell.in_feats (HARHN.RHNDecoder m) = target_feats
  /\ RHNCell.n_units (HARHN.RHNDecoder m) = nd
  /\ layers_ok (HARHN.T_k m) D nd ne = true
  /\ layers_ok (HARHN.U_k m) D ne ne = true
  /\ layers_ok (HARHN.v_k m) D ne 1 = true
  /\ Linear_ok (HARHN.W_tilda m) target_feats target_feats = true
  /\ Linear_ok (HARHN.V_tilda m) (D * ne) target_feats = true ->
  shape h_t_l = [B; HARHN.T m; ne; D] ->
  shape y = [B; HARHN.T m; target_feats] ->
  t_ < HARHN.T m ->
  shape s = [B; nd] ->
  exists s' d_t log',
    HARHN.step_log m h_t_l y t_ (s, d0, log) = Some (s', Some d_t, log')
    /\ shape s' = [B; nd]
    /\ shape d_t = [B; D * ne].
Proof.
  intros D ne nd HD (Hdec & Edi & Edn & HT & HU & Hv & HWt & HVt) Hh Hy Ht Hs.
  unfold HARHN.step_log.
  destruct (repeat_ok s B nd (HARHN.T m) Hs) as (s1 & s_rep & E1 & E2 & Srep).
  rewrite E1; cbn [bind]. rewrite E2; cbn [bind].
  set (I := fun (pre : list nat) (st : list tensor * list tensor) =>
         Forall (fun t => shape t = [B; ne]) (fst st)
         /\ length (fst st) = length pre).
  destruct (for_each_total I (HARHN.depth_log m h_t_l s_rep)
              (range (HARHN.rec_depth m)) ([], log)) as ([d_t lg] & El & HI).
  { split; [constructor | reflexivity]. }
  { intros pre k suf [d lg] Esplit [HF HL]. simpl in HF, HL.
    apply range_split in Esplit. destruct Esplit as [-> Hk].
    destruct (attend_ok m h_t_l s_rep B (length pre) HT HU Hv Hh Srep Hk)
      as (alpha & dk & Ea & Sdk).
    unfold HARHN.depth_log. rewrite Ea; cbn [bind].
    eexists; split; [reflexivity|]. split; simpl.
    - apply Forall_app; split; [assumption | constructor; auto].
    - rewrite !length_app, HL. reflexivity. }
  rewrite El; cbn [bind]. destruct HI as [HF HL]. simpl in HF, HL.
  unfold range in HL. rewrite length_seq in HL. fold D in HL.
  destruct (cat1_ok d_t B ne) as (dt & Ec & Sc);
    [destruct d_t; simpl in *; [lia | discriminate] | assumption |].
  rewrite HL in Sc. rewrite Ec; cbn [bind].
  destruct (select1_ok y _ _ _ t_ Hy Ht) as (y_t & Ey & Sy).
  rewrite Ey; cbn [bind].
  use_ok (Linear_forward_ok (HARHN.W_tilda m) _ _ [B] y_t HWt Sy).
  use_ok (Linear_forward_ok (HARHN.V_tilda m) _ _ [B] dt HVt Sc).
  destruct (binop_same Rplus t t0) as (yt & Eyt & Syt & _); [congruence|].
  unfold add. rewrite Eyt; cbn [bind].
  destruct (cell_forward_ok (HARHN.RHNDecoder m) yt s [B] Hdec)
    as (s' & P & Ecell & Ss' & _).
  { rewrite Edi. simpl in *. congruence. }
  { rewrite Edn. assumption. }
  rewrite Ecell; cbn [bind].
  exists s', dt, lg. split; [reflexivity|]. rewrite Edn in Ss'.
  split; assumption.
Qed.

(** A valid network returns one prediction per sample and target
    feature. *)
Lemma forward_log_ok (m : HARHN.t) (x y : tensor)
    (B len in_feats target_feats n_f : nat) :
  harhn_ok m B len in_feats target_feats n_f = true ->
  shape x = [B; len; in_feats] ->
  shape y = [B; HARHN.T m; target_feats] ->
  exists y_t log,
    HARHN.forward_log m x y = Some (y_t, log)
    /\ shape y_t = [B; target_feats].
Proof.
  intros Hok Hx Hy.
  destruct (harhn_ok_inv m B len in_feats target_feats n_f Hok)
    as ((Hn & Hlen & Hcs & HT & Hc2e & Henc & Een & Eed) & Hstep & HW & HV).
  cbv zeta in Hstep, HW, HV.
  unfold HARHN.forward_log, HARHN.encode.
  destruct (convs_loop_ok m B len in_feats n_f x Hn Hlen Hcs Hx)
    as (x1 & E1 & S1).
  rewrite E1; cbn [bind].
  use_ok (Linear_forward_ok (HARHN.conv_to_enc m) _ _ [B; HARHN.T m] x1
            Hc2e S1).
  destruct (rhn_forward_ok (HARHN.RHNEncoder m) t B (HARHN.T m) Henc Hs HT)
    as (out & hs & Eenc & So & Sh & _).
  rewrite Eenc; cbn [bind]. rewrite Een, Eed in Sh.
  unfold size. rewrite So. cbn [nth_error bind].
  assert (HD : 1 <= Z.to_nat (HARHN.rec_depth m)).
  { destruct (rhn_ok_inv _ _ Henc) as (Hc & Ecd & _).
    destruct (cell_ok_inv _ Hc) as (HD & _). cbv zeta in HD.
    rewrite Ecd, Eed in HD. lia. }
  set (I := fun (pre : list nat)
                (st : tensor * option tensor * list tensor) =>
         let '(s, d_t, _) := st in
         shape s = [B; HARHN.n_units_dec m]
         /\ (pre <> [] ->
             exists d, d_t = Some d
                       /\ shape d = [B; Z.to_nat (HARHN.rec_depth m)
                                        * HARHN.n_units_enc m])).
  destruct (for_each_total I (HARHN.step_log m hs y) (seq 0 (HARHN.T m))
              (zeros [B; HARHN.n_units_dec m], None, []))
    as ([[s d_t] lg] & El & HI).
  { split; [reflexivity|]. intros Hne; contradiction Hne; reflexivity. }
  { intros pre t_ suf [[s0 d0] lg0] Esplit [Ss0 _].
    apply seq_split in Esplit. destruct Esplit as [_ Hlt].
    destruct (step_log_ok m hs y t_ B target_feats s0 d0 lg0 HD Hstep Sh Hy
                Hlt Ss0) as (s' & d & lg' & Est & Ss' & Sd).
    rewrite Est. eexists; split; [reflexivity|]. unfold I.
    split; [assumption|]. intros _. eauto. }
  rewrite El; cbn [bind]. destruct HI as [Ss Hd].
  destruct Hd as (d & -> & Sd).
  { destruct (HARHN.T m); [lia | discriminate]. }
  cbn [bind].
  use_ok (Linear_forward_ok (HARHN.W m) _ _ [B] s HW Ss).
  use_ok (Linear_forward_ok (HARHN.V m) _ _ [B] d HV Sd).
  destruct (binop_same Rplus t0 t1) as (y_t & Ey & Sy & _); [congruence|].
  unfold add. rewrite Ey; cbn [bind].
  exists y_t, lg. split; [reflexivity|]. simpl in *. congruence.
Qed.

(** ** Attention weights in a valid network *)

Lemma convs_pool (cs : list ConvBlock.t) (c_in n_f len T : nat) :
  convs_ok cs c_in n_f len T = true ->
  forallb (fun c => ConvBlock.maxpool c =? T) cs = true.
Proof.
  revert c_in len. induction cs as [|c cs IH]; intros c_in len H; simpl in *.
  - reflexivity.
  - apply andb_true_iff in H. destruct H as [Hb Hr].
    rewrite (IH _ _ Hr), andb_true_r. unfold block_ok in Hb.
    destruct (shape (conv_weight (ConvBlock.conv c)))
      as [|? [|? [|? [|? ?]]]]; try discriminate.
    apply andb_true_iff in Hb. destruct Hb as [_ Hb]. exact Hb.
Qed.

(** In every run of [HARHN.forward] on a model whose convolution blocks
    pool back to the lookback T, the T * D logged weight tensors are
    distributions over the T encoder timesteps. *)
Lemma logged_weights_are_distributions (m : HARHN.t)
    (x y y_t : tensor) (log : list tensor) :
  pools_ok m = true ->
  HARHN.forward_log m x y = Some (y_t, log) ->
  HARHN.forward m x y = Some y_t
  /\ length log = HARHN.T m * Z.to_nat (HARHN.rec_depth m)
  /\ Forall (distribution (HARHN.T m)) log.
Proof.
  intros Hp H. split; [rewrite forward_log_erase, H; reflexivity|].
  unfold HARHN.forward_log in H.
  apply bind_Some in H. destruct H as ([x' h_t_l] & Eenc & H).
  inv_bind H. rename v into batch.
  apply bind_Some in H. destruct H as ([[s d_t] lg] & Eloop & H).
  assert (El : lg = log) by (do 4 inv_bind H; inv_some H; reflexivity).
  subst lg. clear H.
  destruct (encode_shape m x x' h_t_l Hp Eenc) as (b & u & d & Sh).
  set (I := fun (pre : list nat) (st : tensor * option tensor * list tensor) =>
         Forall (distribution (HARHN.T m)) (snd st)
         /\ length (snd st) = length pre * Z.to_nat (HARHN.rec_depth m)).
  assert (HI : I (seq 0 (HARHN.T m)) (s, d_t, log)).
  { eapply for_each_inv; [ | | exact Eloop].
    - split; [constructor | reflexivity].
    - intros pre t_ suf [[s0 d0] lg0] [[s1 d1] lg1] Esplit [HF HL] Hb.
      simpl in HF, HL. apply seq_split in Esplit. destruct Esplit as [_ Hlt].
      destruct (step_log_inv m h_t_l y t_ b u d s0 s1 d0 d1 lg0 lg1 Sh)
        as [HF' HL']; [lia | assumption | assumption |].
      split; simpl; [assumption|].
      rewrite HL', HL, length_app. simpl. lia. }
  destruct HI as [HF HL]. simpl in HF, HL.
  rewrite length_seq in HL. split; assumption.
Qed.

(** C6.  Every attention weight tensor [alpha_t_k] that a run of
    [HARHN.forward] computes (one per decoder timestep and recurrence
    depth, T * D in all, logged in [log]) is, for every batch element, a
    probability distribution over the T encoder timesteps: its entries
    are non-negative and sum to 1 along the timestep axis.  This holds in
    every run on a model whose convolution blocks pool back to the
    lookback T; and a valid network returns on every input of its
    widths. *)
Theorem attention_weights_are_distributions (m : HARHN.t) (x y : tensor) :
  (forall y_t log,
      pools_ok m = true ->
      HARHN.forward_log m x y = Some (y_t, log) ->
      HARHN.forward m x y = Some y_t
      /\ length log = HARHN.T m * Z.to_nat (HARHN.rec_depth m)
      /\ Forall (distribution (HARHN.T m)) log)
  /\ (forall B len in_feats target_feats n_filters,
        harhn_ok m B len in_feats target_feats n_filters = true ->
        shape x = [B; len; in_feats] ->
        shape y = [B; HARHN.T m; target_feats] ->
        exists y_t log,
          HARHN.forward_log m x y = Some (y_t, log)
          /\ HARHN.forward m x y = Some y_t
          /\ shape y_t = [B; target_feats]
          /\ length log = HARHN.T m * Z.to_nat (HARHN.rec_depth m)
          /\ Forall (distribution (HARHN.T m)) log).
Proof.
  split.
  - intros y_t log. apply logged_weights_are_distributions.
  - intros B len in_feats target_feats n_filters Hok Hx Hy.
    destruct (forward_log_ok m x y B len in_feats target_feats n_filters
                Hok Hx Hy) as (y_t & log & E & Sy).
    assert (Hp : pools_ok m = true).
    { destruct (harhn_ok_inv _ _ _ _ _ _ Hok)
        as ((Hn & _ & Hcs & _) & _). unfold pools_ok.
      rewrite (proj2 (Z.ltb_lt _ _) Hn). simpl.
      apply (convs_pool _ _ _ _ _ Hcs). }
    destruct (logged_weights_are_distributions m x y y_t log Hp E)
      as (Ef & Hl & HF).
    exists y_t, log. repeat split; assumption.
Qed.

Lemma attention_weights_are_distributions_witness :
  harhn_ok Scenario.model 2 5 3 1 4 = true
  /\ exists y_t log,
       HARHN.forward_log Scenario.model Scenario.x Scenario.y
       = Some (y_t, log)
       /\ HARHN.forward Scenario.model Scenario.x Scenario.y = Some y_t
       /\ shape y_t = [2; 1]
       /\ length log = 10
       /\ Forall (distribution 5) log.
Proof.
  split; [vm_compute; reflexivity|].
  apply (proj2 (attention_weights_are_distributions Scenario.model Scenario.x
                  Scenario.y) 2 5 3 1 4);
    [vm_compute; reflexivity | reflexivity | reflexivity].
Defined.

(** ** From construction to prediction *)

(** A network built with positive counts, a lookback of at least one and
    a kernel that fits the padded lookback returns, on every batch of
    windows of its lookback, one prediction per sample and target
    feature. *)
Corollary built_network_predicts (n_conv_layers : Z) (lookback in_feats
    target_feats n_units_enc n_units_dec enc_input_size : nat) (rec_depth : Z)
    (out_feats n_filters filter_size B : nat) (g g' : Init.rng)
    (m : HARHN.t) (x y : tensor) :
  (0 < n_conv_layers)%Z -> (0 < rec_depth)%Z ->
  1 <= lookback -> 1 <= filter_size ->
  filter_size <= lookback + 2 * ((filter_size - 1) / 2) ->
  HARHN.__init__ n_conv_layers lookback in_feats target_feats n_units_enc
    n_units_dec enc_input_size rec_depth out_feats n_filters filter_size g
  = inr (m, g') ->
  shape x = [B; lookback; in_feats] ->
  shape y = [B; lookback; target_feats] ->
  exists y_t, HARHN.forward m x y = Some y_t /\ shape y_t = [B; target_feats].
Proof.
  intros Hn Hd HT Hk Hfit Einit Hx Hy.
  destruct (HARHN_run n_conv_layers lookback in_feats target_feats
              n_units_enc n_units_dec enc_input_size rec_depth out_feats
              n_filters filter_size B g Hn Hd HT Hk Hfit)
    as (m0 & g0 & E0 & Hok & ET).
  rewrite Einit in E0. injection E0 as Em _. subst m0.
  rewrite <- ET in Hy.
  destruct (forward_log_ok m x y B lookback in_feats target_feats n_filters
              Hok Hx Hy) as (y_t & log & E & Sy).
  exists y_t. split; [|exact Sy].
  rewrite forward_log_erase, E. reflexivity.
Qed.

(** * Further properties *)

(** X1.  The highway-state gate returns, entry by entry, a value between the
    candidate state and the previous state. *)
Theorem HSGLayer_forward_interpolates (h : HSGLayer.t) (n : nat)
    (bs : list nat) (s_l s_prev : tensor) :
  hsg_ok h n = true ->
  shape s_l = bs ++ [n] -> shape s_prev = bs ++ [n] ->
  exists g,
    HSGLayer.forward h s_l s_prev = Some g
    /\ shape g = bs ++ [n]
    /\ forall idx, inb (bs ++ [n]) idx ->
         (Rmin (item s_l idx) (item s_prev idx) <= item g idx
          <= Rmax (item s_l idx) (item s_prev idx))%R.
Proof.
  unfold hsg_ok, HSGLayer.forward. intros H Hl Hp.
  apply andb_true_iff in H. destruct H as [HR HF].
  use_ok (Linear_forward_ok _ n n bs s_prev HR Hp).
  use_ok (Linear_forward_ok _ n n bs s_l HF Hl).
  unfold add, mul.
  destruct (binop_same Rplus t t0) as (a & Ea & Sa & _); [congruence|].
  rewrite Ea; cbn [bind].
  destruct (binop_same Rmult (sigmoid_t a) s_prev) as (gs & E1 & S1 & I1);
    [simpl; congruence|].
  destruct (binop_same Rmult (one_minus (sigmoid_t a)) s_l)
    as (gl & E2 & S2 & I2); [simpl; congruence|].
  change (shape (one_minus (sigmoid_t a))) with (shape a) in S2, I2.
  change (shape (sigmoid_t a)) with (shape a) in S1, I1.
  destruct (binop_same Rplus gs gl) as (g & E3 & S3 & I3); [congruence|].
  rewrite E1; cbn [bind]. rewrite E2; cbn [bind]. rewrite E3.
  exists g. split; [reflexivity|]. split; [congruence|].
  intros idx Hi.
  assert (Ha : inb (shape a) idx) by congruence.
  rewrite I3, I1, I2 by congruence. simpl.
  pose proof (sigmoid_bound (item a idx)) as Hg.
  set (u := item s_l idx). set (v := item s_prev idx).
  set (k := sigmoid (item a idx)) in *.
  unfold Rmin, Rmax. destruct (Rle_dec u v); nra.
Qed.

Lemma select0_item (P t : tensor) (i : nat) (r : list nat) :
  select0 P i = Some t -> item t r = item P (i :: r).
Proof.
  unfold select0. destruct (shape P) as [|d sh]; [discriminate|].
  destruct (i <? d); [|discriminate]. intros H. inv_some H. reflexivity.
Qed.

(** The states and the per-depth states that the encoder loop collects:
    each per-depth tensor ends with the state of its timestep. *)
Lemma RHN_loop_last_depth (r : RHN.t) (x : tensor) (l : list nat)
    (s0 s : tensor) (preds hw : list tensor) :
  for_each l (s0, [], []) (RHN.step r x) = Some (s, preds, hw) ->
  Forall2 (fun p h =>
    shape h = Z.to_nat (RHNCell.rec_depth (RHN.cell r)) :: shape p
    /\ forall idx,
         item h ((Z.to_nat (RHNCell.rec_depth (RHN.cell r)) - 1) :: idx)
         = item p idx) preds hw.
Proof.
  set (D := Z.to_nat (RHNCell.rec_depth (RHN.cell r))).
  set (I := fun (pre : list nat) (st : tensor * list tensor * list tensor) =>
         Forall2 (fun p h =>
           shape h = D :: shape p
           /\ forall idx, item h ((D - 1) :: idx) = item p idx)
           (snd (fst st)) (snd st)).
  intros H.
  change (I l (s, preds, hw)).
  eapply for_each_inv; [ | | exact H].
  - constructor.
  - intros pre a suf [[s1 p1] h1] s' _ HI Hb. unfold I in *. simpl in HI.
    unfold RHN.step in Hb.
    apply bind_Some in Hb. destruct Hb as ([xi s2] & _ & Hb).
    apply bind_Some in Hb. destruct Hb as ([s3 all_s] & Ec & Hb).
    inv_some Hb. simpl.
    apply Forall2_app; [assumption|]. constructor; [|constructor].
    destruct (forward_last_entry _ _ _ _ _ Ec) as (_ & Sh & Sel).
    split; [exact Sh|].
    intros idx. symmetry. apply (select0_item _ _ _ _ Sel).
Qed.

Lemma Forall2_nth {A B : Type} (P : A -> B -> Prop) (la : list A)
    (lb : list B) (a0 : A) (b0 : B) (i : nat) :
  Forall2 P la lb -> P a0 b0 -> P (nth i la a0) (nth i lb b0).
Proof.
  intros H H0. revert i. induction H; intros [|i]; simpl; auto.
Qed.

Lemma RHN_out_last_depth (r : RHN.t) (x out hs : tensor) :
  RHN.forward r x = Some (out, hs) ->
  let D := Z.to_nat (RHNCell.rec_depth (RHN.cell r)) in
  1 <= D
  /\ shape hs = shape out ++ [D]
  /\ forall b t u, item out [b; t; u] = item hs [b; t; u; D - 1].
Proof.
  unfold RHN.forward. intros H. do 3 inv_bind H.
  destruct v1 as [[s preds] hw].
  do 4 inv_bind H. inv_some H.
  cbv zeta. set (D := Z.to_nat (RHNCell.rec_depth (RHN.cell r))).
  pose proof (RHN_loop_last_depth _ _ _ _ _ _ _ E1) as HF. fold D in HF.
  destruct (stack_shapes _ _ E2) as (p0 & Hp0 & SP & AP & IP).
  destruct (stack_shapes _ _ E4) as (h0 & Hh0 & SH & AH & IH).
  assert (H0 : shape h0 = D :: shape p0
               /\ forall idx, item h0 ((D - 1) :: idx) = item p0 idx).
  { destruct HF as [|p h ps hs' Hph]; [discriminate|].
    simpl in Hp0, Hh0. inv_some Hp0. inv_some Hh0. exact Hph. }
  destruct H0 as [Sh0 Ih0].
  assert (HD : 1 <= D).
  { destruct preds as [|p ps]; [discriminate|].
    destruct hw as [|h hs']; [inversion HF|].
    clear - E1. revert E1. generalize (zeros [v; RHN.n_units r]).
    intros s0 E1. subst D.
    set (I := fun (pre : list nat)
                  (st : tensor * list tensor * list tensor) =>
           snd st <> [] -> 1 <= Z.to_nat (RHNCell.rec_depth (RHN.cell r))).
    assert (HI : I (seq 0 v0) (s, p :: ps, h :: hs')).
    { eapply for_each_inv; [ | | exact E1].
      - intros C; elim C; reflexivity.
      - intros pre a suf [[s1 p1] h1] s' _ _ Hb _. unfold RHN.step in Hb.
        apply bind_Some in Hb. destruct Hb as ([xi s2] & _ & Hb).
        apply bind_Some in Hb. destruct Hb as ([s3 all_s] & Ec & Hb).
        destruct (forward_last_entry _ _ _ _ _ Ec) as (Hpos & _). lia. }
    apply HI. discriminate. }
  split; [exact HD|].
  assert (Hlen : length hw = length preds) by
    (symmetry; eapply Forall2_length; exact HF).
  assert (Hnth : forall t idx,
             item (nth t hw h0) ((D - 1) :: idx) = item (nth t preds p0) idx).
  { intros t. apply (Forall2_nth _ preds hw p0 h0 t HF (conj Sh0 Ih0)). }
  unfold permute in E3, E5. rewrite SP in E3. rewrite SH, Sh0 in E5.
  destruct (shape p0) as [|d0 [|d1 [|? ?]]] eqn:Sp0; simpl in E3;
    try discriminate.
  simpl in E5. inv_some E3. inv_some E5. simpl.
  split; [rewrite Hlen; reflexivity|].
  intros b t u. rewrite IP, IH. symmetry. apply Hnth.
Qed.

(** X2.  The first output of the encoder is the last-depth slice of its
    second output, [out[b, t, u] = highway_states[b, t, u, D-1]], on every
    input on which the encoder returns; and a valid encoder returns on every
    batch of at least one timestep. *)
Theorem RHN_out_is_last_depth_state (r : RHN.t) (x : tensor) :
  let D := Z.to_nat (RHNCell.rec_depth (RHN.cell r)) in
  (forall out hs,
      RHN.forward r x = Some (out, hs) ->
      1 <= D
      /\ shape hs = shape out ++ [D]
      /\ forall b t u, item out [b; t; u] = item hs [b; t; u; D - 1])
  /\ (forall B T,
        rhn_ok r B = true ->
        shape x = [B; T; RHN.in_feats r] ->
        1 <= T ->
        exists out hs,
          RHN.forward r x = Some (out, hs)
          /\ shape out = [B; T; RHN.n_units r]
          /\ shape hs = [B; T; RHN.n_units r; D]
          /\ forall b t u, item out [b; t; u] = item hs [b; t; u; D - 1]).
Proof.
  cbv zeta. split.
  - intros out hs. apply RHN_out_last_depth.
  - intros B T Hok Hx HT.
    destruct (rhn_forward_ok r x B T Hok Hx HT) as (out & hs & E & So & Sh & _).
    exists out, hs. split; [exact E|]. split; [exact So|].
    destruct (RHN_out_last_depth r x out hs E) as (_ & Sh' & Hi).
    split; [|exact Hi].
    rewrite Sh', So. reflexivity.
Qed.

Lemma RHN_out_is_last_depth_state_witness :
  rhn_ok Example.rhn32 4 = true
  /\ shape Example.x32 = [4; 15; RHN.in_feats Example.rhn32]
  /\ 1 <= 15
  /\ exists out hs,
       RHN.forward Example.rhn32 Example.x32 = Some (out, hs)
       /\ shape out = [4; 15; 32]
       /\ shape hs = [4; 15; 32; 3]
       /\ forall b t u, item out [b; t; u] = item hs [b; t; u; 2].
Proof.
  split; [reflexivity|]. split; [reflexivity|]. split; [lia|].
  apply (proj2 (RHN_out_is_last_depth_state Example.rhn32 Example.x32) 4 15);
    [reflexivity | reflexivity | lia].
Defined.

(** ** Inputs that the encoder rejects *)

(** X3.  The encoder fails on an input with fewer than three dimensions and
    on an input without timesteps ([torch.stack] of an empty list). *)
Theorem RHN_forward_rejects_short_input (r : RHN.t) (x : tensor) :
  length (shape x) <= 2 \/ nth_error (shape x) 1 = Some 0 ->
  RHN.forward r x = None.
Proof.
  intros H. unfold RHN.forward, size.
  destruct (shape x) as [|d0 [|d1 sh]] eqn:Sx; try reflexivity.
  cbn [nth_error bind].
  destruct H as [H|H].
  - destruct sh as [|? ?]; [|simpl in H; lia].
    destruct d1 as [|d1]; [reflexivity|].
    cbn [seq for_each]. unfold RHN.step at 1.
    assert (Es : select1 x 0 = None) by (unfold select1; rewrite Sx; reflexivity).
    rewrite Es. destruct (RHN.use_batch_norm r); reflexivity.
  - simpl in H. inv_some H. reflexivity.
Qed.

Lemma RHN_forward_rejects_short_input_witness :
  (length (shape (zeros [4; 0; 5])) <= 2
   \/ nth_error (shape (zeros [4; 0; 5])) 1 = Some 0)
  /\ RHN.forward Example.rhn32 (zeros [4; 0; 5]) = None.
Proof.
  split; [right; reflexivity|].
  apply (RHN_forward_rejects_short_input Example.rhn32 (zeros [4; 0; 5])).
  right; reflexivity.
Defined.

Lemma rmax_from_nonneg (lo len : nat) (f : nat -> R) :
  (forall j, 0 <= f j)%R -> (0 <= rmax_from lo len f)%R.
Proof.
  intros Hf. revert lo. induction len as [|len IH]; intros lo; simpl.
  - apply Hf.
  - eapply Rle_trans; [apply Hf | apply Rmax_l].
Qed.

Lemma ConvBlock_forward_nonneg (c : ConvBlock.t) (x x' : tensor) :
  ConvBlock.forward c x = Some x' -> forall idx, (0 <= item x' idx)%R.
Proof.
  unfold ConvBlock.forward. intros H idx. do 3 inv_bind H.
  rewrite (permute_item _ _ _ _ H).
  unfold AdaptiveMaxPool1d_forward in E1.
  destruct (shape (relu_t v0)) as [|n [|ch [|len [|? ?]]]]; try discriminate.
  destruct (1 <=? len); [|discriminate]. inv_some E1. cbn [item].
  apply rmax_from_nonneg. intros j. apply Rmax_l.
Qed.

(** X4.  A convolution block returns, for a batch of [len] timesteps, a
    tensor of shape (batch, T, filters) without a negative entry. *)
Theorem ConvBlock_forward_is_nonnegative (c : ConvBlock.t)
    (c_in n_f len T B : nat) (x : tensor) :
  block_ok c c_in n_f len T = true -> shape x = [B; len; c_in] ->
  exists x',
    ConvBlock.forward c x = Some x'
    /\ shape x' = [B; T; n_f]
    /\ forall idx, (0 <= item x' idx)%R.
Proof.
  intros Hok Hx.
  destruct (ConvBlock_forward_ok c c_in n_f len T B x Hok Hx) as (x' & E & S').
  exists x'. split; [exact E|]. split; [exact S'|].
  apply (ConvBlock_forward_nonneg c x x' E).
Qed.

Lemma ConvBlock_forward_is_nonnegative_witness :
  block_ok Scenario.block 3 4 5 5 = true
  /\ shape Scenario.x = [2; 5; 3]
  /\ exists x',
       ConvBlock.forward Scenario.block Scenario.x = Some x'
       /\ shape x' = [2; 5; 4]
       /\ forall idx, (0 <= item x' idx)%R.
Proof.
  split; [reflexivity|]. split; [reflexivity|].
  apply (ConvBlock_forward_is_nonnegative Scenario.block 3 4 5 5 2 Scenario.x);
    reflexivity.
Defined.

Lemma odd_half (k : nat) : Nat.odd k = true -> 2 * ((k - 1) / 2) = k - 1 /\ 1 <= k.
Proof.
  intros H. apply Nat.odd_spec in H. destruct H as [q ->].
  replace (2 * q + 1 - 1) with (q * 2) by lia.
  rewrite Nat.div_mul by lia. lia.
Qed.

Lemma pool_window (i T : nat) :
  1 <= T -> (i * T) / T = i /\ ((i + 1) * T + T - 1) / T = i + 1.
Proof.
  intros HT. split.
  - apply Nat.div_mul. lia.
  - replace ((i + 1) * T + T - 1) with ((T - 1) + (i + 1) * T) by lia.
    rewrite Nat.div_add by lia. rewrite Nat.div_small by lia. lia.
Qed.

(** X5.  With an odd filter size the convolution keeps the number of
    timesteps, and the adaptive max-pool of the block is the identity: the
    block is the convolution followed by ReLU. *)
Theorem ConvBlock_odd_filter_pool_is_identity
    (timesteps in_channels n_filters filter_size : nat) (g : Init.rng) :
  1 <= timesteps -> 1 <= in_channels -> 1 <= n_filters ->
  Nat.odd filter_size = true ->
  exists blk g',
    ConvBlock.__init__ timesteps in_channels n_filters filter_size g
    = inr (blk, g')
    /\ forall (x : tensor) (B : nat),
         shape x = [B; timesteps; in_channels] ->
         exists x1 x2,
           permute x [0; 2; 1] = Some x1
           /\ Conv1d_forward (ConvBlock.conv blk) x1 = Some x2
           /\ shape x2 = [B; n_filters; timesteps]
           /\ ConvBlock.forward blk x = permute (relu_t x2) [0; 2; 1].
Proof.
  intros HT _ _ Hodd. destruct (odd_half _ Hodd) as [Hh Hk].
  unfold ConvBlock.__init__, Init.Conv1d, Init.bindM, Init.fresh, Init.ret.
  eexists; eexists; split; [reflexivity|].
  intros x B Hx. unfold ConvBlock.forward.
  cbn [ConvBlock.conv ConvBlock.maxpool].
  destruct (permute021_ok x _ _ _ Hx) as (x1 & E1 & S1).
  rewrite E1; cbn [bind].
  assert (El : timesteps + 2 * ((filter_size - 1) / 2) - (filter_size - 1)
               = timesteps) by lia.
  match goal with
  | |- context [Conv1d_forward ?cv x1] =>
      assert (Ec : exists x2, Conv1d_forward cv x1 = Some x2
                    /\ shape x2 = [B; n_filters; timesteps])
  end.
  { unfold Conv1d_forward. cbn [conv_weight conv_bias padding shape].
    rewrite S1. rewrite (calc_padding_half timesteps filter_size Hk), Nat2Z.id.
    match goal with
    | |- context [if ?c then _ else _] => assert (Ec : c = true); [|rewrite Ec]
    end.
    { repeat (apply andb_true_iff; split);
        try (apply Z.leb_le; lia); try (apply Nat.leb_le; lia);
        try apply Nat.eqb_refl; reflexivity. }
    eexists. split; [reflexivity|]. cbn [shape]. rewrite El. reflexivity. }
  destruct Ec as (x2 & E2 & S2). exists x1, x2.
  split; [reflexivity|]. split; [exact E2|]. split; [exact S2|].
  rewrite E2; cbn [bind].
  unfold AdaptiveMaxPool1d_forward.
  change (shape (relu_t x2)) with (shape x2). rewrite S2.
  destruct (Nat.leb_spec 1 timesteps); [|lia]. cbn [bind].
  unfold permute. cbn [shape length].
  change (shape (relu_t x2)) with (shape x2). rewrite S2.
  simpl (_ && _). cbv iota.
  f_equal. f_equal.
  apply functional_extensionality. intros idx. cbn [item].
  simpl (map _ (seq 0 _)). cbn [nth].
  destruct (pool_window (nth 1 idx 0) timesteps HT) as [-> ->].
  replace (nth 1 idx 0 + 1 - nth 1 idx 0 - 1) with 0 by lia.
  reflexivity.
Qed.

Lemma ConvBlock_odd_filter_pool_is_identity_witness :
  1 <= 5 /\ 1 <= 3 /\ 1 <= 4 /\ Nat.odd 5 = true
  /\ exists blk g',
       ConvBlock.__init__ 5 3 4 5 (Init.mkRng (fun _ => 0%R) 0) = inr (blk, g')
       /\ forall (x : tensor) (B : nat),
            shape x = [B; 5; 3] ->
            exists x1 x2,
              permute x [0; 2; 1] = Some x1
              /\ Conv1d_forward (ConvBlock.conv blk) x1 = Some x2
              /\ shape x2 = [B; 4; 5]
              /\ ConvBlock.forward blk x = permute (relu_t x2) [0; 2; 1].
Proof.
  split; [lia|]. split; [lia|]. split; [lia|]. split; [reflexivity|].
  apply (ConvBlock_odd_filter_pool_is_identity 5 3 4 5
           (Init.mkRng (fun _ => 0%R) 0)); [lia | lia | lia | reflexivity].
Defined.

(** ** Construction without validation *)

Lemma layers_total (count : Z) (i o : nat) (b : bool) (g : Init.rng) :
  exists Ls g',
    Init.comprehension (range count) (fun _ => Init.Linear i o b) g
    = inr (Ls, g') /\ True.
Proof.
  destruct (layers_run count i o b g) as (Ls & g' & E & _). eauto.
Qed.

(** [RHNCell.__init__] has no assertion: it returns for every depth. *)
Lemma RHNCell_init_total (in_feats n_units : nat) (rec_depth : Z)
    (couple_gates use_hsg closed : bool) (g : Init.rng) :
  exists c g',
    RHNCell.__init__ in_feats n_units rec_depth couple_gates use_hsg closed g
    = inr (c, g')
    /\ RHNCell.rec_depth c = rec_depth.
Proof.
  unfold RHNCell.__init__.
  run_init (Linear_run in_feats n_units false g) as wh g1 Hwh.
  run_init (Linear_run in_feats n_units false g1) as wt g2 Hwt.
  destruct couple_gates; cbn [negb andb]; rewrite ?bindM_ret.
  - run_init (layers_total rec_depth n_units n_units true g2) as rh g3 Hrh.
    run_init (layers_total rec_depth n_units n_units true g3) as rt g4 Hrt.
    destruct use_hsg; rewrite ?bindM_ret.
    + run_init (HSGLayer_run n_units closed g4) as hsg g5 Hhsg.
      eexists; eexists; split; reflexivity.
    + eexists; eexists; split; reflexivity.
  - run_init (Linear_run in_feats n_units false g2) as wc g3 Hwc.
    run_init (layers_total rec_depth n_units n_units true g3) as rh g4 Hrh.
    run_init (layers_total rec_depth n_units n_units true g4) as rt g5 Hrt.
    run_init (layers_total rec_depth n_units n_units true g5) as rc g6 Hrc.
    destruct use_hsg; rewrite ?bindM_ret.
    + run_init (HSGLayer_run n_units closed g6) as hsg g7 Hhsg.
      eexists; eexists; split; reflexivity.
    + eexists; eexists; split; reflexivity.
Qed.

(** X6.  A cell may be built with a depth of zero or less,
    [RHNCell.__init__] asserting nothing (the sizes being positive), but
    such a cell fails on every input: its loop records no state, and
    [torch.stack] (or [preds.pop()]) rejects the empty list. *)
Theorem RHNCell_nonpositive_depth_never_runs (in_feats n_units : nat)
    (rec_depth : Z) (couple_gates use_hsg init_gates_closed : bool)
    (g : Init.rng) :
  1 <= in_feats -> 1 <= n_units ->
  (rec_depth <= 0)%Z ->
  exists c g',
    RHNCell.__init__ in_feats n_units rec_depth couple_gates use_hsg
      init_gates_closed g = inr (c, g')
    /\ forall x s, RHNCell.forward c x s = None.
Proof.
  intros _ _ Hd.
  destruct (RHNCell_init_total in_feats n_units rec_depth couple_gates use_hsg
              init_gates_closed g) as (c & g' & E & Ed).
  exists c, g'. split; [exact E|].
  intros x s. destruct (RHNCell.forward c x s) as [[s' P]|] eqn:Ef;
    [|reflexivity].
  destruct (forward_last_entry c x s s' P Ef) as (Hpos & _). lia.
Qed.

Lemma RHNCell_nonpositive_depth_never_runs_witness :
  1 <= 2 /\ 1 <= 3 /\ (0 <= 0)%Z
  /\ exists c g',
       RHNCell.__init__ 2 3 0 true false false (Init.mkRng (fun _ => 0%R) 0)
       = inr (c, g')
       /\ forall x s, RHNCell.forward c x s = None.
Proof.
  split; [lia|]. split; [lia|]. split; [lia|].
  apply (RHNCell_nonpositive_depth_never_runs 2 3 0 true false false
           (Init.mkRng (fun _ => 0%R) 0)); lia.
Defined.

Lemma convs_total (n_conv_layers : Z) (lookback in_feats n_filters
    filter_size : nat) (g : Init.rng) :
  exists cs g',
    Init.comprehension (range n_conv_layers) (fun i =>
      if i =? 0
      then ConvBlock.__init__ lookback in_feats n_filters filter_size
      else ConvBlock.__init__ lookback n_filters n_filters filter_size) g
    = inr (cs, g')
    /\ Forall (fun c => ConvBlock.maxpool c = lookback) cs.
Proof.
  destruct (comprehension_run (fun c => ConvBlock.maxpool c = lookback)
              (range n_conv_layers)
              (fun i => if i =? 0
                        then ConvBlock.__init__ lookback in_feats n_filters
                               filter_size
                        else ConvBlock.__init__ lookback n_filters n_filters
                               filter_size)) with (g := g)
    as (cs & g1 & E1 & _ & HF).
  { intros i g0 _.
    destruct (i =? 0);
      [destruct (ConvBlock_run lookback in_feats n_filters filter_size g0)
         as (c & g' & E & Hm & _)
      |destruct (ConvBlock_run lookback n_filters n_filters filter_size g0)
         as (c & g' & E & Hm & _)];
      exists c, g'; split; assumption. }
  eauto.
Qed.

(** With positive counts [HARHN.__init__] returns, whatever the sizes;
    the network has the given lookback and pools every block back to
    it, its encoder has coupled gates and no batch normalisation, and
    its decoder has coupled gates and no highway-state gate. *)
Lemma HARHN_init_total (n_conv_layers : Z) (lookback in_feats target_feats
    n_units_enc n_units_dec enc_input_size : nat) (rec_depth : Z)
    (out_feats n_filters filter_size : nat) (g : Init.rng) :
  (0 < n_conv_layers)%Z -> (0 < rec_depth)%Z ->
  exists m g',
    HARHN.__init__ n_conv_layers lookback in_feats target_feats n_units_enc
      n_units_dec enc_input_size rec_depth out_feats n_filters filter_size g
    = inr (m, g')
    /\ HARHN.T m = lookback
    /\ pools_ok m = true
    /\ RHN.use_batch_norm (HARHN.RHNEncoder m) = false
    /\ RHN.couple_gates (HARHN.RHNEncoder m) = true
    /\ RHNCell.couple_gates (HARHN.RHNDecoder m) = true
    /\ RHNCell.use_HSG (HARHN.RHNDecoder m) = false.
Proof.
  intros Hn Hd. unfold HARHN.__init__.
  assert (Ea : Init.assert (0 <? n_conv_layers)%Z g = inr (tt, g)).
  { unfold Init.assert. rewrite (proj2 (Z.ltb_lt 0 n_conv_layers) Hn).
    reflexivity. }
  rewrite (bindM_inr _ _ _ _ _ Ea).
  destruct (convs_total n_conv_layers lookback in_feats n_filters filter_size g)
    as (cs & g1 & E1 & Hcs).
  rewrite (bindM_inr _ _ _ _ _ E1).
  run_init (Linear_run n_filters enc_input_size true g1) as c2e g2 Hc2e.
  destruct (RHN_run enc_input_size n_units_enc n_units_enc rec_depth true
              false false false 0 g2 Hd)
    as (enc & g3 & E3 & Henc & Fc & Fb & _); [discriminate|].
  rewrite (bindM_inr _ _ _ _ _ E3).
  destruct (RHNCell_run target_feats n_units_dec rec_depth true false false
              g3 Hd) as (dec & g4 & E4 & Hdec & _ & _ & _ & Gc & Gh).
  rewrite (bindM_inr _ _ _ _ _ E4).
  run_init (layers_total rec_depth n_units_dec n_units_enc false g4)
    as tk g5 Htk.
  run_init (layers_total rec_depth n_units_enc n_units_enc true g5)
    as uk g6 Huk.
  run_init (layers_total rec_depth n_units_enc 1 true g6) as vk g7 Hvk.
  run_init (Linear_run target_feats target_feats false g7) as wt g8 Hwt.
  run_init (Linear_run (Z.to_nat rec_depth * n_units_enc) target_feats true
              g8) as vt g9 Hvt.
  run_init (Linear_run n_units_dec target_feats true g9) as w g10 Hw.
  run_init (Linear_run (Z.to_nat rec_depth * n_units_enc) target_feats true
              g10) as v g11 Hv.
  eexists; eexists; split; [reflexivity|].
  cbn [HARHN.T HARHN.RHNEncoder HARHN.RHNDecoder].
  split; [reflexivity|]. split.
  { unfold pools_ok. cbn [HARHN.n_convs HARHN.convs HARHN.T].
    rewrite (proj2 (Z.ltb_lt 0 n_conv_layers) Hn). simpl.
    apply forallb_forall. rewrite Forall_forall in Hcs.
    intros c Hc. apply Nat.eqb_eq. apply Hcs. assumption. }
  repeat split; assumption.
Qed.

(** X7.  For positive sizes, [HARHN.__init__] returns a network exactly when
    the number of convolution layers and the recurrence depth are positive:
    its two assertions (its own and the encoder's) are the only checks. *)
Theorem HARHN_init_returns_iff_positive (n_conv_layers : Z)
    (lookback in_feats target_feats n_units_enc n_units_dec
       enc_input_size : nat) (rec_depth : Z)
    (out_feats n_filters filter_size : nat) (g : Init.rng) :
  1 <= lookback /\ 1 <= in_feats /\ 1 <= target_feats
  /\ 1 <= n_units_enc /\ 1 <= n_units_dec /\ 1 <= enc_input_size
  /\ 1 <= n_filters /\ 1 <= filter_size ->
  ((exists m g',
       HARHN.__init__ n_conv_layers lookback in_feats target_feats
         n_units_enc n_units_dec enc_input_size rec_depth out_feats
         n_filters filter_size g = inr (m, g'))
   <-> (0 < n_conv_layers /\ 0 < rec_depth)%Z).
Proof.
  intros _. split.
  - intros (m & g' & E).
    destruct (Z.ltb_spec 0 n_conv_layers) as [Hn|Hn].
    + split; [assumption|].
      destruct (Z.ltb_spec 0 rec_depth) as [Hd|Hd]; [assumption|].
      exfalso. revert E. unfold HARHN.__init__.
      rewrite (bindM_inr _ _ g g tt)
        by (unfold Init.assert;
            rewrite (proj2 (Z.ltb_lt 0 n_conv_layers) Hn); reflexivity).
      destruct (convs_total n_conv_layers lookback in_feats n_filters
                  filter_size g) as (cs & g1 & E1 & _).
      rewrite (bindM_inr _ _ g g1 cs E1).
      destruct (Linear_run n_filters enc_input_size true g1)
        as (c2e & g2 & E2 & _).
      rewrite (bindM_inr _ _ g1 g2 c2e E2).
      rewrite (bindM_inl _ _ g2 (Init.AssertionError None))
        by (apply RHN_init_rejects; assumption).
      discriminate.
    + exfalso. revert E. unfold HARHN.__init__.
      rewrite (bindM_inl _ _ g (Init.AssertionError None)); [discriminate|].
      unfold Init.assert.
      destruct (Z.ltb_spec 0 n_conv_layers); [lia | reflexivity].
  - intros [Hn Hd].
    destruct (HARHN_init_total n_conv_layers lookback in_feats target_feats
                n_units_enc n_units_dec enc_input_size rec_depth out_feats
                n_filters filter_size g Hn Hd) as (m & g' & E & _).
    eauto.
Qed.

(** ** Window lengths *)

Lemma ConvBlock_run_len (timesteps in_channels n_filters filter_size len : nat)
    (g : Init.rng) :
  1 <= filter_size ->
  filter_size <= len + 2 * ((filter_size - 1) / 2) ->
  exists blk g',
    ConvBlock.__init__ timesteps in_channels n_filters filter_size g
    = inr (blk, g')
    /\ block_ok blk in_channels n_filters len timesteps = true.
Proof.
  intros Hk Hfit.
  unfold ConvBlock.__init__, Init.Conv1d, Init.bindM, Init.fresh, Init.ret.
  eexists; eexists; split; [reflexivity|].
  unfold block_ok. simpl.
  rewrite (calc_padding_half timesteps filter_size Hk), Nat2Z.id.
  rewrite !Nat.eqb_refl.
  destruct filter_size as [|k']; [lia|].
  repeat (apply andb_true_iff; split); try reflexivity.
  - apply Z.leb_le. lia.
  - apply Nat.leb_le. lia.
Qed.

(** A network built for a lookback also is a valid configuration for
    input windows of another length [len] that the kernel fits. *)
Lemma HARHN_run_len (n_conv_layers : Z) (lookback in_feats target_feats
    n_units_enc n_units_dec enc_input_size : nat) (rec_depth : Z)
    (out_feats n_filters filter_size batch len : nat) (g : Init.rng) :
  (0 < n_conv_layers)%Z -> (0 < rec_depth)%Z ->
  1 <= lookback -> 1 <= filter_size ->
  filter_size <= lookback + 2 * ((filter_size - 1) / 2) ->
  filter_size <= len + 2 * ((filter_size - 1) / 2) ->
  exists m g',
    HARHN.__init__ n_conv_layers lookback in_feats target_feats n_units_enc
      n_units_dec enc_input_size rec_depth out_feats n_filters filter_size g
    = inr (m, g')
    /\ harhn_ok m batch len in_feats target_feats n_filters = true
    /\ HARHN.T m = lookback.
Proof.
  intros Hn Hd HT Hk Hfit Hlen. unfold HARHN.__init__.
  assert (Ea : Init.assert (0 <? n_conv_layers)%Z g = inr (tt, g)).
  { unfold Init.assert. rewrite (proj2 (Z.ltb_lt 0 n_conv_layers) Hn).
    reflexivity. }
  rewrite (bindM_inr _ _ _ _ _ Ea).
  assert (Er : range n_conv_layers
               = 0 :: seq 1 (Z.to_nat n_conv_layers - 1)).
  { unfold range. destruct (Z.to_nat n_conv_layers) as [|n] eqn:En; [lia|].
    simpl. rewrite Nat.sub_0_r. reflexivity. }
  rewrite Er. cbn [Init.comprehension Nat.eqb]. rewrite !bindM_assoc.
  destruct (ConvBlock_run_len lookback in_feats n_filters filter_size len g
              Hk Hlen) as (c0 & g0 & E0 & H0).
  rewrite (bindM_inr _ _ _ _ _ E0).
  rewrite ?bindM_assoc.
  destruct (comprehension_run
              (fun c => block_ok c n_filters n_filters lookback lookback
                        = true)
              (seq 1 (Z.to_nat n_conv_layers - 1))
              (fun i => if i =? 0
                        then ConvBlock.__init__ lookback in_feats n_filters
                               filter_size
                        else ConvBlock.__init__ lookback n_filters n_filters
                               filter_size)) with (g := g0)
    as (cs & g1 & E1 & Hl & Hcs).
  { intros i gi Hin. apply in_seq in Hin.
    destruct (Nat.eqb_spec i 0) as [->|_]; [lia|].
    destruct (ConvBlock_run lookback n_filters n_filters filter_size gi)
      as (c & g' & E & _ & Hc).
    exists c, g'. split; [exact E | apply Hc; assumption]. }
  rewrite (bindM_inr _ _ _ _ _ E1). rewrite bindM_ret.
  run_init (Linear_run n_filters enc_input_size true g1) as c2e g2 Hc2e.
  destruct (RHN_run enc_input_size n_units_enc n_units_enc rec_depth true
              false false false batch g2 Hd)
    as (enc & g3 & E3 & Henc & _ & _ & Fd & Fi & Fn); [discriminate|].
  rewrite (bindM_inr _ _ _ _ _ E3).
  destruct (RHNCell_run target_feats n_units_dec rec_depth true false false
              g3 Hd) as (dec & g4 & E4 & Hdec & _ & Gi & Gn & _).
  rewrite (bindM_inr _ _ _ _ _ E4).
  run_init (layers_run rec_depth n_units_dec n_units_enc false g4)
    as tk g5 Htk.
  run_init (layers_run rec_depth n_units_enc n_units_enc true g5)
    as uk g6 Huk.
  run_init (layers_run rec_depth n_units_enc 1 true g6) as vk g7 Hvk.
  run_init (Linear_run target_feats target_feats false g7) as wt g8 Hwt.
  run_init (Linear_run (Z.to_nat rec_depth * n_units_enc) target_feats true
              g8) as vt g9 Hvt.
  run_init (Linear_run n_units_dec target_feats true g9) as w g10 Hw.
  run_init (Linear_run (Z.to_nat rec_depth * n_units_enc) target_feats true
              g10) as v g11 Hv.
  eexists; eexists; split; [reflexivity|]. split; [|reflexivity].
  unfold harhn_ok. cbn [HARHN.n_convs HARHN.convs HARHN.T HARHN.conv_to_enc
    HARHN.RHNEncoder HARHN.RHNDecoder HARHN.T_k HARHN.U_k HARHN.v_k
    HARHN.W_tilda HARHN.V_tilda HARHN.W HARHN.V HARHN.rec_depth
    HARHN.n_units_enc HARHN.n_units_dec length convs_ok].
  rewrite (proj2 (Z.ltb_lt 0 n_conv_layers) Hn), Hl, length_seq.
  replace (S (Z.to_nat n_conv_layers - 1)) with (Z.to_nat n_conv_layers)
    by lia.
  rewrite H0, (convs_ok_all _ _ _ Hcs), (proj2 (Nat.leb_le _ _) HT).
  rewrite Fi, Fn, Fd, Gi, Gn, Hc2e, Henc, Hdec, Htk, Huk, Hvk, Hwt, Hvt, Hw,
    Hv.
  rewrite !Nat.eqb_refl, Z.eqb_refl. reflexivity.
Qed.

(** X8.  A built network returns one prediction per sample and target
    feature, and it does so on input windows of any length that the kernel
    fits, not only of its lookback: the pooling of the first block brings
    every window to the lookback. *)
Theorem HARHN_accepts_any_window_length (n_conv_layers : Z)
    (lookback in_feats target_feats n_units_enc n_units_dec
       enc_input_size : nat) (rec_depth : Z)
    (out_feats n_filters filter_size B len : nat) (g : Init.rng) :
  (0 < n_conv_layers)%Z -> (0 < rec_depth)%Z ->
  1 <= lookback -> 1 <= filter_size ->
  1 <= in_feats /\ 1 <= target_feats /\ 1 <= n_units_enc
  /\ 1 <= n_units_dec /\ 1 <= enc_input_size /\ 1 <= n_filters ->
  filter_size <= lookback + 2 * ((filter_size - 1) / 2) ->
  filter_size <= len + 2 * ((filter_size - 1) / 2) ->
  exists m g',
    HARHN.__init__ n_conv_layers lookback in_feats target_feats n_units_enc
      n_units_dec enc_input_size rec_depth out_feats n_filters filter_size g
    = inr (m, g')
    /\ forall x y,
         shape x = [B; len; in_feats] ->
         shape y = [B; lookback; target_feats] ->
         exists y_t,
           HARHN.forward m x y = Some y_t /\ shape y_t = [B; target_feats].
Proof.
  intros Hn Hd HT Hk _ Hfit Hlen.
  destruct (HARHN_run_len n_conv_layers lookback in_feats target_feats
              n_units_enc n_units_dec enc_input_size rec_depth out_feats
              n_filters filter_size B len g Hn Hd HT Hk Hfit Hlen)
    as (m & g' & E & Hok & ET).
  exists m, g'. split; [exact E|].
  intros x y Hx Hy. rewrite <- ET in Hy.
  destruct (forward_log_ok m x y B len in_feats target_feats n_filters
              Hok Hx Hy) as (y_t & log & Ef & Sy).
  exists y_t. split; [|exact Sy].
  rewrite forward_log_erase, Ef. reflexivity.
Qed.

Lemma HARHN_accepts_any_window_length_witness :
  (0 < 3)%Z /\ (0 < 3)%Z /\ 1 <= 15 /\ 1 <= 5
  /\ (1 <= 7 /\ 1 <= 1 /\ 1 <= 64 /\ 1 <= 64 /\ 1 <= 32 /\ 1 <= 32)
  /\ 5 <= 15 + 2 * ((5 - 1) / 2) /\ 5 <= 40 + 2 * ((5 - 1) / 2)
  /\ exists m g',
       HARHN.__init__ 3 15 7 1 64 64 32 3 1 32 5 (Init.mkRng (fun _ => 0%R) 0)
       = inr (m, g')
       /\ forall x y,
            shape x = [16; 40; 7] ->
            shape y = [16; 15; 1] ->
            exists y_t,
              HARHN.forward m x y = Some y_t /\ shape y_t = [16; 1].
Proof.
  split; [lia|]. split; [lia|]. split; [lia|]. split; [lia|].
  split; [lia|]. split; [simpl; lia|]. split; [simpl; lia|].
  apply (HARHN_accepts_any_window_length 3 15 7 1 64 64 32 3 1 32 5 16 40
           (Init.mkRng (fun _ => 0%R) 0)); simpl; lia.
Defined.

(** ** The target history *)

Lemma for_each_fails {S A : Type} (l : list A) (a : A) (st : S) body :
  In a l -> (forall s, body a s = None) -> for_each l st body = None.
Proof.
  revert st. induction l as [|b l IH]; intros st Hin Hf; [destruct Hin|].
  simpl. destruct Hin as [->|Hin].
  - rewrite Hf. reflexivity.
  - destruct (body b st) as [st'|]; [apply IH; assumption | reflexivity].
Qed.

Lemma step_needs_history (m : HARHN.t) (h_t_l y : tensor) (t_ : nat)
    (st : tensor * option tensor) :
  select1 y t_ = None -> HARHN.step m h_t_l y t_ st = None.
Proof.
  intros Hy. unfold HARHN.step. destruct st as [s d].
  destruct (unsqueeze1 s) as [s1|]; [|reflexivity]. cbn [bind].
  destruct (repeat s1 _) as [s2|]; [|reflexivity]. cbn [bind].
  destruct (for_each _ _ _) as [d_t|]; [|reflexivity]. cbn [bind].
  destruct (cat1 d_t) as [d1|]; [|reflexivity]. cbn [bind].
  rewrite Hy. reflexivity.
Qed.

(** X9.  [forward] reads the target history [y] at the timesteps [0 .. T-1]
    only: two histories with these slices in common give the same result,
    whatever else they hold. *)
Theorem HARHN_forward_reads_lookback_of_history (m : HARHN.t)
    (x y y' : tensor) :
  (forall t_, t_ < HARHN.T m -> select1 y t_ = select1 y' t_) ->
  HARHN.forward m x y = HARHN.forward m x y'.
Proof.
  intros H. unfold HARHN.forward.
  apply bind_ext. intros [x1 h_t_l] _.
  apply bind_ext. intros batch _.
  f_equal. apply for_each_ext. intros t_ st Hin.
  apply in_seq in Hin. unfold HARHN.step. destruct st as [s d].
  rewrite (H t_) by lia. reflexivity.
Qed.

(** The history of the scenario, followed by four more timesteps. *)
Lemma HARHN_forward_reads_lookback_of_history_witness :
  (forall t_, t_ < HARHN.T Scenario.model ->
     select1 Scenario.y t_ = select1 (full [2; 9; 1] (1 / 2)) t_)
  /\ HARHN.forward Scenario.model Scenario.x Scenario.y
     = HARHN.forward Scenario.model Scenario.x (full [2; 9; 1] (1 / 2)).
Proof.
  assert (Hs : forall t_, t_ < HARHN.T Scenario.model ->
     select1 Scenario.y t_ = select1 (full [2; 9; 1] (1 / 2)) t_).
  { intros t_ Ht. simpl in Ht. unfold Scenario.y.
    rewrite !select1_full by lia. reflexivity. }
  split; [exact Hs|].
  apply (HARHN_forward_reads_lookback_of_history Scenario.model Scenario.x
           Scenario.y (full [2; 9; 1] (1 / 2)) Hs).
Defined.

(** X10.  [forward] fails when the lookback is zero (the context [d_t] is
    never bound) and when the target history has fewer timesteps than the
    lookback. *)
Theorem HARHN_forward_needs_history (m : HARHN.t) (x y : tensor) :
  HARHN.T m = 0
  \/ (exists B Ty F, shape y = [B; Ty; F] /\ Ty < HARHN.T m) ->
  HARHN.forward m x y = None.
Proof.
  intros H. unfold HARHN.forward.
  destruct (HARHN.encode m x) as [[x1 h_t_l]|]; [|reflexivity]. cbn [bind].
  destruct (size x1 0) as [batch|]; [|reflexivity]. cbn [bind].
  destruct H as [H0|(B & Ty & F & Sy & Hlt)].
  - rewrite H0. reflexivity.
  - rewrite (for_each_fails (seq 0 (HARHN.T m)) Ty); [reflexivity | | ].
    + apply in_seq. lia.
    + intros st. apply step_needs_history.
      unfold select1. rewrite Sy. rewrite Nat.ltb_irrefl. reflexivity.
Qed.

Lemma HARHN_forward_needs_history_witness :
  (HARHN.T Scenario.model = 0
   \/ exists B Ty F, shape (full [2; 4; 1] (1 / 2)) = [B; Ty; F]
                     /\ Ty < HARHN.T Scenario.model)
  /\ HARHN.forward Scenario.model Scenario.x (full [2; 4; 1] (1 / 2)) = None.
Proof.
  assert (Hs : HARHN.T Scenario.model = 0
   \/ exists B Ty F, shape (full [2; 4; 1] (1 / 2)) = [B; Ty; F]
                     /\ Ty < HARHN.T Scenario.model).
  { right. exists 2, 4, 1. split; [reflexivity | simpl; lia]. }
  split; [exact Hs|].
  apply (HARHN_forward_needs_history Scenario.model Scenario.x
           (full [2; 4; 1] (1 / 2)) Hs).
Defined.

(** ** Feature widths *)

Lemma ConvBlock_forward_wrong_channels (c : ConvBlock.t)
    (c_in n_f len T B len' F : nat) (x : tensor) :
  block_ok c c_in n_f len T = true ->
  shape x = [B; len'; F] -> F <> c_in ->
  ConvBlock.forward c x = None.
Proof.
  unfold block_ok, ConvBlock.forward. intros H Hx HF.
  destruct (shape (conv_weight (ConvBlock.conv c)))
    as [|c_out [|ci [|k [|? ?]]]] eqn:Ew; try discriminate.
  do 6 (apply andb_true_iff in H; destruct H as [H ?]).
  repeat match goal with
         | Hx : (_ =? _) = true |- _ => apply Nat.eqb_eq in Hx
         end.
  subst c_out ci.
  destruct (permute021_ok x _ _ _ Hx) as (x1 & E1 & S1).
  rewrite E1; cbn [bind].
  unfold Conv1d_forward. rewrite Ew, S1.
  destruct (Nat.eqb_spec F c_in) as [|_]; [contradiction|].
  rewrite andb_false_r. reflexivity.
Qed.

Lemma Linear_forward_wrong_width (L : Linear) (i o G : nat) (bs : list nat)
    (x : tensor) :
  Linear_ok L i o = true -> shape x = bs ++ [G] -> G <> i ->
  Linear_forward L x = None.
Proof.
  unfold Linear_ok, Linear_forward. intros H Hx HG.
  apply andb_true_iff in H. destruct H as [Hw _].
  apply shape_eqb_eq in Hw. rewrite Hw, Hx.
  destruct (bs ++ [G]) as [|d sh] eqn:E; [destruct bs; discriminate|].
  rewrite <- E, last_last.
  destruct (Nat.eqb_spec G i) as [|_]; [contradiction|]. reflexivity.
Qed.

Lemma step_wrong_width (m : HARHN.t) (h_t_l y : tensor)
    (B Ty G target_feats : nat) (st : tensor * option tensor) :
  Linear_ok (HARHN.W_tilda m) target_feats target_feats = true ->
  shape y = [B; Ty; G] -> G <> target_feats ->
  HARHN.step m h_t_l y 0 st = None.
Proof.
  intros HW Hy HG. unfold HARHN.step. destruct st as [s d].
  destruct (unsqueeze1 s) as [s1|]; [|reflexivity]. cbn [bind].
  destruct (repeat s1 _) as [s2|]; [|reflexivity]. cbn [bind].
  destruct (for_each _ _ _) as [d_t|]; [|reflexivity]. cbn [bind].
  destruct (cat1 d_t) as [d1|]; [|reflexivity]. cbn [bind].
  destruct (select1 y 0) as [y_t|] eqn:Es; [|reflexivity]. cbn [bind].
  assert (Sy : shape y_t = [B] ++ [G]).
  { unfold select1 in Es. rewrite Hy in Es.
    destruct (0 <? Ty); [|discriminate]. inv_some Es. reflexivity. }
  rewrite (Linear_forward_wrong_width _ _ _ G [B] y_t HW Sy HG).
  reflexivity.
Qed.

(** X11.  A valid network checks the feature widths of its inputs: [forward]
    fails on an input [x] whose last dimension is not the number of input
    features and on a history [y] whose last dimension is not the number of
    target features. *)
Theorem HARHN_forward_checks_feature_widths (m : HARHN.t)
    (B len in_feats target_feats n_f : nat) (x y : tensor) :
  harhn_ok m B len in_feats target_feats n_f = true ->
  (exists B' len' F, shape x = [B'; len'; F] /\ F <> in_feats)
  \/ (exists B' Ty G, shape y = [B'; Ty; G] /\ G <> target_feats) ->
  HARHN.forward m x y = None.
Proof.
  intros Hok H.
  destruct (harhn_ok_inv m B len in_feats target_feats n_f Hok)
    as ((Hn & Hlen & Hcs & HT & _) & (_ & _ & _ & _ & _ & _ & HW & _) & _).
  unfold HARHN.forward.
  destruct H as [(B' & len' & F & Hx & HF)|(B' & Ty & G & Hy & HG)].
  - unfold HARHN.encode, range.
    destruct (Z.to_nat (HARHN.n_convs m)) as [|n] eqn:En; [lia|].
    destruct (HARHN.convs m) as [|c0 cs] eqn:Ec; [discriminate|].
    simpl in Hcs. apply andb_true_iff in Hcs. destruct Hcs as [Hc0 _].
    cbn [seq for_each nth_error bind].
    rewrite (ConvBlock_forward_wrong_channels c0 _ _ _ _ _ _ _ x Hc0 Hx HF).
    reflexivity.
  - destruct (HARHN.encode m x) as [[x1 h_t_l]|]; [|reflexivity].
    cbn [bind].
    destruct (size x1 0) as [batch|]; [|reflexivity]. cbn [bind].
    rewrite (for_each_fails (seq 0 (HARHN.T m)) 0); [reflexivity | | ].
    + apply in_seq. lia.
    + intros st. eapply step_wrong_width; eassumption.
Qed.

Lemma HARHN_forward_checks_feature_widths_witness :
  harhn_ok Scenario.model 2 5 3 1 4 = true
  /\ ((exists B' len' F, shape (full [2; 5; 7] 1) = [B'; len'; F] /\ F <> 3)
      \/ (exists B' Ty G, shape Scenario.y = [B'; Ty; G] /\ G <> 1))
  /\ HARHN.forward Scenario.model (full [2; 5; 7] 1) Scenario.y = None.
Proof.
  assert (Hok : harhn_ok Scenario.model 2 5 3 1 4 = true)
    by (vm_compute; reflexivity).
  assert (Hx : (exists B' len' F,
                  shape (full [2; 5; 7] 1) = [B'; len'; F] /\ F <> 3)
               \/ (exists B' Ty G, shape Scenario.y = [B'; Ty; G] /\ G <> 1)).
  { left. exists 2, 5, 7. split; [reflexivity | lia]. }
  split; [exact Hok|]. split; [exact Hx|].
  apply (HARHN_forward_checks_feature_widths Scenario.model 2 5 3 1 4
           (full [2; 5; 7] 1) Scenario.y Hok Hx).
Defined.

(** ** The encoder reads no future timestep *)

(** Every iteration of the encoder loop appends one state and one
    per-depth tensor. *)
Lemma RHN_loop_appends (r : RHN.t) (x : tensor) (l : list nat)
    (s s' : tensor) (p p' h h' : list tensor) :
  for_each l (s, p, h) (RHN.step r x) = Some (s', p', h') ->
  exists dp dh,
    p' = p ++ dp /\ h' = h ++ dh
    /\ length dp = length l /\ length dh = length l.
Proof.
  revert s p h. induction l as [|a l IH]; intros s p h H; simpl in H.
  - inv_some H. exists [], []. rewrite !app_nil_r. auto.
  - apply bind_Some in H. destruct H as ([[s1 p1] h1] & Es & H).
    unfold RHN.step in Es.
    apply bind_Some in Es. destruct Es as ([xi s2] & _ & Es).
    apply bind_Some in Es. destruct Es as ([s3 all_s] & _ & Es).
    injection Es as E1 E2 E3. subst s1 p1 h1.
    destruct (IH _ _ _ H) as (dp & dh & -> & -> & Lp & Lh).
    exists (s3 :: dp), (all_s :: dh). rewrite <- !app_assoc. simpl.
    repeat split; congruence.
Qed.

(** The states recorded for the timesteps [0 .. k-1] are those of the
    loop run on these timesteps alone. *)
Lemma RHN_loop_prefix (r : RHN.t) (x : tensor) (n k : nat)
    (s0 s : tensor) (preds hw : list tensor) :
  k <= n ->
  for_each (seq 0 n) (s0, [], []) (RHN.step r x) = Some (s, preds, hw) ->
  exists sk,
    for_each (seq 0 k) (s0, [], []) (RHN.step r x)
    = Some (sk, firstn k preds, firstn k hw)
    /\ length preds = n /\ length hw = n.
Proof.
  intros Hk H.
  replace n with (k + (n - k)) in H by lia.
  rewrite seq_app, for_each_app in H.
  apply bind_Some in H. destruct H as ([[sk pk] hk] & Ek & H).
  destruct (RHN_loop_appends _ _ _ _ _ _ _ _ _ Ek) as (dp & dh & Ep & Eh & Lp & Lh).
  simpl in Ep, Eh. subst pk hk. rewrite length_seq in Lp, Lh.
  destruct (RHN_loop_appends _ _ _ _ _ _ _ _ _ H)
    as (dp' & dh' & -> & -> & Lp' & Lh').
  rewrite length_seq in Lp', Lh'.
  exists sk.
  assert (Fp : firstn k (dp ++ dp') = dp).
  { rewrite <- Lp. rewrite firstn_app, Nat.sub_diag, firstn_all. simpl.
    apply app_nil_r. }
  assert (Fh : firstn k (dh ++ dh') = dh).
  { rewrite <- Lh. rewrite firstn_app, Nat.sub_diag, firstn_all. simpl.
    apply app_nil_r. }
  simpl. rewrite Fp, Fh.
  split; [exact Ek|]. rewrite !length_app. lia.
Qed.

Lemma nth_firstn_lt {A : Type} (l : list A) (k i : nat) (d : A) :
  i < k -> nth i (firstn k l) d = nth i l d.
Proof.
  revert k i. induction l as [|a l IH]; intros [|k] [|i] H; simpl;
    try reflexivity; try lia.
  apply IH. lia.
Qed.

Lemma RHN_forward_items (r : RHN.t) (x out hs : tensor) :
  RHN.forward r x = Some (out, hs) ->
  exists batch n s preds hw,
    size x 0 = Some batch /\ size x 1 = Some n
    /\ for_each (seq 0 n) (zeros [batch; RHN.n_units r], [], [])
         (RHN.step r x) = Some (s, preds, hw)
    /\ (forall b t u p0, t < n -> item out [b; t; u] = item (nth t preds p0) [b; u])
    /\ (forall b t u d h0, t < n ->
          item hs [b; t; u; d] = item (nth t hw h0) [d; b; u]).
Proof.
  unfold RHN.forward. intros H. do 3 inv_bind H.
  destruct v1 as [[s preds] hw].
  do 4 inv_bind H. inv_some H.
  exists v, v0, s, preds, hw.
  split; [exact E|]. split; [exact E0|]. split; [exact E1|].
  destruct (RHN_loop_prefix r x v0 v0 _ _ _ _ (le_n _) E1) as (_ & _ & Lp & Lh).
  destruct (stack_shapes _ _ E2) as (p0 & _ & SP & _ & IP).
  destruct (stack_shapes _ _ E4) as (h0 & _ & SH & _ & IH).
  split.
  - intros b t u p1 Ht. rewrite (permute_item _ _ _ _ E3), SP.
    unfold permute in E3. rewrite SP in E3.
    destruct (shape p0) as [|d0 [|d1 [|? ?]]]; simpl in E3; try discriminate.
    simpl. rewrite IP. f_equal. apply nth_indep. lia.
  - intros b t u d h1 Ht. rewrite (permute_item _ _ _ _ E5), SH.
    unfold permute in E5. rewrite SH in E5.
    destruct (shape h0) as [|d0 [|d1 [|d2 [|? ?]]]]; simpl in E5;
      try discriminate.
    simpl. rewrite IH. f_equal. apply nth_indep. lia.
Qed.

Lemma RHN_step_ext (r : RHN.t) (x x' : tensor) (t_ : nat)
    (st : tensor * list tensor * list tensor) :
  select1 x t_ = select1 x' t_ -> RHN.step r x t_ st = RHN.step r x' t_ st.
Proof.
  intros H. unfold RHN.step. destruct st as [[s p] h]. rewrite H. reflexivity.
Qed.

Lemma RHN_forward_prefix (r : RHN.t) (x x' out hs out' hs' : tensor)
    (t_ : nat) :
  RHN.forward r x = Some (out, hs) ->
  RHN.forward r x' = Some (out', hs') ->
  size x 0 = size x' 0 ->
  (exists n n', size x 1 = Some n /\ size x' 1 = Some n'
                /\ t_ < n /\ t_ < n') ->
  (forall j, j <= t_ -> select1 x j = select1 x' j) ->
  forall b u,
    item out [b; t_; u] = item out' [b; t_; u]
    /\ forall d, item hs [b; t_; u; d] = item hs' [b; t_; u; d].
Proof.
  intros E E' Hb (n & n' & Hn & Hn' & Ht & Ht') Hsl b u.
  destruct (RHN_forward_items r x out hs E)
    as (batch & n1 & s & preds & hw & Eb & En & El & Io & Ih).
  destruct (RHN_forward_items r x' out' hs' E')
    as (batch' & n1' & s' & preds' & hw' & Eb' & En' & El' & Io' & Ih').
  rewrite Hn in En. injection En as <-.
  rewrite Hn' in En'. injection En' as <-.
  rewrite Eb, Eb' in Hb. injection Hb as <-.
  destruct (RHN_loop_prefix r x n (S t_) _ _ _ _ Ht El) as (sk & Ek & _).
  destruct (RHN_loop_prefix r x' n' (S t_) _ _ _ _ Ht' El') as (sk' & Ek' & _).
  rewrite (for_each_ext _ _ (RHN.step r x) (RHN.step r x')) in Ek.
  2:{ intros a st Hin. apply in_seq in Hin. apply RHN_step_ext, Hsl. lia. }
  rewrite Ek in Ek'.
  assert (Ep : firstn (S t_) preds = firstn (S t_) preds') by congruence.
  assert (Eh : firstn (S t_) hw = firstn (S t_) hw') by congruence.
  assert (Hp : forall d0, nth t_ preds d0 = nth t_ preds' d0).
  { intros d0. rewrite <- (nth_firstn_lt preds (S t_) t_) by lia.
    rewrite Ep. apply nth_firstn_lt. lia. }
  assert (Hh : forall d0, nth t_ hw d0 = nth t_ hw' d0).
  { intros d0. rewrite <- (nth_firstn_lt hw (S t_) t_) by lia.
    rewrite Eh. apply nth_firstn_lt. lia. }
  split.
  - rewrite (Io b t_ u (zeros [])), (Io' b t_ u (zeros [])) by assumption.
    rewrite Hp. reflexivity.
  - intros d.
    rewrite (Ih b t_ u d (zeros [])), (Ih' b t_ u d (zeros [])) by assumption.
    rewrite Hh. reflexivity.
Qed.

(** X12.  The encoder is causal: the states of timestep [t] depend on the
    input of the timesteps [0 .. t] only. Two batches (of possibly different
    lengths) whose slices at these timesteps are equal give the same states
    at timestep [t]; and a valid encoder returns on both. *)
Theorem RHN_forward_is_causal (r : RHN.t) (x x' : tensor)
    (B T T' t_ : nat) :
  rhn_ok r B = true ->
  shape x = [B; T; RHN.in_feats r] ->
  shape x' = [B; T'; RHN.in_feats r] ->
  t_ < T -> t_ < T' ->
  (forall j, j <= t_ -> select1 x j = select1 x' j) ->
  exists out hs out' hs',
    RHN.forward r x = Some (out, hs)
    /\ RHN.forward r x' = Some (out', hs')
    /\ forall b u,
         item out [b; t_; u] = item out' [b; t_; u]
         /\ forall d, item hs [b; t_; u; d] = item hs' [b; t_; u; d].
Proof.
  intros Hok Hx Hx' Ht Ht' Hsl.
  destruct (rhn_forward_ok r x B T Hok Hx) as (out & hs & E & _); [lia|].
  destruct (rhn_forward_ok r x' B T' Hok Hx') as (out' & hs' & E' & _); [lia|].
  exists out, hs, out', hs'. split; [exact E|]. split; [exact E'|].
  apply (RHN_forward_prefix r x x' out hs out' hs' t_ E E').
  - unfold size. rewrite Hx, Hx'. reflexivity.
  - exists T, T'. unfold size. rewrite Hx, Hx'. auto.
  - exact Hsl.
Qed.

(** ** The context is a weighted average of encoder states *)

Lemma rsum_ext (n : nat) (f g : nat -> R) :
  (forall j, j < n -> f j = g j) -> rsum n f = rsum n g.
Proof.
  induction n as [|n IH]; intros H; simpl; [reflexivity|].
  rewrite IH, (H n) by auto. reflexivity.
Qed.

Lemma rsum_average (n : nat) (f a : nat -> R) (lo hi : R) :
  (forall j, j < n -> (lo <= f j <= hi)%R) ->
  (forall j, (0 <= a j)%R) ->
  (lo * rsum n a <= rsum n (fun j => f j * a j) <= hi * rsum n a)%R.
Proof.
  intros Hf Ha. induction n as [|n IH]; simpl; [lra|].
  destruct IH as [IH1 IH2]; [auto|].
  pose proof (Hf n (Nat.lt_succ_diag_r n)). pose proof (Ha n). nra.
Qed.

(** X13.  Lines 179-184. In a valid network the context [d_t_k] of depth [k]
    is, entry by entry, an average over the timesteps of the encoder states
    of that depth, weighted by the attention: it lies between any two bounds
    of these states. *)
Theorem attention_context_within_state_range (m : HARHN.t)
    (h_t_l s_rep : tensor) (B k : nat) (lo hi : R) :
  let D := Z.to_nat (HARHN.rec_depth m) in
  let ne := HARHN.n_units_enc m in
  layers_ok (HARHN.T_k m) D (HARHN.n_units_dec m) ne = true ->
  layers_ok (HARHN.U_k m) D ne ne = true ->
  layers_ok (HARHN.v_k m) D ne 1 = true ->
  shape h_t_l = [B; HARHN.T m; ne; D] ->
  shape s_rep = [B; HARHN.T m; HARHN.n_units_dec m] ->
  k < D -> 1 <= HARHN.T m ->
  (forall b t_ u, b < B -> t_ < HARHN.T m -> u < ne ->
     (lo <= item h_t_l [b; t_; u; k] <= hi)%R) ->
  exists alpha d_t_k,
    HARHN.attend m h_t_l s_rep k = Some (alpha, d_t_k)
    /\ shape d_t_k = [B; ne]
    /\ forall b u, b < B -> u < ne -> (lo <= item d_t_k [b; u] <= hi)%R.
Proof.
  intros D ne HT HU Hv Hh Hs Hk HTm Hb. unfold HARHN.attend.
  assert (Eh : exists h_t_k, select_last h_t_l k = Some h_t_k
                 /\ shape h_t_k = [B; HARHN.T m; ne]
                 /\ forall idx, item h_t_k idx = item h_t_l (idx ++ [k])).
  { unfold select_last. rewrite Hh. simpl.
    destruct (Nat.ltb_spec k D); [|lia].
    eexists; split; [reflexivity|]. split; reflexivity. }
  destruct Eh as (h_t_k & Eh & Sh & Ih). rewrite Eh; cbn [bind].
  destruct (call_nth_ok (HARHN.U_k m) D ne ne k [B; HARHN.T m] h_t_k HU Hk Sh)
    as (uh & EU & SU).
  destruct (call_nth_ok (HARHN.T_k m) D _ ne k [B; HARHN.T m] s_rep HT Hk Hs)
    as (ts & ET & ST).
  rewrite EU, ET; cbn [bind].
  destruct (call_nth_some _ _ _ _ k Hv Hk) as (v & Ev).
  rewrite Ev; cbn [bind].
  destruct (binop_same Rplus ts uh) as (a & Ea & Sa & _); [congruence|].
  unfold add. rewrite Ea; cbn [bind].
  destruct (Linear_forward_ok v ne 1 [B; HARHN.T m] (tanh_t a))
    as (e & Ee & Se);
    [eapply layers_ok_nth; eassumption | simpl in *; congruence |].
  rewrite Ee; cbn [bind]. cbn [app] in Se.
  destruct (softmax1 e) as [alpha|] eqn:Eal;
    [|unfold softmax1 in Eal; rewrite Se in Eal; discriminate].
  destruct (softmax1_distribution e alpha _ _ _ Se HTm Eal)
    as (_ & Hpos & Hsum).
  assert (Sal : shape alpha = [B; HARHN.T m; 1]).
  { unfold softmax1 in Eal. rewrite Se in Eal. injection Eal as Eal.
    rewrite <- Eal. reflexivity. }
  cbn [bind]. unfold mul, binop. rewrite Sh, Sal, broadcast_last_one.
  cbn [bind]. unfold sum1. cbn [shape bind].
  eexists; eexists; split; [reflexivity|]. split; [reflexivity|].
  intros b u Hb' Hu. cbn [item].
  rewrite (rsum_ext _ _ (fun j => (item h_t_l [b; j; u; k]
                                   * item alpha [b; j; 0%nat])%R)).
  - pose proof (rsum_average (HARHN.T m)
                  (fun j => item h_t_l [b; j; u; k])
                  (fun j => item alpha [b; j; 0]) lo hi) as Havg.
    cbv beta in Havg. rewrite (Hsum b [0]) in Havg.
    rewrite !Rmult_1_r in Havg. apply Havg.
    + intros j Hj. apply Hb; assumption.
    + intros j. apply Hpos.
  - intros j Hj.
    rewrite bidx_inb by (repeat constructor; assumption).
    rewrite Ih. cbn [app]. f_equal.
    unfold bidx. cbn [length skipn Nat.sub clamp_ones].
    destruct (Nat.eqb_spec B 1) as [->|_];
      [replace b with 0 by lia|];
      (destruct (Nat.eqb_spec (HARHN.T m) 1) as [E1|_];
       [replace j with 0 by lia|]; reflexivity).
Qed.

(** ** Batch normalisation and batches of one sample *)

Lemma BatchNorm1d_training_single (m : BatchNorm1d) (x : tensor) (c : nat) :
  training m = true -> shape x = [1; c] -> BatchNorm1d_forward m x = None.
Proof.
  intros Ht Hx. unfold BatchNorm1d_forward. rewrite Hx, Ht. simpl.
  rewrite !andb_false_r. reflexivity.
Qed.

(** X14.  An encoder built with [use_batch_norm=True] is in training mode,
    in which batch normalisation needs more than one value per channel: it
    fails on every batch of a single sample. *)
Theorem RHN_batch_norm_rejects_single_sample (in_feats out_feats
    n_units : nat) (rec_depth : Z)
    (couple_gates use_hsg init_gates_closed : bool) (g : Init.rng) :
  1 <= in_feats -> 1 <= n_units ->
  (0 < rec_depth)%Z ->
  exists r g',
    RHN.__init__ in_feats out_feats n_units rec_depth couple_gates use_hsg
      init_gates_closed true g = inr (r, g')
    /\ forall x T F, shape x = [1; T; F] -> RHN.forward r x = None.
Proof.
  intros _ _ Hd. unfold RHN.__init__.
  assert (Ea : Init.assert (0 <? rec_depth)%Z g = inr (tt, g)).
  { unfold Init.assert. rewrite (proj2 (Z.ltb_lt 0 rec_depth) Hd).
    reflexivity. }
  rewrite (bindM_inr _ _ _ _ _ Ea).
  destruct (RHNCell_run in_feats n_units rec_depth couple_gates use_hsg
              init_gates_closed g Hd) as (c & g1 & E1 & _).
  rewrite (bindM_inr _ _ _ _ _ E1).
  rewrite ?bindM_assoc. unfold Init.BatchNorm1d. rewrite ?bindM_ret.
  eexists; eexists; split; [reflexivity|].
  intros x T F Hx. unfold RHN.forward, size. rewrite Hx.
  cbn [nth_error bind].
  destruct T as [|T]; [reflexivity|].
  cbn [seq for_each]. unfold RHN.step at 1.
  cbn [RHN.use_batch_norm RHN.bn_x RHN.bn_s fst snd].
  assert (Es : exists x_t, select1 x 0 = Some x_t /\ shape x_t = [1; F]).
  { unfold select1. rewrite Hx. simpl. eexists; split; reflexivity. }
  destruct Es as (x_t & Es & Sx). rewrite Es. cbn [bind].
  match goal with
  | |- context [BatchNorm1d_forward ?m x_t] =>
      rewrite (BatchNorm1d_training_single m x_t F eq_refl Sx)
  end.
  reflexivity.
Qed.

Lemma RHN_batch_norm_rejects_single_sample_witness :
  1 <= 5 /\ 1 <= 32 /\ (0 < 3)%Z
  /\ exists r g',
       RHN.__init__ 5 32 32 3 true false false true
         (Init.mkRng (fun _ => 0%R) 0) = inr (r, g')
       /\ forall x T F, shape x = [1; T; F] -> RHN.forward r x = None.
Proof.
  split; [lia|]. split; [lia|]. split; [lia|].
  apply (RHN_batch_norm_rejects_single_sample 5 32 32 3 true false false
           (Init.mkRng (fun _ => 0%R) 0)); lia.
Defined.

Lemma HSGLayer_forward_interpolates_witness :
  hsg_ok Example.gate 3 = true
  /\ shape Example.s = [1] ++ [3]
  /\ shape Inputs.s_prev = [1] ++ [3]
  /\ exists g,
       HSGLayer.forward Example.gate Example.s Inputs.s_prev = Some g
       /\ shape g = [1] ++ [3]
       /\ forall idx, inb ([1] ++ [3]) idx ->
            (Rmin (item Example.s idx) (item Inputs.s_prev idx)
             <= item g idx
             <= Rmax (item Example.s idx) (item Inputs.s_prev idx))%R.
Proof.
  split; [reflexivity|]. split; [reflexivity|]. split; [reflexivity|].
  apply (HSGLayer_forward_interpolates Example.gate 3 [1] Example.s
           Inputs.s_prev); reflexivity.
Defined.

Lemma x32_continued_slices (j : nat) :
  j <= 14 -> select1 Example.x32 j = select1 Inputs.x32_continued j.
Proof.
  intros Hj. unfold Example.x32. rewrite select1_full by lia.
  unfold select1, Inputs.x32_continued. cbn [shape].
  destruct (Nat.ltb_spec j 20); [|lia].
  f_equal. apply tensor_ext; [reflexivity|].
  intros [|i0 r]; cbn [item full nth]; [reflexivity|].
  destruct (Nat.ltb_spec j 15); [reflexivity | lia].
Qed.

Lemma RHN_forward_is_causal_witness :
  rhn_ok Example.rhn32 4 = true
  /\ shape Example.x32 = [4; 15; RHN.in_feats Example.rhn32]
  /\ shape Inputs.x32_continued = [4; 20; RHN.in_feats Example.rhn32]
  /\ 14 < 15 /\ 14 < 20
  /\ (forall j, j <= 14 ->
        select1 Example.x32 j = select1 Inputs.x32_continued j)
  /\ exists out hs out' hs',
       RHN.forward Example.rhn32 Example.x32 = Some (out, hs)
       /\ RHN.forward Example.rhn32 Inputs.x32_continued = Some (out', hs')
       /\ forall b u,
            item out [b; 14; u] = item out' [b; 14; u]
            /\ forall d, item hs [b; 14; u; d] = item hs' [b; 14; u; d].
Proof.
  split; [reflexivity|]. split; [reflexivity|]. split; [reflexivity|].
  split; [lia|]. split; [lia|]. split; [exact x32_continued_slices|].
  apply (RHN_forward_is_causal Example.rhn32 Example.x32
           Inputs.x32_continued 4 15 20 14);
    [reflexivity | reflexivity | reflexivity | lia | lia
    | exact x32_continued_slices].
Defined.

Lemma attention_context_within_state_range_witness :
  layers_ok (HARHN.T_k Scenario.model) 2 2 2 = true
  /\ layers_ok (HARHN.U_k Scenario.model) 2 2 2 = true
  /\ layers_ok (HARHN.v_k Scenario.model) 2 2 1 = true
  /\ shape Inputs.h_t_l = [2; 5; 2; 2]
  /\ shape Inputs.s_rep = [2; 5; 2]
  /\ 1 < 2 /\ 1 <= 5
  /\ (forall b t_ u, b < 2 -> t_ < 5 -> u < 2 ->
        (0 <= item Inputs.h_t_l [b; t_; u; 1%nat] <= 1)%R)
  /\ exists alpha d_t_k,
       HARHN.attend Scenario.model Inputs.h_t_l Inputs.s_rep 1
       = Some (alpha, d_t_k)
       /\ shape d_t_k = [2; 2]
       /\ forall b u, b < 2 -> u < 2 -> (0 <= item d_t_k [b; u] <= 1)%R.
Proof.
  assert (Hb : forall b t_ u, b < 2 -> t_ < 5 -> u < 2 ->
             (0 <= item Inputs.h_t_l [b; t_; u; 1%nat] <= 1)%R).
  { intros b t_ u _ _ _. simpl. lra. }
  split; [reflexivity|]. split; [reflexivity|]. split; [reflexivity|].
  split; [reflexivity|]. split; [reflexivity|]. split; [lia|]. split; [lia|].
  split; [exact Hb|].
  apply (attention_context_within_state_range Scenario.model Inputs.h_t_l
           Inputs.s_rep 2 1 0 1);
    [reflexivity | reflexivity | reflexivity | reflexivity | reflexivity
    | simpl; lia | simpl; lia | exact Hb].
Defined.

Lemma HARHN_init_returns_iff_positive_witness :
  (1 <= 15 /\ 1 <= 7 /\ 1 <= 1 /\ 1 <= 64 /\ 1 <= 64 /\ 1 <= 32 /\ 1 <= 32
   /\ 1 <= 5)
  /\ ((exists m g',
          HARHN.__init__ 3 15 7 1 64 64 32 3 1 32 5
            (Init.mkRng (fun _ => 0%R) 0) = inr (m, g'))
      <-> (0 < 3 /\ 0 < 3)%Z).
Proof.
  assert (Hs : 1 <= 15 /\ 1 <= 7 /\ 1 <= 1 /\ 1 <= 64 /\ 1 <= 64 /\ 1 <= 32
               /\ 1 <= 32 /\ 1 <= 5) by lia.
  split; [exact Hs|].
  apply (HARHN_init_returns_iff_positive 3 15 7 1 64 64 32 3 1 32 5
           (Init.mkRng (fun _ => 0%R) 0) Hs).
Defined.

(** ** Batches of windows (prepare_batches) *)

Section BatchesFacts.

Import Stdlib.Strings.String.
Import Batches.

Lemma bindE_inr {A B : Type} (m : exn + A) (f : A -> exn + B) (b : B) :
  bindE m f = inr b -> exists a, m = inr a /\ f a = inr b.
Proof.
  destruct m as [e|a]; simpl; intros H; [discriminate | eauto].
Qed.

Lemma length_shift (s : Series) (k : Z) :
  List.length (shift s k) = List.length s.
Proof.
  unfold shift. destruct (0 <=? k)%Z;
    rewrite length_app, repeat_length, ?length_firstn, ?length_skipn; lia.
Qed.

Lemma length_bfill (s : Series) :
  List.length (fillna_bfill s) = List.length s.
Proof. induction s as [|v s IH]; simpl; congruence. Qed.

Lemma length_ffill_from (p : option R) (s : Series) :
  List.length (ffill_from p s) = List.length s.
Proof. revert p; induction s as [|v s IH]; intros p; simpl; congruence. Qed.

(** Shifting forward by [k] reads [k] entries earlier. *)
Lemma nth_shift_forward (s : Series) (k : Z) (m : nat) :
  (0 <= k)%Z -> Z.to_nat k <= m -> m < List.length s ->
  nth m (shift s k) None = nth (m - Z.to_nat k) s None.
Proof.
  intros Hk Hkm Hm. unfold shift.
  destruct (Z.leb_spec 0 k); [|lia].
  rewrite Nat.min_l by lia.
  rewrite app_nth2; rewrite repeat_length; [|lia].
  apply nth_firstn_lt. lia.
Qed.

(** Filling keeps the entries that are not NaN. *)
Lemma nth_bfill_valid (s : Series) (m : nat) (v : R) :
  nth m s None = Some v -> nth m (fillna_bfill s) None = Some v.
Proof.
  revert m. induction s as [|a s IH]; intros [|m] H; simpl in *;
    try discriminate.
  - rewrite H. reflexivity.
  - apply IH. assumption.
Qed.

End BatchesFacts.

Section BatchesLoops.

Import Stdlib.Strings.String.
Import Batches.

Variable data : DataFrame.
Variable timesteps : Z.

(** The loop over the timesteps writes the windows of one column and
    nothing else. *)
Lemma fill_loop (name : string) (i n t f : nat) (col : Series)
    (l : list nat) (a : ndarray) :
  getitem data name = inr col -> List.length col = n ->
  dims a = [n; t; f] -> i < f -> Forall (fun j => j < t) l ->
  exists a',
    for_eachE l a (fill data timesteps name i) = inr a'
    /\ dims a' = [n; t; f]
    /\ forall r j' i', r < n ->
         get a' [r; j'; i']
         = if (i' =? i) && existsb (Nat.eqb j') l
           then nth r (fillna_bfill
                         (shift col (timesteps - Z.of_nat j' - 1))) None
           else get a [r; j'; i'].
Proof.
  intros Hg Hlen. revert a. induction l as [|j l IH]; intros a Hd Hi Hl.
  - exists a. split; [reflexivity|]. split; [assumption|].
    intros r j' i' _. simpl. rewrite andb_false_r. reflexivity.
  - apply Forall_cons_iff in Hl. destruct Hl as [Hj Hl'].
    simpl. unfold fill at 1. rewrite Hg. cbn [bindE].
    unfold set_column. rewrite Hd.
    rewrite (proj2 (Nat.ltb_lt j t) Hj), (proj2 (Nat.ltb_lt i f) Hi).
    cbn [andb].
    rewrite length_bfill, length_shift, Hlen, Nat.eqb_refl. cbn [orb bindE].
    match goal with
    | |- context [for_eachE l ?a1 _] =>
        destruct (IH a1) as (a' & E & Hd' & Hget)
    end; [reflexivity | exact Hi | exact Hl' |].
    exists a'. split; [exact E|]. split; [exact Hd'|].
    intros r j' i' Hr. rewrite (Hget r j' i' Hr). cbn [get].
    destruct (Nat.eqb_spec i' i) as [->|Hne]; cbn [andb].
    + destruct (existsb (Nat.eqb j') l) eqn:Ex.
      * rewrite orb_true_r. reflexivity.
      * rewrite orb_false_r, andb_true_r.
        destruct (Nat.eqb_spec j' j) as [->|Hnj]; [|reflexivity].
        destruct (Nat.eqb_spec n 1) as [E1|_]; [|reflexivity].
        replace r with 0 by lia. reflexivity.
    + rewrite andb_false_r. reflexivity.
Qed.

(** A missing label stops the loop at its first iteration. *)
Lemma fill_loop_KeyError (name : string) (i : nat) (l : list nat)
    (a : ndarray) :
  getitem data name = inl KeyError -> l <> [] ->
  for_eachE l a (fill data timesteps name i) = inl KeyError.
Proof.
  intros Hg Hl. destruct l as [|j l]; [congruence|].
  simpl. unfold fill at 1. rewrite Hg. reflexivity.
Qed.

Lemma existsb_range (j : nat) (t : Z) :
  existsb (Nat.eqb j) (range t) = (j <? Z.to_nat t).
Proof.
  unfold range. destruct (Nat.ltb_spec j (Z.to_nat t)) as [H|H].
  - apply existsb_exists. exists j. split; [|apply Nat.eqb_refl].
    apply in_seq. lia.
  - destruct (existsb _ _) eqn:E; [|reflexivity].
    apply existsb_exists in E. destruct E as (k & Hk & Ek).
    apply in_seq in Hk. apply Nat.eqb_eq in Ek. lia.
Qed.

(** The loop over the feature columns. *)
Lemma fill_all_loop (n f : nat) (ps : list (nat * string)) (a : ndarray) :
  dims a = [n; Z.to_nat timesteps; f] ->
  NoDup (map fst ps) ->
  Forall (fun p => fst p < f
                   /\ exists col, getitem data (snd p) = inr col
                                  /\ List.length col = n) ps ->
  exists a',
    for_eachE ps a (fun p x =>
      for_eachE (range timesteps) x (fill data timesteps (snd p) (fst p)))
    = inr a'
    /\ dims a' = [n; Z.to_nat timesteps; f]
    /\ (forall r j i name col,
          In (i, name) ps -> getitem data name = inr col ->
          r < n -> j < Z.to_nat timesteps ->
          get a' [r; j; i]
          = nth r (fillna_bfill
                     (shift col (timesteps - Z.of_nat j - 1))) None).
Proof.
  revert a.
  assert (G : forall a, dims a = [n; Z.to_nat timesteps; f] ->
    NoDup (map fst ps) ->
    Forall (fun p => fst p < f
                     /\ exists col, getitem data (snd p) = inr col
                                    /\ List.length col = n) ps ->
    exists a',
      for_eachE ps a (fun p x =>
        for_eachE (range timesteps) x (fill data timesteps (snd p) (fst p)))
      = inr a'
      /\ dims a' = [n; Z.to_nat timesteps; f]
      /\ (forall r j i name col,
            In (i, name) ps -> getitem data name = inr col ->
            r < n -> j < Z.to_nat timesteps ->
            get a' [r; j; i]
            = nth r (fillna_bfill
                       (shift col (timesteps - Z.of_nat j - 1))) None)
      /\ (forall r j i, ~ In i (map fst ps) -> r < n ->
            get a' [r; j; i] = get a [r; j; i])).
  { induction ps as [|[i0 name0] ps IH]; intros a Hd Hnd Hall.
    - exists a. split; [reflexivity|]. split; [assumption|].
      split; [intros ? ? ? ? ? []|]. reflexivity.
    - apply NoDup_cons_iff in Hnd. destruct Hnd as [Hnotin Hnd'].
      apply Forall_cons_iff in Hall.
      destruct Hall as [[Hi0 (col0 & Hg0 & Hl0)] Hall'].
      simpl in Hi0, Hg0.
      destruct (fill_loop name0 i0 n (Z.to_nat timesteps) f col0
                  (range timesteps) a Hg0 Hl0 Hd Hi0)
        as (a1 & E1 & Hd1 & Hget1).
      { apply Forall_forall. intros j Hj. apply in_seq in Hj. lia. }
      destruct (IH a1 Hd1 Hnd' Hall') as (a' & E' & Hd' & Hin & Hout).
      exists a'. split.
      { simpl. rewrite E1. exact E'. }
      split; [exact Hd'|]. split.
      + intros r j i name col [Heq|Hin'] Hg Hr Hj.
        * injection Heq as <- <-.
          rewrite Hout by assumption. rewrite Hget1 by assumption.
          rewrite Nat.eqb_refl, existsb_range.
          rewrite (proj2 (Nat.ltb_lt _ _) Hj). cbn [andb].
          congruence.
        * eapply Hin; eassumption.
      + intros r j i Hni Hr. simpl in Hni.
        rewrite Hout by tauto. rewrite Hget1 by assumption.
        destruct (Nat.eqb_spec i i0) as [->|_]; [tauto|]. reflexivity. }
  intros a Hd Hnd Hall.
  destruct (G a Hd Hnd Hall) as (a' & E & Hd' & Hin & _).
  exists a'. auto.
Qed.

End BatchesLoops.

Section BatchesResults.

Import Stdlib.Strings.String.
Import Batches.

Lemma lookup_In (cols : list (string * Series)) (name : string)
    (col : Series) :
  lookup cols name = inr col -> In (name, col) cols.
Proof.
  induction cols as [|[n s] cols IH]; simpl; [discriminate|].
  destruct (String.eqb_spec n name) as [->|_].
  - intros H. injection H as ->. left; reflexivity.
  - intros H. right. apply IH. assumption.
Qed.

Lemma lookup_missing (cols : list (string * Series)) (name : string) :
  ~ In name (map fst cols) -> lookup cols name = inl KeyError.
Proof.
  induction cols as [|[n s] cols IH]; simpl; [reflexivity|].
  intros H. destruct (String.eqb_spec n name) as [->|_]; [tauto|].
  apply IH. tauto.
Qed.

Lemma lookup_found (cols : list (string * Series)) (name : string) :
  In name (map fst cols) -> exists col, lookup cols name = inr col.
Proof.
  induction cols as [|[n s] cols IH]; simpl; [intros []|].
  intros H. destruct (String.eqb_spec n name) as [->|Hne]; [eauto|].
  apply IH. destruct H; [contradiction | assumption].
Qed.

Lemma lookup_nth (cols : list (string * Series)) (i : nat) (name : string)
    (col : Series) :
  NoDup (map fst cols) -> nth_error cols i = Some (name, col) ->
  lookup cols name = inr col.
Proof.
  revert i. induction cols as [|[n s] cols IH]; intros [|i] Hnd H;
    simpl in *; try discriminate.
  - injection H as -> ->. rewrite String.eqb_refl. reflexivity.
  - apply NoDup_cons_iff in Hnd. destruct Hnd as [Hni Hnd].
    destruct (String.eqb_spec n name) as [->|_].
    + exfalso. apply Hni. apply nth_error_In in H.
      change name with (fst (name, col)). apply in_map. assumption.
    + eapply IH; eassumption.
Qed.

Lemma In_enumerate {A : Type} (l : list A) (i : nat) (a : A) :
  In (i, a) (enumerate l) <-> nth_error l i = Some a.
Proof.
  unfold enumerate.
  assert (G : forall k, In (i, a) (combine (seq k (List.length l)) l)
                        <-> k <= i /\ nth_error l (i - k) = Some a).
  { induction l as [|b l IH]; intros k; simpl.
    - split; [intros [] | intros [_ H]]. destruct (i - k); discriminate.
    - rewrite IH. split.
      + intros [H|[H1 H2]].
        * injection H as -> ->. rewrite Nat.sub_diag. auto.
        * split; [lia|]. replace (i - k) with (S (i - S k)) by lia.
          assumption.
      + intros [H1 H2]. destruct (Nat.eq_dec k i) as [->|Hne].
        * rewrite Nat.sub_diag in H2. injection H2 as ->. auto.
        * right. split; [lia|].
          replace (i - k) with (S (i - S k)) in H2 by lia. assumption. }
  rewrite G, Nat.sub_0_r. split; [intros [_ H]; exact H | intros H].
  split; [lia | exact H].
Qed.

Lemma map_fst_enumerate {A : Type} (l : list A) :
  map fst (enumerate l) = seq 0 (List.length l).
Proof.
  unfold enumerate. generalize 0. induction l as [|a l IH]; intros k; simpl;
    [reflexivity|]. rewrite IH. reflexivity.
Qed.

Lemma nth_error_removelast {A : Type} (l : list A) (i : nat) :
  i < List.length l - 1 -> nth_error (removelast l) i = nth_error l i.
Proof.
  intros H. rewrite removelast_firstn_len, nth_error_firstn.
  destruct (Nat.ltb_spec i (Nat.pred (List.length l))); [reflexivity | lia].
Qed.

Lemma length_removelast {A : Type} (l : list A) :
  List.length (removelast l) = List.length l - 1.
Proof. rewrite removelast_firstn_len, length_firstn. lia. Qed.

Lemma slice_start_nonneg (n : nat) (t : Z) :
  (0 <= t)%Z -> slice_start n t = Nat.min (Z.to_nat t) n.
Proof.
  intros H. unfold slice_start. destruct (Z.ltb_spec t 0); [lia|reflexivity].
Qed.

(** The result of [prepare_batches] on a frame that has the target
    column, for a number of timesteps that is not negative. *)
Lemma prepare_batches_ok (data : DataFrame) (timesteps : Z)
    (target : string) (tcol : Series) :
  frame_ok data -> (0 <= timesteps)%Z ->
  getitem data target = inr tcol ->
  let n := nrows data in
  let T := Z.to_nat timesteps in
  let F := List.length (columns data) - 1 in
  exists x y tg,
    prepare_batches data timesteps target = inr (x, y, tg)
    /\ dims x = [n - T; T; F]
    /\ dims y = [n - T; T; 1]
    /\ tg = skipn T (fillna_ffill (shift tcol (-1)))
    /\ (forall r j i name col,
          nth_error (columns data) i = Some (name, col) -> i < F ->
          r < n - T -> j < T ->
          get x [r; j; i]
          = nth (r + T) (fillna_bfill
                           (shift col (timesteps - Z.of_nat j - 1))) None)
    /\ (forall r j,
          r < n - T -> j < T ->
          get y [r; j; 0]
          = nth (r + T) (fillna_bfill
                           (shift tcol (timesteps - Z.of_nat j - 1))) None).
Proof.
  intros [Hnd Hlen] HT Htg n T F. unfold prepare_batches.
  assert (Hne : 1 <= List.length (columns data)).
  { apply lookup_In in Htg. destruct (columns data); [destruct Htg|].
    simpl. lia. }
  assert (Ez : forall k : nat,
             zeros [Z.of_nat n; timesteps; Z.of_nat k]
             = inr (mkA [n; T; k] (fun _ => Some 0%R))).
  { intros k. unfold zeros. simpl.
    rewrite (proj2 (Z.leb_le 0 (Z.of_nat n))) by lia.
    rewrite (proj2 (Z.leb_le 0 timesteps) HT).
    rewrite (proj2 (Z.leb_le 0 (Z.of_nat k))) by lia.
    simpl. rewrite !Nat2Z.id. reflexivity. }
  replace (Z.of_nat (List.length (columns data)) - 1)%Z with (Z.of_nat F)
    by (unfold F; lia).
  change 1%Z with (Z.of_nat 1) at 1.
  fold n. rewrite !Ez. cbn [bindE].
  destruct (fill_all_loop data timesteps n F
              (enumerate (removelast (map fst (columns data))))
              (mkA [n; T; F] (fun _ => Some 0%R)) eq_refl)
    as (x & Ex & Dx & Gx).
  { rewrite map_fst_enumerate. apply seq_NoDup. }
  { apply Forall_forall. intros [i name] Hin. apply In_enumerate in Hin.
    assert (Hi : i < F).
    { assert (Hs : nth_error (removelast (map fst (columns data))) i
                   <> None) by congruence.
      apply nth_error_Some in Hs.
      rewrite length_removelast, length_map in Hs. exact Hs. }
    split; [exact Hi|]. simpl.
    rewrite nth_error_removelast in Hin by (rewrite length_map; exact Hi).
    rewrite nth_error_map in Hin.
    destruct (nth_error (columns data) i) as [[nm col]|] eqn:En;
      [|discriminate].
    simpl in Hin. injection Hin as ->.
    exists col. split; [apply (lookup_nth _ i); assumption|].
    rewrite Forall_forall in Hlen. apply (Hlen (name, col)).
    eapply nth_error_In; eassumption. }
  rewrite Ex. cbn [bindE].
  assert (Htl : List.length tcol = n).
  { rewrite Forall_forall in Hlen. apply (Hlen (target, tcol)).
    apply lookup_In. exact Htg. }
  destruct (fill_loop data timesteps target 0 n T 1 tcol (range timesteps)
              (mkA [n; T; 1] (fun _ => Some 0%R)) Htg Htl eq_refl)
    as (y & Ey & Dy & Gy); [lia | |].
  { apply Forall_forall. intros j Hj. apply in_seq in Hj. unfold T. lia. }
  rewrite Ey. cbn [bindE]. rewrite Htg. cbn [bindE].
  unfold slice_from. rewrite Dx, Dy. cbn [bindE].
  rewrite !slice_start_nonneg by assumption. fold T.
  unfold fillna_ffill at 1. rewrite length_ffill_from, length_shift, Htl.
  eexists; eexists; eexists. split; [reflexivity|].
  cbn [dims get].
  assert (Hsub : n - Nat.min T n = n - T) by lia.
  rewrite Hsub.
  split; [reflexivity|]. split; [reflexivity|]. split.
  { destruct (Nat.le_gt_cases T n) as [H|H].
    - rewrite Nat.min_l by assumption. reflexivity.
    - rewrite Nat.min_r by lia.
      unfold fillna_ffill.
      rewrite !skipn_all2;
        rewrite ?length_ffill_from, ?length_shift, ?Htl; try lia.
      reflexivity. }
  split.
  - intros r j i name col Hn Hi Hr Hj.
    rewrite Nat.min_l by lia.
    apply (Gx (r + T) j i name col).
    + apply In_enumerate.
      rewrite nth_error_removelast by (rewrite length_map; exact Hi).
      rewrite nth_error_map, Hn. reflexivity.
    + apply (lookup_nth _ i); assumption.
    + lia.
    + exact Hj.
  - intros r j Hr Hj. rewrite Nat.min_l by lia.
    rewrite (Gy (r + T) j 0) by lia.
    rewrite existsb_range. fold T.
    rewrite (proj2 (Nat.ltb_lt _ _) Hj). reflexivity.
Qed.

Lemma nth_shift_back (s : Series) (m : nat) :
  m + 1 < List.length s -> nth m (shift s (-1)) None = nth (m + 1) s None.
Proof.
  intros H. unfold shift. change (0 <=? -1)%Z with false. cbv beta iota zeta.
  change (Z.to_nat (- -1)) with 1. rewrite Nat.min_l by lia.
  rewrite app_nth1 by (rewrite length_skipn; lia).
  rewrite nth_skipn. f_equal. lia.
Qed.

Lemma nth_shift_back_last (s : Series) :
  1 <= List.length s -> nth (List.length s - 1) (shift s (-1)) None = None.
Proof.
  intros H. unfold shift. change (0 <=? -1)%Z with false. cbv beta iota zeta.
  change (Z.to_nat (- -1)) with 1. rewrite Nat.min_l by lia.
  rewrite app_nth2 by (rewrite length_skipn; lia).
  rewrite length_skipn. replace (List.length s - 1 - (List.length s - 1))
    with 0 by lia. reflexivity.
Qed.

Lemma nth_ffill_valid (p : option R) (s : Series) (m : nat) (v : R) :
  nth m s None = Some v -> nth m (ffill_from p s) None = Some v.
Proof.
  revert p m. induction s as [|a s IH]; intros p [|m] H; simpl in *;
    try discriminate.
  - rewrite H. reflexivity.
  - apply IH. assumption.
Qed.

(** A NaN is filled with the entry before it. *)
Lemma nth_ffill_nan (p : option R) (s : Series) (m : nat) :
  S m < List.length s -> nth (S m) s None = None ->
  nth (S m) (ffill_from p s) None = nth m (ffill_from p s) None.
Proof.
  revert p m. induction s as [|a s IH]; intros p m Hl H; simpl in *; [lia|].
  destruct m as [|m].
  - destruct s as [|b s]; simpl in *; [lia|]. rewrite H. reflexivity.
  - apply IH; [lia | assumption].
Qed.

(** X15.  prepare_batches raises ValueError for a negative number of
    timesteps and for a frame without columns, KeyError for a target that is
    not a column, and returns otherwise. *)
Theorem prepare_batches_exceptions (data : DataFrame) (timesteps : Z)
    (target : string) :
  frame_ok data ->
  ((timesteps < 0)%Z \/ columns data = [] ->
   prepare_batches data timesteps target = inl ValueError)
  /\ ((0 <= timesteps)%Z -> columns data <> [] ->
      ~ In target (map fst (columns data)) ->
      prepare_batches data timesteps target = inl KeyError)
  /\ ((0 <= timesteps)%Z -> In target (map fst (columns data)) ->
      exists r, prepare_batches data timesteps target = inr r).
Proof.
  intros Hok. split; [|split].
  - intros H. unfold prepare_batches, zeros. cbn [forallb].
    rewrite (proj2 (Z.leb_le 0 (Z.of_nat (nrows data)))) by lia.
    destruct H as [H| ->].
    + destruct (Z.leb_spec 0 timesteps); [lia|]. reflexivity.
    + simpl. rewrite andb_false_r. reflexivity.
  - intros HT Hne Hmiss.
    pose proof (lookup_missing _ _ Hmiss) as Hk.
    destruct Hok as [Hnd Hlen].
    set (n := nrows data). set (T := Z.to_nat timesteps).
    set (F := List.length (columns data) - 1).
    assert (H1 : 1 <= List.length (columns data)).
    { destruct (columns data); [congruence | simpl; lia]. }
    unfold prepare_batches.
    assert (Ez : forall k : nat,
               zeros [Z.of_nat n; timesteps; Z.of_nat k]
               = inr (mkA [n; T; k] (fun _ => Some 0%R))).
    { intros k. unfold zeros. simpl.
      rewrite (proj2 (Z.leb_le 0 (Z.of_nat n))) by lia.
      rewrite (proj2 (Z.leb_le 0 timesteps) HT).
      rewrite (proj2 (Z.leb_le 0 (Z.of_nat k))) by lia.
      simpl. rewrite !Nat2Z.id. reflexivity. }
    replace (Z.of_nat (List.length (columns data)) - 1)%Z with (Z.of_nat F)
      by (unfold F; lia).
    change 1%Z with (Z.of_nat 1) at 1.
    fold n. rewrite !Ez. cbn [bindE].
    destruct (fill_all_loop data timesteps n F
                (enumerate (removelast (map fst (columns data))))
                (mkA [n; T; F] (fun _ => Some 0%R)) eq_refl)
      as (x & Ex & Dx & Gx).
    { rewrite map_fst_enumerate. apply seq_NoDup. }
    { apply Forall_forall. intros [i name] Hin. apply In_enumerate in Hin.
      assert (Hi : i < F).
      { assert (Hs : nth_error (removelast (map fst (columns data))) i
                     <> None) by congruence.
        apply nth_error_Some in Hs.
        rewrite length_removelast, length_map in Hs. exact Hs. }
      split; [exact Hi|]. simpl.
      rewrite nth_error_removelast in Hin by (rewrite length_map; exact Hi).
      rewrite nth_error_map in Hin.
      destruct (nth_error (columns data) i) as [[nm col]|] eqn:En;
        [|discriminate].
      simpl in Hin. injection Hin as ->.
      exists col. split; [apply (lookup_nth _ i); assumption|].
      rewrite Forall_forall in Hlen. apply (Hlen (name, col)).
      eapply nth_error_In; eassumption. }
    rewrite Ex. cbn [bindE].
    destruct (range timesteps) as [|j l] eqn:Er.
    + cbn [for_eachE bindE]. unfold getitem in Hk. unfold getitem.
      rewrite Hk. reflexivity.
    + rewrite (fill_loop_KeyError data timesteps target 0 (j :: l));
        [reflexivity | exact Hk | discriminate].
  - intros HT Hin.
    destruct (lookup_found _ _ Hin) as (tcol & Htg).
    destruct (prepare_batches_ok data timesteps target tcol Hok HT Htg)
      as (x & y & tg & E & _).
    eauto.
Qed.

Lemma prepare_batches_exceptions_witness :
  frame_ok BatchesExample.frame
  /\ prepare_batches BatchesExample.frame (-1) "chla"%string = inl ValueError
  /\ prepare_batches BatchesExample.frame 2 "depth"%string = inl KeyError
  /\ exists r, prepare_batches BatchesExample.frame 2 "chla"%string = inr r.
Proof.
  assert (Hok : frame_ok BatchesExample.frame).
  { split.
    - repeat constructor; simpl; intuition discriminate.
    - repeat constructor. }
  split; [exact Hok|].
  destruct (prepare_batches_exceptions BatchesExample.frame (-1)
              "chla"%string Hok) as (H1 & _ & _).
  destruct (prepare_batches_exceptions BatchesExample.frame 2
              "depth"%string Hok) as (_ & H2 & _).
  destruct (prepare_batches_exceptions BatchesExample.frame 2
              "chla"%string Hok) as (_ & _ & H3).
  split; [apply H1; left; lia|].
  split; [apply H2; [lia | discriminate | simpl; intuition discriminate]|].
  apply H3; [lia | simpl; auto].
Defined.

Lemma frame_example_ok : frame_ok BatchesExample.frame.
Proof.
  split.
  - repeat constructor; simpl; intuition discriminate.
  - repeat constructor.
Qed.

(** X16.  The number of samples is the number of rows beyond the first
    [timesteps] (none when the frame has no more rows than that), and the
    number of features is the number of columns minus one, wherever the
    target column stands. *)
Theorem prepare_batches_shapes (data : DataFrame) (timesteps : Z)
    (target : string) :
  frame_ok data -> (0 <= timesteps)%Z ->
  In target (map fst (columns data)) ->
  exists x y tg,
    prepare_batches data timesteps target = inr (x, y, tg)
    /\ dims x = [nrows data - Z.to_nat timesteps; Z.to_nat timesteps;
                 List.length (columns data) - 1]
    /\ dims y = [nrows data - Z.to_nat timesteps; Z.to_nat timesteps; 1]
    /\ List.length tg = nrows data - Z.to_nat timesteps.
Proof.
  intros Hok HT Hin.
  destruct (lookup_found _ _ Hin) as (tcol & Htg).
  destruct (prepare_batches_ok data timesteps target tcol Hok HT Htg)
    as (x & y & tg & E & Dx & Dy & Etg & _).
  exists x, y, tg. split; [exact E|]. split; [exact Dx|]. split; [exact Dy|].
  rewrite Etg, length_skipn. unfold fillna_ffill.
  rewrite length_ffill_from, length_shift.
  destruct Hok as [_ Hlen]. rewrite Forall_forall in Hlen.
  pose proof (Hlen (target, tcol) (lookup_In _ _ _ Htg)) as Hl.
  simpl in Hl. rewrite Hl. reflexivity.
Qed.

Lemma prepare_batches_shapes_witness :
  frame_ok BatchesExample.frame_target_inside /\ (0 <= 7)%Z
  /\ In "chla"%string (map fst (columns BatchesExample.frame_target_inside))
  /\ exists x y tg,
       prepare_batches BatchesExample.frame_target_inside 7 "chla"%string
       = inr (x, y, tg)
       /\ dims x = [0; 7; 2] /\ dims y = [0; 7; 1] /\ List.length tg = 0.
Proof.
  assert (Hok : frame_ok BatchesExample.frame_target_inside).
  { split.
    - repeat constructor; simpl; intuition discriminate.
    - repeat constructor. }
  assert (Hin : In "chla"%string
                  (map fst (columns BatchesExample.frame_target_inside)))
    by (simpl; auto).
  split; [exact Hok|]. split; [lia|]. split; [exact Hin|].
  apply (prepare_batches_shapes BatchesExample.frame_target_inside 7
           "chla"%string Hok); [lia | exact Hin].
Defined.

(** An entry of a window that is not NaN is the entry of the column. *)
Lemma window_entry (data : DataFrame) (timesteps : Z) (col : Series)
    (r j : nat) (v : R) :
  List.length col = nrows data ->
  r < nrows data - Z.to_nat timesteps -> j < Z.to_nat timesteps ->
  nth (r + j + 1) col None = Some v ->
  nth (r + Z.to_nat timesteps)
    (fillna_bfill (shift col (timesteps - Z.of_nat j - 1))) None
  = Some v.
Proof.
  intros Hl Hr Hj Hv. apply nth_bfill_valid.
  rewrite nth_shift_forward by lia.
  replace (r + Z.to_nat timesteps - Z.to_nat (timesteps - Z.of_nat j - 1))
    with (r + j + 1) by lia.
  exact Hv.
Qed.

(** X17.  Sample [r] holds, at timestep [j], row [r + j + 1] of the frame:
    its window is the rows [r + 1 .. r + timesteps], for every feature
    column (all columns but the last) and, in [y], for the target column. An
    entry that is not NaN is copied as it is; row 0 is in no window. *)
Theorem prepare_batches_windows (data : DataFrame) (timesteps : Z)
    (target : string) (tcol : Series) :
  frame_ok data -> (0 <= timesteps)%Z ->
  getitem data target = inr tcol ->
  exists x y tg,
    prepare_batches data timesteps target = inr (x, y, tg)
    /\ (forall r j i name col v,
          nth_error (columns data) i = Some (name, col) ->
          i < List.length (columns data) - 1 ->
          r < nrows data - Z.to_nat timesteps -> j < Z.to_nat timesteps ->
          nth (r + j + 1) col None = Some v ->
          get x [r; j; i] = Some v)
    /\ (forall r j v,
          r < nrows data - Z.to_nat timesteps -> j < Z.to_nat timesteps ->
          nth (r + j + 1) tcol None = Some v ->
          get y [r; j; 0] = Some v).
Proof.
  intros Hok HT Htg.
  destruct (prepare_batches_ok data timesteps target tcol Hok HT Htg)
    as (x & y & tg & E & _ & _ & _ & Gx & Gy).
  destruct Hok as [_ Hlen]. rewrite Forall_forall in Hlen.
  exists x, y, tg. split; [exact E|]. split.
  - intros r j i name col v Hn Hi Hr Hj Hv.
    rewrite (Gx r j i name col Hn Hi Hr Hj).
    apply (window_entry data); try assumption.
    apply (Hlen (name, col)). eapply nth_error_In; eassumption.
  - intros r j v Hr Hj Hv. rewrite (Gy r j Hr Hj).
    apply (window_entry data); try assumption.
    apply (Hlen (target, tcol)). apply lookup_In. exact Htg.
Qed.

Lemma prepare_batches_windows_witness :
  frame_ok BatchesExample.frame /\ (0 <= 2)%Z
  /\ getitem BatchesExample.frame "chla"%string = inr BatchesExample.chla
  /\ exists x y tg,
       prepare_batches BatchesExample.frame 2 "chla"%string = inr (x, y, tg)
       /\ get x [0; 0; 0] = Some 2%R /\ get x [2; 1; 1] = Some 15%R
       /\ get y [1; 0; 0] = Some 23%R.
Proof.
  split; [exact frame_example_ok|]. split; [lia|]. split; [reflexivity|].
  destruct (prepare_batches_windows BatchesExample.frame 2 "chla"%string
              BatchesExample.chla frame_example_ok)
    as (x & y & tg & E & Hx & Hy); [lia | reflexivity |].
  exists x, y, tg. split; [exact E|]. split; [|split].
  - apply (Hx 0 0 0 "flow"%string BatchesExample.flow);
      [reflexivity | simpl; lia | simpl; lia | simpl; lia | reflexivity].
  - apply (Hx 2 1 1 "temp"%string BatchesExample.temp);
      [reflexivity | simpl; lia | simpl; lia | simpl; lia | reflexivity].
  - apply (Hy 1 0); [simpl; lia | simpl; lia | reflexivity].
Defined.

(** A NaN takes the filled value of the next entry. *)
Lemma nth_bfill_nan (s : Series) (a : nat) :
  nth a s None = None ->
  nth a (fillna_bfill s) None = nth (S a) (fillna_bfill s) None.
Proof.
  revert a. induction s as [|v s IH]; intros a H; [destruct a; reflexivity|].
  destruct a as [|a]; simpl in *.
  - rewrite H. destruct (fillna_bfill s); reflexivity.
  - apply IH. exact H.
Qed.

(** A run of NaN takes the first valid entry after it. *)
Lemma nth_bfill_next (s : Series) (a b : nat) (v : R) :
  a <= b -> (forall p, a <= p < b -> nth p s None = None) ->
  nth b s None = Some v ->
  nth a (fillna_bfill s) None = Some v.
Proof.
  intros Hab. induction Hab as [|b Hab IH]; intros Hnan Hv.
  - apply nth_bfill_valid. exact Hv.
  - assert (G : forall c, a <= c <= S b ->
                  nth c (fillna_bfill s) None = Some v).
    { intros c Hc.
      remember (S b - c) as k eqn:Ek. revert c Hc Ek.
      induction k as [|k IHk]; intros c Hc Ek.
      - replace c with (S b) by lia. apply nth_bfill_valid. exact Hv.
      - rewrite nth_bfill_nan by (apply Hnan; lia).
        apply IHk; lia. }
    apply G. lia.
Qed.

(** X18.  A NaN in a feature column is filled from below: when row [r + j +
    1] and the rows after it are NaN up to a row [q] that is not, and [q] is
    within the shifted series, [x[r, j, i]] is the entry of row [q], also
    when [q] lies after the last row [r + timesteps] of the window. *)
Theorem prepare_batches_backfills_from_later_rows (data : DataFrame)
    (timesteps : Z) (target : string) :
  frame_ok data -> (0 <= timesteps)%Z ->
  In target (map fst (columns data)) ->
  exists x y tg,
    prepare_batches data timesteps target = inr (x, y, tg)
    /\ forall r j i name col q v,
         nth_error (columns data) i = Some (name, col) ->
         i < List.length (columns data) - 1 ->
         r < nrows data - Z.to_nat timesteps -> j < Z.to_nat timesteps ->
         r + j + 1 <= q -> q + (Z.to_nat timesteps - j - 1) < nrows data ->
         (forall p, r + j + 1 <= p < q -> nth p col None = None) ->
         nth q col None = Some v ->
         get x [r; j; i] = Some v.
Proof.
  intros Hok HT Hin.
  destruct (lookup_found _ _ Hin) as (tcol & Htg).
  destruct (prepare_batches_ok data timesteps target tcol Hok HT Htg)
    as (x & y & tg & E & _ & _ & _ & Gx & _).
  destruct Hok as [_ Hlen]. rewrite Forall_forall in Hlen.
  exists x, y, tg. split; [exact E|].
  intros r j i name col q v Hn Hi Hr Hj Hq Hqn Hnan Hv.
  rewrite (Gx r j i name col Hn Hi Hr Hj).
  assert (Hl : List.length col = nrows data).
  { apply (Hlen (name, col)). eapply nth_error_In; eassumption. }
  set (T := Z.to_nat timesteps) in *.
  set (k := T - j - 1).
  assert (Ek : Z.to_nat (timesteps - Z.of_nat j - 1) = k) by (unfold k, T; lia).
  apply (nth_bfill_next _ (r + T) (q + k)); [unfold k; lia | |].
  - intros p Hp. rewrite nth_shift_forward by lia.
    rewrite Ek. apply Hnan. unfold k in *. lia.
  - rewrite nth_shift_forward by lia.
    rewrite Ek. replace (q + k - k) with q by lia. exact Hv.
Qed.

(** Sample 1 with two timesteps has the window of rows 2 and 3; row 3
    of the column is NaN, and the entry is that of row 4. *)
Lemma prepare_batches_backfills_from_later_rows_witness :
  frame_ok BatchesNaN.frame /\ (0 <= 2)%Z
  /\ In "chla"%string (map fst (columns BatchesNaN.frame))
  /\ exists x y tg,
       prepare_batches BatchesNaN.frame 2 "chla"%string = inr (x, y, tg)
       /\ get x [1; 1; 0] = Some 5%R.
Proof.
  assert (Hok : frame_ok BatchesNaN.frame).
  { split.
    - repeat constructor; simpl; intuition discriminate.
    - repeat constructor. }
  assert (Hin : In "chla"%string (map fst (columns BatchesNaN.frame)))
    by (simpl; auto).
  split; [exact Hok|]. split; [lia|]. split; [exact Hin|].
  destruct (prepare_batches_backfills_from_later_rows BatchesNaN.frame 2
              "chla"%string Hok) as (x & y & tg & E & Hx); [lia | exact Hin |].
  exists x, y, tg. split; [exact E|].
  apply (Hx 1 1 0 "flow"%string BatchesNaN.flow 4 5%R);
    [reflexivity | simpl; lia | simpl; lia | simpl; lia | lia | simpl; lia
    | | reflexivity].
  intros p Hp. assert (p = 3) as -> by lia. reflexivity.
Defined.

(** X19.  The target of sample [r] is the target column one row after its
    window, row [r + timesteps + 1]. The last sample has no such row: its
    target is the forward-filled last row, which is also the last entry of
    its own history window in [y]. *)
Theorem prepare_batches_targets (data : DataFrame) (timesteps : Z)
    (target : string) (tcol : Series) :
  frame_ok data -> (0 <= timesteps)%Z ->
  getitem data target = inr tcol ->
  exists x y tg,
    prepare_batches data timesteps target = inr (x, y, tg)
    /\ (forall r v,
          r + Z.to_nat timesteps + 1 < nrows data ->
          nth (r + Z.to_nat timesteps + 1) tcol None = Some v ->
          nth r tg None = Some v)
    /\ (forall v,
          Z.to_nat timesteps < nrows data -> 2 <= nrows data ->
          nth (nrows data - 1) tcol None = Some v ->
          nth (nrows data - Z.to_nat timesteps - 1) tg None = Some v
          /\ (1 <= Z.to_nat timesteps ->
              get y [nrows data - Z.to_nat timesteps - 1;
                     Z.to_nat timesteps - 1; 0] = Some v)).
Proof.
  intros Hok HT Htg.
  destruct (prepare_batches_ok data timesteps target tcol Hok HT Htg)
    as (x & y & tg & E & _ & _ & Etg & _ & Gy).
  destruct Hok as [_ Hlen]. rewrite Forall_forall in Hlen.
  assert (Hl : List.length tcol = nrows data).
  { apply (Hlen (target, tcol)). apply lookup_In. exact Htg. }
  set (T := Z.to_nat timesteps) in *. set (n := nrows data) in *.
  exists x, y, tg. split; [exact E|]. split.
  - intros r v Hr Hv. rewrite Etg, nth_skipn. unfold fillna_ffill.
    apply nth_ffill_valid. rewrite nth_shift_back by lia.
    replace (T + r + 1) with (r + T + 1) by lia. exact Hv.
  - intros v HTn Hn Hv. split.
    + rewrite Etg, nth_skipn. unfold fillna_ffill.
      replace (T + (n - T - 1)) with (S (n - 2)) by lia.
      rewrite nth_ffill_nan.
      * apply nth_ffill_valid. rewrite nth_shift_back by lia.
        replace (n - 2 + 1) with (n - 1) by lia. exact Hv.
      * rewrite length_shift. lia.
      * replace (S (n - 2)) with (List.length tcol - 1) by lia.
        apply nth_shift_back_last. lia.
    + intros H1. rewrite Gy by lia.
      apply (window_entry data); fold n T; [exact Hl | lia | lia |].
      replace (n - T - 1 + (T - 1) + 1) with (n - 1) by lia. exact Hv.
Qed.

Lemma prepare_batches_targets_witness :
  frame_ok BatchesExample.frame /\ (0 <= 2)%Z
  /\ getitem BatchesExample.frame "chla"%string = inr BatchesExample.chla
  /\ exists x y tg,
       prepare_batches BatchesExample.frame 2 "chla"%string = inr (x, y, tg)
       /\ nth 0 tg None = Some 24%R
       /\ nth 2 tg None = Some 25%R
       /\ get y [2; 1; 0] = Some 25%R.
Proof.
  split; [exact frame_example_ok|]. split; [lia|]. split; [reflexivity|].
  destruct (prepare_batches_targets BatchesExample.frame 2 "chla"%string
              BatchesExample.chla frame_example_ok)
    as (x & y & tg & E & Hr & Hlast); [lia | reflexivity |].
  exists x, y, tg. split; [exact E|]. split; [|split].
  - apply (Hr 0); [simpl; lia | reflexivity].
  - apply (Hlast 25%R); [simpl; lia | simpl; lia | reflexivity].
  - apply (Hlast 25%R); [simpl; lia | simpl; lia | reflexivity | simpl; lia].
Defined.

Lemma for_eachE_ext {S A : Type} (l : list A) (st : S)
    (body1 body2 : A -> S -> exn + S) :
  (forall a s, In a l -> body1 a s = body2 a s) ->
  for_eachE l st body1 = for_eachE l st body2.
Proof.
  revert st. induction l as [|a l IH]; intros st H; simpl; [reflexivity|].
  rewrite (H a st) by (left; reflexivity).
  destruct (body2 a st) as [e|s']; simpl; [reflexivity|].
  apply IH. intros; apply H; right; assumption.
Qed.

Lemma lookup_app_last (cs : list (string * Series)) (nm name : string)
    (v v' : Series) :
  name <> nm ->
  lookup (cs ++ [(nm, v)]) name = lookup (cs ++ [(nm, v')]) name.
Proof.
  intros Hne. induction cs as [|[n s] cs IH]; simpl.
  - destruct (String.eqb_spec nm name); [congruence | reflexivity].
  - destruct (String.eqb n name); [reflexivity | exact IH].
Qed.

(** X20.  The last column of the frame is read only when it is the target:
    with another target, its entries have no effect on the result. *)
Theorem prepare_batches_ignores_last_column (n : nat)
    (cs : list (string * Series)) (nm : string) (v v' : Series)
    (timesteps : Z) (target : string) :
  frame_ok (mkDF n (cs ++ [(nm, v)])) ->
  List.length v' = n ->
  target <> nm ->
  prepare_batches (mkDF n (cs ++ [(nm, v)])) timesteps target
  = prepare_batches (mkDF n (cs ++ [(nm, v')])) timesteps target.
Proof.
  intros [Hnd _] _ Htg. cbn [columns] in Hnd.
  assert (Hg : forall name, name <> nm ->
             getitem (mkDF n (cs ++ [(nm, v)])) name
             = getitem (mkDF n (cs ++ [(nm, v')])) name).
  { intros name Hne. unfold getitem. cbn [columns].
    apply lookup_app_last. exact Hne. }
  assert (Hf : forall name i j a, name <> nm ->
             fill (mkDF n (cs ++ [(nm, v)])) timesteps name i j a
             = fill (mkDF n (cs ++ [(nm, v')])) timesteps name i j a).
  { intros name i j a Hne. unfold fill. rewrite (Hg name Hne). reflexivity. }
  unfold prepare_batches. cbn [nrows columns].
  rewrite !length_app. cbn [List.length].
  rewrite !map_app. cbn [map fst]. rewrite !removelast_last.
  f_equal. apply functional_extensionality. intros x.
  f_equal. apply functional_extensionality. intros y.
  assert (Ex : for_eachE (enumerate (map fst cs)) x
                 (fun p x0 => for_eachE (range timesteps) x0
                    (fill (mkDF n (cs ++ [(nm, v)])) timesteps (snd p) (fst p)))
               = for_eachE (enumerate (map fst cs)) x
                 (fun p x0 => for_eachE (range timesteps) x0
                    (fill (mkDF n (cs ++ [(nm, v')])) timesteps (snd p)
                       (fst p)))).
  { apply for_eachE_ext. intros [i name] a Hin. cbn [fst snd].
    apply for_eachE_ext. intros j a' _. apply Hf.
    apply In_enumerate in Hin. apply nth_error_In in Hin.
    intros ->. rewrite map_app in Hnd. cbn [map fst] in Hnd.
    apply NoDup_remove_2 in Hnd. rewrite app_nil_r in Hnd. contradiction. }
  rewrite Ex. f_equal. apply functional_extensionality. intros x1.
  rewrite (for_eachE_ext _ y _
             (fill (mkDF n (cs ++ [(nm, v')])) timesteps target 0))
    by (intros j a _; apply Hf; exact Htg).
  rewrite (Hg target Htg). reflexivity.
Qed.

Lemma prepare_batches_ignores_last_column_witness :
  frame_ok (mkDF 5 ([("flow"%string, BatchesExample.flow);
                     ("chla"%string, BatchesExample.chla)]
                    ++ [("temp"%string, BatchesExample.temp)]))
  /\ List.length BatchesExample.flow = 5
  /\ "chla"%string <> "temp"%string
  /\ prepare_batches
       (mkDF 5 ([("flow"%string, BatchesExample.flow);
                 ("chla"%string, BatchesExample.chla)]
                ++ [("temp"%string, BatchesExample.temp)])) 2 "chla"%string
     = prepare_batches
         (mkDF 5 ([("flow"%string, BatchesExample.flow);
                   ("chla"%string, BatchesExample.chla)]
                  ++ [("temp"%string, BatchesExample.flow)])) 2 "chla"%string.
Proof.
  assert (Hok : frame_ok (mkDF 5 ([("flow"%string, BatchesExample.flow);
                     ("chla"%string, BatchesExample.chla)]
                    ++ [("temp"%string, BatchesExample.temp)]))).
  { split.
    - repeat constructor; simpl; intuition discriminate.
    - repeat constructor. }
  split; [exact Hok|]. split; [reflexivity|]. split; [discriminate|].
  apply (prepare_batches_ignores_last_column 5 _ "temp"%string
           BatchesExample.temp BatchesExample.flow 2 "chla"%string Hok);
    [reflexivity | discriminate].
Defined.

End BatchesResults.

(** ** Default arguments and their overrides (make_model) *)

Section RunModelFacts.

Import Stdlib.Strings.String.
Import RunModel.

Lemma setitem_keys (d : dict) (key : string) (val : value) :
  contains d key = true -> map fst (setitem d key val) = map fst d.
Proof.
  induction d as [|[k v] d IH]; simpl; [discriminate|].
  destruct (String.eqb k key); simpl; [reflexivity|].
  intros H. rewrite IH by assumption. reflexivity.
Qed.

Lemma get_setitem (d : dict) (key k : string) (val : value) :
  get (setitem d key val) k
  = if String.eqb key k then Some val else get d k.
Proof.
  induction d as [|[k0 v0] d IH]; simpl.
  - destruct (String.eqb key k); reflexivity.
  - destruct (String.eqb_spec k0 key) as [->|Hne]; simpl.
    + destruct (String.eqb key k); reflexivity.
    + rewrite IH. destruct (String.eqb_spec k0 k) as [->|_]; [|reflexivity].
      destruct (String.eqb_spec key k) as [->|_]; [congruence|reflexivity].
Qed.

Lemma contains_keys (d d' : dict) (k : string) :
  map fst d = map fst d' -> contains d k = contains d' k.
Proof.
  unfold contains. revert d'.
  induction d as [|[k0 v0] d IH]; intros [|[k1 v1] d'] H; simpl in *;
    try discriminate; [reflexivity|].
  injection H as -> H. rewrite (IH d' H). reflexivity.
Qed.

Lemma get_None_contains (d : dict) (k : string) :
  contains d k = false -> get d k = None.
Proof.
  unfold contains. induction d as [|[k0 v0] d IH]; simpl; [reflexivity|].
  destruct (String.eqb k0 k); simpl; [discriminate | exact IH].
Qed.

Lemma get_not_In (d : dict) (k : string) :
  ~ In k (map fst d) -> get d k = None.
Proof.
  induction d as [|[k0 v0] d IH]; simpl; [reflexivity|].
  intros H. destruct (String.eqb_spec k0 k); [tauto | apply IH; tauto].
Qed.

(** The loop over the keyword arguments treats the two dictionaries
    separately. *)
Lemma override_fold (kwargs : dict) (dc nc : dict) :
  fold_left (fun st item => override item st) kwargs (dc, nc)
  = (fold_left (fun d item => override_one d (fst item) (snd item)) kwargs dc,
     fold_left (fun d item => override_one d (fst item) (snd item)) kwargs nc).
Proof.
  revert dc nc. induction kwargs as [|[key val] kwargs IH]; intros dc nc;
    simpl; [reflexivity|].
  rewrite IH. reflexivity.
Qed.

Lemma override_one_same_keys (d : dict) (key : string) (val : value) :
  map fst (override_one d key val) = map fst d.
Proof.
  unfold override_one.
  destruct (contains d key) eqn:E; [apply setitem_keys; exact E | reflexivity].
Qed.

Lemma override_loop_keys (kwargs d : dict) :
  map fst (fold_left (fun d item => override_one d (fst item) (snd item))
             kwargs d) = map fst d.
Proof.
  revert d. induction kwargs as [|[key val] kwargs IH]; intros d; simpl;
    [reflexivity|].
  rewrite IH. apply override_one_same_keys.
Qed.

Lemma override_loop_get (kwargs d : dict) (k : string) :
  NoDup (map fst kwargs) ->
  get (fold_left (fun d item => override_one d (fst item) (snd item))
         kwargs d) k
  = if contains d k
    then match get kwargs k with
         | Some v => Some v
         | None => get d k
         end
    else None.
Proof.
  revert d. induction kwargs as [|[key val] kwargs IH]; intros d Hnd; simpl.
  - destruct (contains d k) eqn:E; [reflexivity|].
    apply get_None_contains. exact E.
  - apply NoDup_cons_iff in Hnd. destruct Hnd as [Hni Hnd].
    rewrite (IH _ Hnd).
    rewrite (contains_keys _ d k (override_one_same_keys d key val)).
    destruct (contains d k) eqn:Ed; [|reflexivity].
    destruct (String.eqb_spec key k) as [->|Hne].
    + rewrite (get_not_In kwargs k Hni).
      unfold override_one. rewrite Ed, get_setitem, String.eqb_refl.
      reflexivity.
    + destruct (get kwargs k); [reflexivity|].
      unfold override_one.
      destruct (contains d key); [|reflexivity].
      rewrite get_setitem.
      destruct (String.eqb_spec key k); [contradiction | reflexivity].
Qed.

Lemma override_loop_filter (P : string * value -> bool) (d0 : dict)
    (kwargs d : dict) :
  (forall item, P item = false -> contains d0 (fst item) = false) ->
  map fst d = map fst d0 ->
  fold_left (fun d item => override_one d (fst item) (snd item))
    (filter P kwargs) d
  = fold_left (fun d item => override_one d (fst item) (snd item)) kwargs d.
Proof.
  intros HP. revert d. induction kwargs as [|[key val] kwargs IH];
    intros d Hd; simpl; [reflexivity|].
  destruct (P (key, val)) eqn:E; simpl.
  - apply IH. rewrite override_one_same_keys. exact Hd.
  - rewrite IH by exact Hd. f_equal. unfold override_one.
    pose proof (HP _ E) as Hc. simpl in Hc.
    rewrite (contains_keys d d0 key Hd), Hc. reflexivity.
Qed.

(** X21.  Whatever the keyword arguments, the two dictionaries that
    make_model returns have exactly their default keys, in the default
    order, and the intervals are the fixed ones: a keyword changes the value
    of an existing key and never adds an entry. *)
Theorem make_model_keeps_default_keys (kwargs : dict) :
  map fst (fst (fst (make_model kwargs)))
  = ["lookback"; "batch_size"; "val_fraction"; "CACHEDATA"; "ignore_nans";
     "inputs"; "outputs"]%string
  /\ map fst (snd (fst (make_model kwargs)))
     = ["nbeats_options"; "enc_config"; "dec_config"; "tcn_options"; "lr";
        "optimizer"; "loss"; "epochs"; "min_val_loss"; "patience";
        "subsequences"; "lstm_config"; "cnn_config"; "HARHN_config"]%string
  /\ snd (make_model kwargs) = _total_intervals.
Proof.
  unfold make_model. rewrite override_fold. cbn [fst snd].
  rewrite !override_loop_keys. repeat split.
Qed.

(** X22.  A keyword that is a key of [_data_config] or of [_nn_config]
    replaces the default value of that key; every other key keeps its
    default. *)
Theorem make_model_overrides_top_level_keys (kwargs : dict) (k : string) :
  NoDup (map fst kwargs) ->
  get (fst (fst (make_model kwargs))) k
  = (if contains default_data_config k
     then match get kwargs k with
          | Some v => Some v
          | None => get default_data_config k
          end
     else None)
  /\ get (snd (fst (make_model kwargs))) k
     = (if contains default_nn_config k
        then match get kwargs k with
             | Some v => Some v
             | None => get default_nn_config k
             end
        else None).
Proof.
  intros Hnd. unfold make_model. rewrite override_fold. cbn [fst snd].
  rewrite !override_loop_get by exact Hnd. split; reflexivity.
Qed.

Lemma make_model_overrides_top_level_keys_witness :
  NoDup (map fst script_kwargs)
  /\ get (fst (fst (make_model script_kwargs))) "batch_size"%string
     = Some (VInt 16)
  /\ get (snd (fst (make_model script_kwargs))) "lr"%string
     = Some (VFloat 0.001).
Proof.
  assert (Hnd : NoDup (map fst script_kwargs)).
  { repeat constructor; simpl; intuition discriminate. }
  split; [exact Hnd|].
  split.
  - apply (proj1 (make_model_overrides_top_level_keys script_kwargs
                    "batch_size"%string Hnd)).
  - apply (proj2 (make_model_overrides_top_level_keys script_kwargs
                    "lr"%string Hnd)).
Defined.

(** X23.  A keyword that is not a top-level key of either dictionary is
    dropped without an error. The options inside the nested dictionaries
    ([lstm_units], [dropout], [rec_dropout], ...) are such keywords: passing
    them changes nothing. *)
Theorem make_model_drops_unknown_keywords (kwargs : dict) :
  make_model kwargs = make_model (filter known kwargs)
  /\ (forallb (fun item => negb (known item)) kwargs = true ->
      make_model kwargs = make_model []).
Proof.
  assert (H : make_model kwargs = make_model (filter known kwargs)).
  { unfold make_model. rewrite !override_fold.
    rewrite (override_loop_filter known default_data_config kwargs),
      (override_loop_filter known default_nn_config kwargs);
      try reflexivity.
    - intros item E. unfold known in E. apply orb_false_iff in E. tauto.
    - intros item E. unfold known in E. apply orb_false_iff in E. tauto. }
  split; [exact H|].
  intros Hall. rewrite H. f_equal.
  induction kwargs as [|item kwargs IH]; [reflexivity|].
  simpl in Hall. apply andb_true_iff in Hall. destruct Hall as [H1 H2].
  simpl. destruct (known item); [discriminate|].
  apply IH; [|exact H2].
  unfold make_model. rewrite !override_fold.
  rewrite (override_loop_filter known default_data_config kwargs),
    (override_loop_filter known default_nn_config kwargs);
    try reflexivity.
  - intros it E. unfold known in E. apply orb_false_iff in E. tauto.
  - intros it E. unfold known in E. apply orb_false_iff in E. tauto.
Qed.

(** The four nested options that the script passes. *)
Lemma make_model_drops_unknown_keywords_witness :
  forallb (fun item => negb (known item))
    [("lstm_units", VInt 64); ("dropout", VFloat 0.4);
     ("rec_dropout", VFloat 0.3); ("lstm_act", VStr "relu")]%string = true
  /\ make_model [("lstm_units", VInt 64); ("dropout", VFloat 0.4);
                 ("rec_dropout", VFloat 0.3); ("lstm_act", VStr "relu")]%string
     = make_model [].
Proof.
  split; [reflexivity|].
  apply (proj2 (make_model_drops_unknown_keywords
                  [("lstm_units", VInt 64); ("dropout", VFloat 0.4);
                   ("rec_dropout", VFloat 0.3);
                   ("lstm_act", VStr "relu")]%string)).
  reflexivity.
Defined.

End RunModelFacts.

(** ** Names of result directories (utils.py) *)

Section UtilsFacts.

Import Stdlib.Strings.String.
Import Stdlib.Strings.Ascii.
Import Utils.

Lemma length_append (s t : string) :
  String.length (s ++ t) = String.length s + String.length t.
Proof. induction s as [|c s IH]; simpl; [reflexivity | rewrite IH; reflexivity]. Qed.

Lemma append_assoc (s t u : string) :
  ((s ++ t) ++ u = s ++ t ++ u)%string.
Proof. induction s as [|c s IH]; simpl; [reflexivity | rewrite IH; reflexivity]. Qed.

Lemma append_inj (s1 s2 t1 t2 : string) :
  String.length s1 = String.length s2 ->
  (s1 ++ t1 = s2 ++ t2)%string -> s1 = s2 /\ t1 = t2.
Proof.
  revert s2. induction s1 as [|c s1 IH]; intros [|c' s2] Hl H; simpl in *;
    try discriminate.
  - auto.
  - injection H as -> H. destruct (IH s2) as [-> ->]; [lia | exact H | auto].
Qed.

Lemma to_uint_nonnil (n : nat) : Nat.to_uint n <> Decimal.Nil.
Proof.
  rewrite <- (DecimalNat.Unsigned.of_to n) at 1.
  rewrite DecimalNat.Unsigned.to_of. apply DecimalFacts.unorm_nonnil.
Qed.

(** [int(str(n)) = n]: distinct numbers have distinct digits. *)
Lemma str_inj (a b : nat) : str a = str b -> a = b.
Proof.
  unfold str. intros H.
  apply (f_equal DecimalString.NilZero.uint_of_string) in H.
  rewrite !DecimalString.NilZero.usu in H by apply to_uint_nonnil.
  injection H as H. apply DecimalNat.Unsigned.to_uint_inj. exact H.
Qed.

(** A number below 100 is shown with exactly two digits. *)
Lemma zero_pad_length (n : nat) :
  n < 100 -> String.length (zero_pad (str n)) = 2.
Proof.
  intros H.
  assert (E : forallb (fun n => String.length (zero_pad (str n)) =? 2)
                (seq 0 100) = true) by (vm_compute; reflexivity).
  rewrite forallb_forall in E. apply Nat.eqb_eq. apply E.
  apply in_seq. lia.
Qed.

Lemma zero_pad_inj (a b : nat) :
  a < 100 -> b < 100 -> zero_pad (str a) = zero_pad (str b) -> a = b.
Proof.
  intros Ha Hb H.
  assert (E : forallb (fun a => forallb (fun b =>
                implb (String.eqb (zero_pad (str a)) (zero_pad (str b)))
                      (a =? b)) (seq 0 100)) (seq 0 100) = true)
    by (vm_compute; reflexivity).
  rewrite forallb_forall in E.
  specialize (E a (proj2 (in_seq _ _ _) (conj (Nat.le_0_l a) Ha))).
  rewrite forallb_forall in E.
  specialize (E b (proj2 (in_seq _ _ _) (conj (Nat.le_0_l b) Hb))).
  rewrite H, String.eqb_refl in E. simpl in E. apply Nat.eqb_eq. exact E.
Qed.

Lemma valid_inv (d : datetime) :
  valid d = true ->
  month d < 100 /\ day d < 100 /\ hour d < 100 /\ minute d < 100.
Proof.
  unfold valid. intros H.
  do 6 (apply andb_true_iff in H; destruct H as [H ?]).
  repeat match goal with
         | Hx : (_ <=? _) = true |- _ => apply Nat.leb_le in Hx
         end.
  lia.
Qed.

Lemma stamp_length (jetzt : datetime) :
  valid jetzt = true ->
  String.length (dateandtime_now jetzt)
  = String.length (str (year jetzt)) + 9.
Proof.
  intros Hv. destruct (valid_inv jetzt Hv) as (Hm & Hd & Hh & Hi).
  unfold dateandtime_now. cbv zeta.
  rewrite !length_append, !zero_pad_length by assumption. simpl. lia.
Qed.

(** X24.  The name of a reading of the clock is the year followed by nine
    characters: month, day, an underscore, hour and minute, each of the four
    on two digits. *)
Theorem dateandtime_now_format (jetzt : datetime) :
  valid jetzt = true ->
  String.length (dateandtime_now jetzt)
  = String.length (str (year jetzt)) + 9
  /\ String.get (String.length (str (year jetzt)) + 4)
       (dateandtime_now jetzt) = Some "_"%char.
Proof.
  intros Hv. split; [apply stamp_length; exact Hv|].
  destruct (valid_inv jetzt Hv) as (Hm & Hd & Hh & Hi).
  unfold dateandtime_now. cbv zeta.
  pose proof (zero_pad_length _ Hm) as Lm.
  pose proof (zero_pad_length _ Hd) as Ld.
  set (y := str (year jetzt)). set (m := zero_pad (str (month jetzt))) in *.
  set (t := zero_pad (str (day jetzt))) in *.
  set (rest := (zero_pad (str (hour jetzt))
                ++ zero_pad (str (minute jetzt)))%string).
  replace ((y ++ m ++ t) ++ "_" ++ rest)%string
    with ((y ++ m ++ t) ++ String "_"%char rest)%string by reflexivity.
  replace (String.length y + 4) with (0 + String.length (y ++ m ++ t))
    by (rewrite !length_append, Lm, Ld; lia).
  rewrite <- append_correct2. reflexivity.
Qed.

Lemma dateandtime_now_format_witness :
  valid UtilsExample.morning = true
  /\ String.length (dateandtime_now UtilsExample.morning) = 13
  /\ String.get 8 (dateandtime_now UtilsExample.morning) = Some "_"%char.
Proof.
  split; [reflexivity|].
  apply (dateandtime_now_format UtilsExample.morning). reflexivity.
Defined.

(** X25.  Two readings of the clock get the same name exactly when they
    agree on year, month, day, hour and minute: the name tells minutes apart
    and nothing finer. *)
Theorem dateandtime_now_names_the_minute (a b : datetime) :
  valid a = true -> valid b = true ->
  (dateandtime_now a = dateandtime_now b
   <-> year a = year b /\ month a = month b /\ day a = day b
       /\ hour a = hour b /\ minute a = minute b).
Proof.
  intros Ha Hb.
  destruct (valid_inv a Ha) as (Am & Ad & Ah & Ai).
  destruct (valid_inv b Hb) as (Bm & Bd & Bh & Bi).
  split.
  - intros H.
    pose proof (stamp_length a Ha) as La.
    pose proof (stamp_length b Hb) as Lb.
    assert (Ly : String.length (str (year a)) = String.length (str (year b)))
      by (rewrite H in La; lia).
    unfold dateandtime_now in H. cbv zeta in H.
    rewrite !append_assoc in H.
    apply append_inj in H; [|exact Ly]. destruct H as [Hy H].
    apply append_inj in H; [|rewrite !zero_pad_length by assumption;
                              reflexivity].
    destruct H as [Hm H].
    apply append_inj in H; [|rewrite !zero_pad_length by assumption;
                              reflexivity].
    destruct H as [Hd H].
    apply append_inj in H; [|reflexivity]. destruct H as [_ H].
    apply append_inj in H; [|rewrite !zero_pad_length by assumption;
                              reflexivity].
    destruct H as [Hh Hi].
    repeat split;
      [apply str_inj; assumption | apply zero_pad_inj; assumption ..].
  - intros (Hy & Hm & Hd & Hh & Hi). unfold dateandtime_now.
    rewrite Hy, Hm, Hd, Hh, Hi. reflexivity.
Qed.

Lemma dateandtime_now_names_the_minute_witness :
  valid UtilsExample.morning = true
  /\ valid UtilsExample.morning_later = true
  /\ dateandtime_now UtilsExample.morning
     = dateandtime_now UtilsExample.morning_later.
Proof.
  split; [reflexivity|]. split; [reflexivity|].
  apply (proj2 (dateandtime_now_names_the_minute UtilsExample.morning
                  UtilsExample.morning_later eq_refl eq_refl)).
  repeat split.
Defined.


Lemma list_os_ok : os_ok list_os.
Proof.
  intros p w w'. simpl.
  destruct (String.eqb p "") eqn:E0; [discriminate|].
  destruct (fs_exists p w) eqn:E; [discriminate|].
  intros H. injection H as <-. unfold fs_exists. simpl.
  rewrite E0, String.eqb_refl. simpl.
  split; [reflexivity|].
  intros q Hq. apply andb_true_iff in Hq as [Hq1 Hq2].
  rewrite Hq1, Hq2. simpl. apply orb_true_r.
Qed.

(** X26.  When maybe_create_path returns, the directory it returns exists;
    it was created only if it was missing, no other path stopped existing,
    and calling again with the returned path changes nothing. An explicit
    path is returned as it is. *)
Theorem maybe_create_path_creates_once {W : Type} (os : OS W)
    (prefix path : option string) (w w' : W) (save_dir : string) :
  os_ok os ->
  maybe_create_path os prefix path w = inr (save_dir, w') ->
  path_exists os save_dir w' = true
  /\ (path_exists os save_dir w = true -> w' = w)
  /\ (forall q, path_exists os q w = true -> path_exists os q w' = true)
  /\ (forall prefix',
        maybe_create_path os prefix' (Some save_dir) w' = inr (save_dir, w'))
  /\ (forall p, path = Some p -> save_dir = p).
Proof.
  intros Hos. unfold maybe_create_path.
  set (d := match path with
            | Some p => p
            | None => _
            end).
  destruct (path_exists os d w) eqn:Ex; cbn [negb].
  - intros H. injection H as <- <-.
    split; [exact Ex|]. split; [reflexivity|]. split; [auto|]. split.
    + intros _. rewrite Ex. reflexivity.
    + intros p ->. reflexivity.
  - destruct (makedirs os d w) as [e|w1] eqn:Em; [discriminate|].
    intros H. injection H as <- <-.
    destruct (Hos d w w1 Em) as (H1 & H3).
    split; [exact H1|].
    split; [intros C; rewrite Ex in C; discriminate|].
    split; [exact H3|]. split.
    + intros _. rewrite H1. reflexivity.
    + intros p ->. reflexivity.
Qed.

Lemma maybe_create_path_creates_once_witness :
  os_ok list_os
  /\ maybe_create_path list_os (Some "harhn"%string) None UtilsExample.world
     = inr ("/home/user/project/results/harhn/20261105_0907"%string,
            mkFs "/home/user/project"%string UtilsExample.morning
              ["/home/user/project/results/harhn/20261105_0907"%string;
               "/home/user/project"%string])
  /\ path_exists list_os
       "/home/user/project/results/harhn/20261105_0907"%string
       (mkFs "/home/user/project"%string UtilsExample.morning
          ["/home/user/project/results/harhn/20261105_0907"%string;
           "/home/user/project"%string]) = true.
Proof.
  split; [exact list_os_ok|].
  assert (E : maybe_create_path list_os (Some "harhn"%string) None
                UtilsExample.world
     = inr ("/home/user/project/results/harhn/20261105_0907"%string,
            mkFs "/home/user/project"%string UtilsExample.morning
              ["/home/user/project/results/harhn/20261105_0907"%string;
               "/home/user/project"%string])) by reflexivity.
  split; [exact E|].
  exact (proj1 (maybe_create_path_creates_once list_os
                  (Some "harhn"%string) None UtilsExample.world _ _
                  list_os_ok E)).
Defined.

End UtilsFacts.
